(** * Qdrant gateway client: request translation and error normalisation

    A shallow embedding of [client.ts] (the shared [request] routine and the
    endpoint methods of [QdrantClientImpl]), of [types/env.ts]
    ([parseTenantCredentials], [validateCredentials], the numeric settings),
    of the fetch handler of [index.ts] and of the tool handlers of
    [tools/indexes.ts], [tools/payload.ts] and parts of [tools/points.ts],
    [tools/collections.ts] and [tools/service.ts] with the two exported
    functions of [utils/formatters.ts], together with the platform functions
    they call ([parseInt], [JSON.parse], [JSON.stringify],
    [encodeURIComponent], [Headers.get], [fetch]).

    Layout: part I holds every definition, part II the lemmas. *)

From Stdlib Require Import NArith ZArith List Ascii String Lia Bool.
From stdpp Require Import base option list numbers.

Ltac Zify.zify_post_hook ::= Z.to_euclidean_division_equations.

(* ====================================================================== *)
(** * Part I: definitions *)
(* ====================================================================== *)

(** ** Strings

    A JavaScript string is a sequence of UTF-16 code units.  Code units are
    held in [N]; [wf_string] is the 16-bit range invariant. *)

Abbreviation jsstring := (list N).

Definition lit (s : string) : jsstring :=
  map N_of_ascii (list_ascii_of_string s).
Arguments lit : simpl never.

Definition wf_string (s : jsstring) : Prop := Forall (λ c, (c < 65536)%N) s.

(** ToBoolean on a string: only the empty string is falsy. *)
Definition truthy_string (s : jsstring) : bool :=
  match s with [] => false | _ => true end.

(** ToBoolean on [string | null | undefined]. *)
Definition truthy_opt (o : option jsstring) : bool :=
  match o with Some s => truthy_string s | None => false end.

(** [a.join(sep)] on an array of strings. *)
Fixpoint join (sep : jsstring) (l : list jsstring) : jsstring :=
  match l with
  | [] => []
  | [s] => s
  | s :: r => s ++ sep ++ join sep r
  end.

(** The elements after (resp. of) the longest prefix that satisfies [p]. *)
Fixpoint drop_while {A} (p : A → bool) (l : list A) : list A :=
  match l with
  | [] => []
  | x :: r => if p x then drop_while p r else l
  end.

Fixpoint take_while {A} (p : A → bool) (l : list A) : list A :=
  match l with
  | [] => []
  | x :: r => if p x then x :: take_while p r else []
  end.

Fixpoint is_prefix (p s : jsstring) : bool :=
  match p, s with
  | [], _ => true
  | a :: p', b :: s' => (a =? b)%N && is_prefix p' s'
  | _ :: _, [] => false
  end.

(** [s.includes(needle)]. *)
Fixpoint includes (s needle : jsstring) : bool :=
  is_prefix needle s ||
  match s with
  | [] => false
  | _ :: s' => includes s' needle
  end.

(** ** Decimal digits *)

Inductive digit := d0 | d1 | d2 | d3 | d4 | d5 | d6 | d7 | d8 | d9.

Definition N_of_digit (d : digit) : N :=
  match d with
  | d0 => 0 | d1 => 1 | d2 => 2 | d3 => 3 | d4 => 4
  | d5 => 5 | d6 => 6 | d7 => 7 | d8 => 8 | d9 => 9
  end%N.

(** The digit of [n mod 10]. *)
Definition digit_of_N (n : N) : digit :=
  match (n mod 10)%N with
  | 0 => d0 | 1 => d1 | 2 => d2 | 3 => d3 | 4 => d4
  | 5 => d5 | 6 => d6 | 7 => d7 | 8 => d8 | _ => d9
  end%N.

Definition digit_char (d : digit) : N := (48 + N_of_digit d)%N.

Definition char_digit (c : N) : option digit :=
  if ((48 <=? c) && (c <=? 57))%N then Some (digit_of_N (c - 48)) else None.

Definition is_zero_digit (d : digit) : bool :=
  match d with d0 => true | _ => false end.

(** Most significant digit first. *)
Fixpoint N_digits_aux (fuel : nat) (n : N) (acc : list digit) : list digit :=
  match fuel with
  | O => acc
  | S f =>
      if (n <? 10)%N then digit_of_N n :: acc
      else N_digits_aux f (n / 10)%N (digit_of_N n :: acc)
  end.

Definition N_digits (n : N) : list digit :=
  N_digits_aux (S (N.to_nat (N.log2 n))) n [].

Definition N_of_digits (ds : list digit) : N :=
  fold_left (λ a d, 10 * a + N_of_digit d)%N ds 0%N.

Definition digits_string (ds : list digit) : jsstring := map digit_char ds.

(** Longest prefix of decimal digits, and what follows it. *)
Fixpoint take_digits (s : jsstring) : list digit * jsstring :=
  match s with
  | [] => ([], [])
  | c :: r =>
      match char_digit c with
      | Some d => let '(ds, rest) := take_digits r in (d :: ds, rest)
      | None => ([], s)
      end
  end.

Definition strip_leading_zeros (ds : list digit) : list digit :=
  drop_while is_zero_digit ds.

Definition strip_trailing_zeros (ds : list digit) : list digit :=
  rev (drop_while is_zero_digit (rev ds)).

(** ** Numbers

    A finite non-zero Number is held as the decimal that
    [Number::toString] prints for it: the digit string [ds] (no leading and
    no trailing zero) and the position [n] of the decimal point, the value
    being [0.ds * 10^n].  ECMAScript rounds every value it reads to the
    nearest IEEE-754 double; here a decimal that is read is kept exactly,
    except that magnitudes outside the double range become [Infinity] or
    zero as they do in JavaScript.  The two readings agree on the integers
    below [2^53] in magnitude and on the decimals of at most 15 significant
    digits inside the normal range, where the double that is nearest to the
    decimal is printed with the digits of the decimal; beyond that the
    double may print with other digits than the text had. *)

Inductive JSNumber :=
| NaN
| Infinity (neg : bool)
| Zero (neg : bool)
| Dec (neg : bool) (ds : list digit) (n : Z).

(** The Number with sign [neg] and magnitude [0.ds * 10^n], for any digit
    string. *)
Definition number_of_digits (neg : bool) (ds : list digit) (n : Z) : JSNumber :=
  let lead := length (take_while is_zero_digit ds) in
  match strip_trailing_zeros (strip_leading_zeros ds) with
  | [] => Zero neg
  | ds' => Dec neg ds' (n - Z.of_nat lead)
  end.

Definition number_of_Z (z : Z) : JSNumber :=
  let ds := N_digits (Z.to_N (Z.abs z)) in
  number_of_digits (z <? 0)%Z ds (Z.of_nat (length ds)).

(** ToBoolean on a Number. *)
Definition truthy_number (x : JSNumber) : bool :=
  match x with
  | NaN | Zero _ => false
  | _ => true
  end.

Definition Z_to_string (z : Z) : jsstring :=
  (if (z <? 0)%Z then lit "-" else []) ++
  digits_string (N_digits (Z.to_N (Z.abs z))).

(** Number::toString, radix 10 (ECMA-262 6.1.6.1.20). *)
Definition format_decimal (ds : list digit) (n : Z) : jsstring :=
  let k := Z.of_nat (length ds) in
  if ((-5 <=? n) && (n <=? 21))%Z then
    if (k <=? n)%Z then
      digits_string ds ++ repeat 48%N (Z.to_nat (n - k))
    else if (0 <? n)%Z then
      digits_string (take (Z.to_nat n) ds) ++ lit "." ++
      digits_string (drop (Z.to_nat n) ds)
    else
      lit "0." ++ repeat 48%N (Z.to_nat (- n)) ++ digits_string ds
  else
    let e := (n - 1)%Z in
    let exponent :=
      lit "e" ++ (if (e <? 0)%Z then lit "-" else lit "+") ++
      digits_string (N_digits (Z.to_N (Z.abs e))) in
    match ds with
    | [d] => digits_string [d] ++ exponent
    | d :: rest => digits_string [d] ++ lit "." ++ digits_string rest ++ exponent
    | [] => exponent
    end.

Definition Number_toString (x : JSNumber) : jsstring :=
  match x with
  | NaN => lit "NaN"
  | Infinity neg => (if neg then lit "-" else []) ++ lit "Infinity"
  | Zero _ => lit "0"
  | Dec neg ds n => (if neg then lit "-" else []) ++ format_decimal ds n
  end.

(** ** parseInt

    [parseInt(s, 10)]: leading white space is skipped, one sign is read,
    then the longest run of decimal digits; no digit at all gives [NaN].
    With radix 10 no [0x] prefix is recognised.  The integer is held with
    all its digits; the engine holds the nearest double, which is the same
    Number for an integer below [2^53] in magnitude. *)

Definition is_js_whitespace (c : N) : bool :=
  ((9 <=? c) && (c <=? 13) || (c =? 32) || (c =? 160) || (c =? 5760)
   || (8192 <=? c) && (c <=? 8202) || (c =? 8232) || (c =? 8233)
   || (c =? 8239) || (c =? 8287) || (c =? 12288) || (c =? 65279))%N.

Definition parseInt (s : jsstring) : JSNumber :=
  let s1 := drop_while is_js_whitespace s in
  let '(neg, s2) :=
    match s1 with
    | c :: r =>
        if (c =? 45)%N then (true, r)
        else if (c =? 43)%N then (false, r)
        else (false, s1)
    | [] => (false, s1)
    end in
  match take_digits s2 with
  | ([], _) => NaN
  | (ds, _) => number_of_digits neg ds (Z.of_nat (length ds))
  end.

(** ** Headers

    The header list of a [Headers] object.  [get] matches names without
    regard to ASCII case and joins the values of a repeated header with
    [", "]; it answers [null] (here [None]) when no header matches. *)

Abbreviation Headers := (list (jsstring * jsstring)).

Definition ascii_lower (c : N) : N :=
  if ((65 <=? c) && (c <=? 90))%N then (c + 32)%N else c.

Definition same_header_name (a b : jsstring) : bool :=
  bool_decide (map ascii_lower a = map ascii_lower b).

Definition headers_get (h : Headers) (name : jsstring) : option jsstring :=
  match filter (λ p, same_header_name (fst p) name = true) h with
  | [] => None
  | hs => Some (join (lit ", ") (map snd hs))
  end.

(** ** Values

    Plain data as it flows through the client: what [JSON.parse] builds,
    what the tool handlers pass as request objects.  The property list of
    an object is kept in the order in which JavaScript enumerates it. *)

#[warnings="-register-all"]
Inductive JSValue :=
| JUndefined
| JNull
| JBool (b : bool)
| JNumber (x : JSNumber)
| JString (s : jsstring)
| JArray (elems : list JSValue)
| JObject (props : list (jsstring * JSValue)).

Abbreviation Props := (list (jsstring * JSValue)).

(** ToBoolean. *)
Definition truthy (v : JSValue) : bool :=
  match v with
  | JUndefined | JNull => false
  | JBool b => b
  | JNumber x => truthy_number x
  | JString s => truthy_string s
  | JArray _ | JObject _ => true
  end.

(** [a || b]. *)
Definition js_or (a b : JSValue) : JSValue := if truthy a then a else b.

(** An array index is the canonical decimal of an integer below [2^32 - 1];
    such keys are enumerated first, in ascending order, the other keys
    follow in the order of their creation. *)
Definition array_index (k : jsstring) : option N :=
  match take_digits k with
  | (ds, []) =>
      match ds with
      | [] => None
      | [_] => Some (N_of_digits ds)
      | d :: _ =>
          if is_zero_digit d then None
          else if (length ds <=? 10)%nat && (N_of_digits ds <? 4294967295)%N
               then Some (N_of_digits ds) else None
      end
  | _ => None
  end.

(** [key_before k' k]: a property named [k'] stays in front of a new
    property named [k]. *)
Definition key_before (k' k : jsstring) : bool :=
  match array_index k', array_index k with
  | Some i', Some i => (i' <? i)%N
  | Some _, None => true
  | None, Some _ => false
  | None, None => true
  end.

Definition same_key (a b : jsstring) : bool := bool_decide (a = b).

Section Properties.
Context {V : Type}.

Fixpoint obj_has (k : jsstring) (ps : list (jsstring * V)) : bool :=
  match ps with
  | [] => false
  | (k', _) :: r => same_key k' k || obj_has k r
  end.

Fixpoint obj_lookup (k : jsstring) (ps : list (jsstring * V)) : option V :=
  match ps with
  | [] => None
  | (k', v) :: r => if same_key k' k then Some v else obj_lookup k r
  end.

Fixpoint obj_replace (k : jsstring) (v : V) (ps : list (jsstring * V))
  : list (jsstring * V) :=
  match ps with
  | [] => []
  | (k', v') :: r =>
      if same_key k' k then (k', v) :: r else (k', v') :: obj_replace k v r
  end.

Fixpoint obj_insert (k : jsstring) (v : V) (ps : list (jsstring * V))
  : list (jsstring * V) :=
  match ps with
  | [] => [(k, v)]
  | (k', v') :: r =>
      if key_before k' k then (k', v') :: obj_insert k v r
      else (k, v) :: ps
  end.

(** CreateDataProperty: an existing property keeps its place and takes
    the new value, a new one is added. *)
Definition obj_set (k : jsstring) (v : V) (ps : list (jsstring * V))
  : list (jsstring * V) :=
  if obj_has k ps then obj_replace k v ps else obj_insert k v ps.

(** [{...target, ...source}] onto an object under construction. *)
Definition spread (target source : list (jsstring * V)) : list (jsstring * V) :=
  fold_left (λ acc kv, obj_set (fst kv) (snd kv) acc) source target.
End Properties.

(** The own enumerable properties that a spread copies out of a value:
    those of an object, the indexed elements of an array or a string,
    nothing for the other primitives. *)
Definition indexed {A} (f : A → JSValue) (l : list A) : Props :=
  imap (λ i x, (digits_string (N_digits (N.of_nat i)), f x)) l.

Definition own_props (v : JSValue) : Props :=
  match v with
  | JObject ps => ps
  | JArray vs => indexed id vs
  | JString s => indexed (λ c, JString [c]) s
  | _ => []
  end.

(** [o.k] for a property name that no built-in prototype defines: the own
    property of an object, [undefined] on any other non-nullish value.
    [None] stands for the TypeError of a read on [undefined] or [null]. *)
Definition get_prop (o : JSValue) (k : jsstring) : option JSValue :=
  match o with
  | JUndefined | JNull => None
  | JObject ps => Some (default JUndefined (obj_lookup k ps))
  | _ => Some JUndefined
  end.

(** [o?.k]. *)
Definition get_prop_opt (o : JSValue) (k : jsstring) : JSValue :=
  default JUndefined (get_prop o k).

(** The string that ToString gives for plain data when it gives one: a
    primitive value converts by its type, an array joins its elements, and
    an object answers through [Object.prototype.toString].  [ToString]
    below adds the case in which the conversion throws. *)
Fixpoint to_string (v : JSValue) : jsstring :=
  match v with
  | JUndefined => lit "undefined"
  | JNull => lit "null"
  | JBool b => if b then lit "true" else lit "false"
  | JNumber x => Number_toString x
  | JString s => s
  | JArray vs =>
      join (lit ",")
        (map (λ e, match e with
                   | JUndefined | JNull => []
                   | _ => to_string e
                   end) vs)
  | JObject _ => lit "[object Object]"
  end.

(** ToString as a template literal applies it to plain data, [None]
    standing for its TypeError.  An object is converted by the first of
    [toString] and [valueOf] that is a function and answers a primitive
    value: a property [toString] of the object's own is data, never a
    function, and hides [Object.prototype.toString]; [valueOf], its own or
    the inherited one, then gives no primitive value either, and the
    conversion throws.  An array converts through [Array.prototype.join],
    which converts every element but [undefined] and [null]. *)
Fixpoint ToString (v : JSValue) : option jsstring :=
  match v with
  | JArray vs =>
      join (lit ",") <$>
        (fix elements (l : list JSValue) : option (list jsstring) :=
           match l with
           | [] => Some []
           | e :: l' =>
               match match e with
                     | JUndefined | JNull => Some []
                     | _ => ToString e
                     end with
               | Some s => cons s <$> elements l'
               | None => None
               end
           end) vs
  | JObject ps =>
      if obj_has (lit "toString") ps then None else Some (lit "[object Object]")
  | _ => Some (to_string v)
  end.

(** ** JSON text *)

Definition is_json_ws (c : N) : bool :=
  ((c =? 9) || (c =? 10) || (c =? 13) || (c =? 32))%N.

Definition skip_ws (s : jsstring) : jsstring := drop_while is_json_ws s.

Definition hex_value (c : N) : option N :=
  if ((48 <=? c) && (c <=? 57))%N then Some (c - 48)%N
  else if ((65 <=? c) && (c <=? 70))%N then Some (c - 55)%N
  else if ((97 <=? c) && (c <=? 102))%N then Some (c - 87)%N
  else None.

Definition hex4 (h1 h2 h3 h4 : N) : option N :=
  a ← hex_value h1; b ← hex_value h2; c ← hex_value h3; d ← hex_value h4;
  Some (((a * 16 + b) * 16 + c) * 16 + d)%N.

(** The character an escape letter stands for (34 is the double quote, 92
    the backslash, 47 the solidus). *)
Definition unescape (e : N) : option N :=
  if (e =? 34)%N then Some 34%N
  else if (e =? 92)%N then Some 92%N
  else if (e =? 47)%N then Some 47%N
  else if (e =? 98)%N then Some 8%N
  else if (e =? 102)%N then Some 12%N
  else if (e =? 110)%N then Some 10%N
  else if (e =? 114)%N then Some 13%N
  else if (e =? 116)%N then Some 9%N
  else None.

(** The characters of a JSON string up to its closing quote. *)
Fixpoint parse_string_body (s : jsstring) : option (jsstring * jsstring) :=
  match s with
  | [] => None
  | c :: r =>
      if (c =? 34)%N then Some ([], r)
      else if (c =? 92)%N then
        match r with
        | [] => None
        | e :: r1 =>
            if (e =? 117)%N then
              match r1 with
              | h1 :: h2 :: h3 :: h4 :: r2 =>
                  match hex4 h1 h2 h3 h4, parse_string_body r2 with
                  | Some u, Some (str, rest) => Some (u :: str, rest)
                  | _, _ => None
                  end
              | _ => None
              end
            else
              match unescape e, parse_string_body r1 with
              | Some u, Some (str, rest) => Some (u :: str, rest)
              | _, _ => None
              end
        end
      else if (c <? 32)%N then None
      else
        match parse_string_body r with
        | Some (str, rest) => Some (c :: str, rest)
        | None => None
        end
  end.

(** Magnitude checks of a decimal [0.ds * 10^n] against the double range:
    at or above [2^1024 - 2^970] the value reads as [Infinity], at or below
    [2^-1075] as zero. *)
Definition decimal_overflows (ds : list digit) (n : Z) : bool :=
  let m := Z.of_N (N_of_digits ds) in
  let e := (n - Z.of_nat (length ds))%Z in
  let top := (2 ^ 1024 - 2 ^ 970)%Z in
  if (400 <? n)%Z then true
  else if (n <? 300)%Z then false
  else if (0 <=? e)%Z then (top <=? m * 10 ^ e)%Z
  else (top * 10 ^ (- e) <=? m)%Z.

Definition decimal_underflows (ds : list digit) (n : Z) : bool :=
  let m := Z.of_N (N_of_digits ds) in
  let e := (n - Z.of_nat (length ds))%Z in
  if (n <? -400)%Z then true
  else if (-300 <? n)%Z then false
  else (m * 2 ^ 1075 <=? 10 ^ (- e))%Z.

(** The Number a decimal literal denotes. *)
Definition read_decimal (neg : bool) (ds : list digit) (n : Z) : JSNumber :=
  match number_of_digits neg ds n with
  | Dec neg' ds' n' =>
      if decimal_overflows ds' n' then Infinity neg'
      else if decimal_underflows ds' n' then Zero neg'
      else Dec neg' ds' n'
  | x => x
  end.

(** The parts of a JSON number: [int], [frac] and [exp]. *)
Definition parse_int_part (s : jsstring) : option (list digit * jsstring) :=
  match take_digits s with
  | ([], _) => None
  | ([d], r) => Some ([d], r)
  | (d :: ds, r) => if is_zero_digit d then None else Some (d :: ds, r)
  end.

Definition parse_frac_part (s : jsstring) : option (list digit * jsstring) :=
  match s with
  | c :: r =>
      if (c =? 46)%N then
        match take_digits r with
        | ([], _) => None
        | (fs, r') => Some (fs, r')
        end
      else Some ([], s)
  | [] => Some ([], s)
  end.

Definition parse_exp_part (s : jsstring) : option (Z * jsstring) :=
  match s with
  | c :: r =>
      if ((c =? 101) || (c =? 69))%N then
        let '(eneg, r1) :=
          match r with
          | c' :: r' =>
              if (c' =? 45)%N then (true, r')
              else if (c' =? 43)%N then (false, r')
              else (false, r)
          | [] => (false, r)
          end in
        match take_digits r1 with
        | ([], _) => None
        | (es, r2) =>
            let e := Z.of_N (N_of_digits es) in
            Some ((if eneg then - e else e)%Z, r2)
        end
      else Some (0%Z, s)
  | [] => Some (0%Z, s)
  end.

(** [-? int frac? exp?] of the JSON grammar. *)
Definition parse_number (s : jsstring) : option (JSNumber * jsstring) :=
  let '(neg, s1) :=
    match s with
    | c :: r => if (c =? 45)%N then (true, r) else (false, s)
    | [] => (false, s)
    end in
  '(int, s2) ← parse_int_part s1;
  '(fs, s3) ← parse_frac_part s2;
  '(e, s4) ← parse_exp_part s3;
  Some (read_decimal neg (int ++ fs) (Z.of_nat (length int) + e), s4).

Inductive Parsed (A : Type) :=
| Ok (a : A) (rest : jsstring)
| Malformed
| Exhausted.
Arguments Ok {A} a rest.
Arguments Malformed {A}.
Arguments Exhausted {A}.

(** Recursive descent over the JSON grammar.  [fuel] bounds the nesting of
    calls; [JSON_parse] supplies enough of it for any text
    ([parse_value_fuel] in part II). *)
Fixpoint parse_value (fuel : nat) (s : jsstring) : Parsed JSValue :=
  match fuel with
  | O => Exhausted
  | S f =>
      match skip_ws s with
      | [] => Malformed
      | c :: r =>
          if (c =? 123)%N then
            match skip_ws r with
            | [] => Malformed
            | c' :: r' =>
                if (c' =? 125)%N then Ok (JObject []) r'
                else parse_members f (c' :: r') []
            end
          else if (c =? 91)%N then
            match skip_ws r with
            | [] => Malformed
            | c' :: r' =>
                if (c' =? 93)%N then Ok (JArray []) r'
                else parse_elements f (c' :: r') []
            end
          else if (c =? 34)%N then
            match parse_string_body r with
            | Some (str, rest) => Ok (JString str) rest
            | None => Malformed
            end
          else if is_prefix (lit "true") (c :: r) then
            Ok (JBool true) (drop 4 (c :: r))
          else if is_prefix (lit "false") (c :: r) then
            Ok (JBool false) (drop 5 (c :: r))
          else if is_prefix (lit "null") (c :: r) then
            Ok JNull (drop 4 (c :: r))
          else
            match parse_number (c :: r) with
            | Some (x, rest) => Ok (JNumber x) rest
            | None => Malformed
            end
      end
  end
with parse_elements (fuel : nat) (s : jsstring) (acc : list JSValue)
  : Parsed JSValue :=
  match fuel with
  | O => Exhausted
  | S f =>
      match parse_value f s with
      | Ok v r =>
          match skip_ws r with
          | [] => Malformed
          | c :: r' =>
              if (c =? 44)%N then parse_elements f r' (acc ++ [v])
              else if (c =? 93)%N then Ok (JArray (acc ++ [v])) r'
              else Malformed
          end
      | Malformed => Malformed
      | Exhausted => Exhausted
      end
  end
with parse_members (fuel : nat) (s : jsstring) (acc : Props)
  : Parsed JSValue :=
  match fuel with
  | O => Exhausted
  | S f =>
      match skip_ws s with
      | [] => Malformed
      | c :: r =>
          if (c =? 34)%N then
            match parse_string_body r with
            | None => Malformed
            | Some (k, r1) =>
                match skip_ws r1 with
                | [] => Malformed
                | c1 :: r2 =>
                    if (c1 =? 58)%N then
                      match parse_value f r2 with
                      | Ok v r3 =>
                          match skip_ws r3 with
                          | [] => Malformed
                          | c3 :: r4 =>
                              if (c3 =? 44)%N then
                                parse_members f r4 (obj_set k v acc)
                              else if (c3 =? 125)%N then
                                Ok (JObject (obj_set k v acc)) r4
                              else Malformed
                          end
                      | Malformed => Malformed
                      | Exhausted => Exhausted
                      end
                    else Malformed
                end
            end
          else Malformed
      end
  end.

(** [JSON.parse(text)]; [None] is the SyntaxError. *)
Definition JSON_parse (text : jsstring) : option JSValue :=
  match parse_value (2 * length text + 1) text with
  | Ok v rest =>
      match skip_ws rest with
      | [] => Some v
      | _ => None
      end
  | _ => None
  end.

Definition hex_digit_lower (n : N) : N :=
  if (n <? 10)%N then (48 + n)%N else (87 + n)%N.

(** [\uxxxx], lower-case hexadecimal. *)
Definition unicode_escape (c : N) : jsstring :=
  [92; 117; hex_digit_lower (c / 4096 mod 16); hex_digit_lower (c / 256 mod 16);
   hex_digit_lower (c / 16 mod 16); hex_digit_lower (c mod 16)]%N.

Definition is_high_surrogate (c : N) : bool := ((55296 <=? c) && (c <=? 56319))%N.
Definition is_low_surrogate (c : N) : bool := ((56320 <=? c) && (c <=? 57343))%N.

Definition quote_char (c : N) : jsstring :=
  if (c =? 8)%N then [92; 98]%N
  else if (c =? 9)%N then [92; 116]%N
  else if (c =? 10)%N then [92; 110]%N
  else if (c =? 12)%N then [92; 102]%N
  else if (c =? 13)%N then [92; 114]%N
  else if (c =? 34)%N then [92; 34]%N
  else if (c =? 92)%N then [92; 92]%N
  else if (c <? 32)%N then unicode_escape c
  else [c].

(** QuoteJSONString walks the string by code points: a surrogate pair is
    copied, a lone surrogate is escaped. *)
Fixpoint quote_chars (s : jsstring) : jsstring :=
  match s with
  | [] => []
  | c :: r =>
      if is_high_surrogate c then
        match r with
        | c2 :: r' =>
            if is_low_surrogate c2 then c :: c2 :: quote_chars r'
            else unicode_escape c ++ quote_chars r
        | [] => unicode_escape c
        end
      else if is_low_surrogate c then unicode_escape c ++ quote_chars r
      else quote_char c ++ quote_chars r
  end.

Definition quote (s : jsstring) : jsstring := [34%N] ++ quote_chars s ++ [34%N].

Definition is_finite (x : JSNumber) : bool :=
  match x with
  | NaN | Infinity _ => false
  | _ => true
  end.

(** [JSON.stringify(v)] with neither replacer nor indentation.  [None] is
    the [undefined] it answers for [undefined]; a property whose value
    serialises to [undefined] is left out, an array element of that kind is
    written [null]. *)
Fixpoint JSON_stringify (v : JSValue) : option jsstring :=
  match v with
  | JUndefined => None
  | JNull => Some (lit "null")
  | JBool b => Some (if b then lit "true" else lit "false")
  | JNumber x => Some (if is_finite x then Number_toString x else lit "null")
  | JString s => Some (quote s)
  | JArray vs =>
      Some (lit "[" ++
            join (lit ",") (map (λ e, default (lit "null") (JSON_stringify e)) vs)
            ++ lit "]")
  | JObject ps =>
      Some (lit "{" ++
            join (lit ",")
              (omap (λ kv, t ← JSON_stringify (snd kv);
                           Some (quote (fst kv) ++ lit ":" ++ t)) ps)
            ++ lit "}")
  end.

(** ** URI components

    [encodeURIComponent] (ECMA-262 19.2.6.5): a code unit of the unreserved
    set is copied, any other code point is written as the percent-escaped
    octets of its UTF-8 form; an unpaired surrogate is a URIError, here
    [None]. *)

Definition is_alnum (c : N) : bool :=
  ((48 <=? c) && (c <=? 57) || (65 <=? c) && (c <=? 90)
   || (97 <=? c) && (c <=? 122))%N.

(** Letters, digits and [- _ . ! ~ * ' ( )]. *)
Definition is_unreserved (c : N) : bool :=
  is_alnum c ||
  ((c =? 45) || (c =? 95) || (c =? 46) || (c =? 33) || (c =? 126)
   || (c =? 42) || (c =? 39) || (c =? 40) || (c =? 41))%N.

Definition utf8_octets (cp : N) : list N :=
  (if cp <? 128 then [cp]
   else if cp <? 2048 then [192 + cp / 64; 128 + cp mod 64]
   else if cp <? 65536 then
     [224 + cp / 4096; 128 + cp / 64 mod 64; 128 + cp mod 64]
   else
     [240 + cp / 262144; 128 + cp / 4096 mod 64; 128 + cp / 64 mod 64;
      128 + cp mod 64])%N.

Definition hex_digit_upper (n : N) : N :=
  if (n <? 10)%N then (48 + n)%N else (55 + n)%N.

Definition percent (b : N) : jsstring :=
  [37; hex_digit_upper (b / 16); hex_digit_upper (b mod 16)]%N.

Definition encode_point (cp : N) : jsstring :=
  if is_unreserved cp then [cp] else flat_map percent (utf8_octets cp).

Definition pair_point (hi lo : N) : N :=
  (65536 + (hi - 55296) * 1024 + (lo - 56320))%N.

Fixpoint encodeURIComponent (s : jsstring) : option jsstring :=
  match s with
  | [] => Some []
  | c :: r =>
      if is_high_surrogate c then
        match r with
        | c2 :: r' =>
            if is_low_surrogate c2 then
              t ← encodeURIComponent r'; Some (encode_point (pair_point c c2) ++ t)
            else None
        | [] => None
        end
      else if is_low_surrogate c then None
      else t ← encodeURIComponent r; Some (encode_point c ++ t)
  end.

(** [decodeURIComponent] (ECMA-262 19.2.6.3), in two passes: the text is
    first cut into literal code units and escaped octets, a [%] that is not
    followed by two hexadecimal digits being a URIError; the octets are then
    read as UTF-8, anything but a well-formed encoding of a code point
    being a URIError. *)

Inductive Item := Lit (c : N) | Esc (b : N).

Fixpoint uri_items (s : jsstring) : option (list Item) :=
  match s with
  | [] => Some []
  | c :: r =>
      if (c =? 37)%N then
        match r with
        | h1 :: h2 :: r' =>
            match hex_value h1, hex_value h2, uri_items r' with
            | Some a, Some b, Some t => Some (Esc (a * 16 + b)%N :: t)
            | _, _, _ => None
            end
        | _ => None
        end
      else
        match uri_items r with
        | Some t => Some (Lit c :: t)
        | None => None
        end
  end.

Definition is_continuation (b : N) : bool := ((128 <=? b) && (b <=? 191))%N.

(** UTF16EncodeCodePoint. *)
Definition utf16_units (cp : N) : jsstring :=
  (if cp <? 65536 then [cp]
   else [55296 + (cp - 65536) / 1024; 56320 + (cp - 65536) mod 1024])%N.

Fixpoint utf8_items (l : list Item) : option jsstring :=
  match l with
  | [] => Some []
  | Lit c :: r => t ← utf8_items r; Some (c :: t)
  | Esc b :: r =>
      if (b <? 128)%N then t ← utf8_items r; Some (b :: t)
      else if ((192 <=? b) && (b <=? 223))%N then
        match r with
        | Esc b2 :: r' =>
            let cp := ((b - 192) * 64 + (b2 - 128))%N in
            if is_continuation b2 && (128 <=? cp)%N then
              t ← utf8_items r'; Some (utf16_units cp ++ t)
            else None
        | _ => None
        end
      else if ((224 <=? b) && (b <=? 239))%N then
        match r with
        | Esc b2 :: Esc b3 :: r' =>
            let cp := (((b - 224) * 64 + (b2 - 128)) * 64 + (b3 - 128))%N in
            if is_continuation b2 && is_continuation b3 && (2048 <=? cp)%N
               && negb ((55296 <=? cp) && (cp <=? 57343))%N then
              t ← utf8_items r'; Some (utf16_units cp ++ t)
            else None
        | _ => None
        end
      else if ((240 <=? b) && (b <=? 247))%N then
        match r with
        | Esc b2 :: Esc b3 :: Esc b4 :: r' =>
            let cp := ((((b - 240) * 64 + (b2 - 128)) * 64 + (b3 - 128)) * 64
                       + (b4 - 128))%N in
            if is_continuation b2 && is_continuation b3 && is_continuation b4
               && (65536 <=? cp)%N && (cp <=? 1114111)%N then
              t ← utf8_items r'; Some (utf16_units cp ++ t)
            else None
        | _ => None
        end
      else None
  end.

Definition decodeURIComponent (s : jsstring) : option jsstring :=
  uri_items s ≫= utf8_items.

(** ** Thrown values *)

(** The errors that the engine raises by itself: a property read on
    [undefined] or [null] (TypeError), a text that is not JSON
    (SyntaxError), a string that cannot be percent-encoded (URIError), a
    value that has no string conversion (TypeError). *)
Inductive EngineFault :=
| ReadOfNullish (base : JSValue) (prop : jsstring)
| JsonSyntax (text : jsstring)
| UriMalformed (s : jsstring)
| NotPrimitive (v : JSValue).

(** Modelled from the spec: the error classes of [utils/errors.ts], which
    [client.ts] imports and constructs but which is not among the sources.
    Each carries the message it was constructed with, [RateLimitError] also
    the retry-after seconds and [QdrantApiError] the HTTP status code.  An
    error is represented by the constructor call that made it; [Error] is
    the built-in class, [HostError] stands for an Error that [fetch] or a
    body read rejects with, and [NonError] for a rejection with a value
    that is no Error. *)
Inductive Thrown :=
| AuthenticationError (message : jsstring)
| RateLimitError (message : jsstring) (retryAfter : JSNumber)
| QdrantApiError (message : JSValue) (statusCode : Z)
| Error (message : jsstring)
| EngineError (fault : EngineFault)
| HostError (message : jsstring)
| NonError (v : JSValue).

Inductive ErrorClass :=
| ClsAuthenticationError | ClsRateLimitError | ClsQdrantApiError | ClsError
| ClsTypeError | ClsSyntaxError | ClsURIError | ClsHostError | ClsNone.

(** The class whose constructor made the thrown value: [TypeError],
    [SyntaxError] and [URIError] are raised by the engine, [ClsHostError]
    stands for whatever Error [fetch] or a body read rejects with, and
    [ClsNone] for a thrown value that is no Error at all. *)
Definition error_class (e : Thrown) : ErrorClass :=
  match e with
  | AuthenticationError _ => ClsAuthenticationError
  | RateLimitError _ _ => ClsRateLimitError
  | QdrantApiError _ _ => ClsQdrantApiError
  | Error _ => ClsError
  | EngineError (ReadOfNullish _ _) => ClsTypeError
  | EngineError (JsonSyntax _) => ClsSyntaxError
  | EngineError (UriMalformed _) => ClsURIError
  | EngineError (NotPrimitive _) => ClsTypeError
  | HostError _ => ClsHostError
  | NonError _ => ClsNone
  end.

(** The name under which the source constructs each class. *)
Definition class_name (c : ErrorClass) : jsstring :=
  match c with
  | ClsAuthenticationError => lit "AuthenticationError"
  | ClsRateLimitError => lit "RateLimitError"
  | ClsQdrantApiError => lit "QdrantApiError"
  | ClsError => lit "Error"
  | ClsTypeError => lit "TypeError"
  | ClsSyntaxError => lit "SyntaxError"
  | ClsURIError => lit "URIError"
  | ClsHostError => lit "Error"
  | ClsNone => []
  end.

(** [e instanceof Error]. *)
Definition instanceof_Error (e : Thrown) : bool :=
  match e with
  | NonError _ => false
  | _ => true
  end.

(** ** The platform and its effects *)

Record FetchCall := {
  url : jsstring;
  method : option jsstring;
  headers : list (jsstring * jsstring);
  body : option jsstring
}.

(** The method [fetch] uses when [init.method] is absent. *)
Definition http_method (c : FetchCall) : jsstring := default (lit "GET") (method c).

Inductive BodyRead :=
| BodyText (text : jsstring)
| BodyFails (e : Thrown).

Record Response := {
  status : Z;
  response_headers : Headers;
  response_body : BodyRead
}.

(** [response.ok]. *)
Definition ok (r : Response) : bool := ((200 <=? status r) && (status r <=? 299))%Z.

Inductive FetchOutcome :=
| Responds (r : Response)
| Rejects (e : Thrown).

(** The world outside the client: the remote service behind [fetch], and
    the text of the messages that the engine puts on the errors it
    raises. *)
Record Platform := {
  remote : FetchCall → FetchOutcome;
  fault_message : EngineFault → jsstring
}.

(** What an execution has done so far: the requests handed to [fetch], in
    order, and the number of body reads ([text()] or [json()]). *)
Record Trace := {
  net_calls : list FetchCall;
  body_reads : nat
}.

Definition idle : Trace := {| net_calls := []; body_reads := 0 |}.

(** [answered P t t' r]: from [t] to [t'] one request went out, and the
    remote answered it with the response [r]. *)
Definition answered (P : Platform) (t t' : Trace) (r : Response) : Prop :=
  ∃ c, net_calls t' = net_calls t ++ [c] ∧ remote P c = Responds r.

Inductive Completion (A : Type) :=
| Returns (a : A)
| Throws (e : Thrown).
Arguments Returns {A} a.
Arguments Throws {A} e.

Definition Eff (A : Type) : Type := Trace → Completion A * Trace.

Definition ret {A} (a : A) : Eff A := λ t, (Returns a, t).
Definition throw {A} (e : Thrown) : Eff A := λ t, (Throws e, t).

Definition bind {A B} (m : Eff A) (k : A → Eff B) : Eff B :=
  λ t, match m t with
       | (Returns a, t') => k a t'
       | (Throws e, t') => (Throws e, t')
       end.

(** [try { m } catch (error) { h error }]. *)
Definition try_catch {A} (m : Eff A) (h : Thrown → Eff A) : Eff A :=
  λ t, match m t with
       | (Returns a, t') => (Returns a, t')
       | (Throws e, t') => h e t'
       end.

Notation "'let*' x ':=' m 'in' k" := (bind m (λ x, k))
  (at level 10, x name, m at level 100, k at level 200).

(** A step that fails with an engine error. *)
Definition or_fault {A} (o : option A) (f : EngineFault) : Eff A :=
  match o with
  | Some a => ret a
  | None => throw (EngineError f)
  end.

Definition fetch (P : Platform) (c : FetchCall) : Eff Response :=
  λ t, let t' := {| net_calls := net_calls t ++ [c]; body_reads := body_reads t |} in
       match remote P c with
       | Responds r => (Returns r, t')
       | Rejects e => (Throws e, t')
       end.

(** [response.text()]. *)
Definition text (r : Response) : Eff jsstring :=
  λ t, let t' := {| net_calls := net_calls t; body_reads := S (body_reads t) |} in
       match response_body r with
       | BodyText s => (Returns s, t')
       | BodyFails e => (Throws e, t')
       end.

(** [response.json()]. *)
Definition json (r : Response) : Eff JSValue :=
  let* s := text r in
  or_fault (JSON_parse s) (JsonSyntax s).

(** Modelled from the spec: [error.message], the message an error was
    constructed with, as a string. *)
Definition error_message (P : Platform) (e : Thrown) : jsstring :=
  match e with
  | AuthenticationError m => m
  | RateLimitError m _ => m
  | QdrantApiError m _ => to_string m
  | Error m => m
  | EngineError f => fault_message P f
  | HostError m => m
  | NonError _ => []
  end.

(** ** [types/env.ts] *)

Record TenantCredentials := {
  apiKey : option jsstring;
  baseUrl : option jsstring
}.

(** [x || ''] on [string | null | undefined]. *)
Definition or_empty (x : option jsstring) : jsstring :=
  if truthy_opt x then default [] x else [].

(** [x || undefined] on [string | null]. *)
Definition or_undefined (x : option jsstring) : option jsstring :=
  if truthy_opt x then x else None.

Definition parseTenantCredentials (request_headers : Headers) : TenantCredentials :=
  {| apiKey := or_undefined (headers_get request_headers (lit "X-Qdrant-API-Key"));
     baseUrl := or_undefined (headers_get request_headers (lit "X-Qdrant-Base-URL")) |}.

Definition validateCredentials (credentials : TenantCredentials) : Completion unit :=
  if negb (truthy_opt (apiKey credentials)) then
    Throws (Error (lit "Missing credentials. Provide X-Qdrant-API-Key header."))
  else if negb (truthy_opt (baseUrl credentials)) then
    Throws (Error (lit "Missing Qdrant URL. Provide X-Qdrant-Base-URL header (e.g., https://your-cluster.qdrant.io:6333)."))
  else Returns ().

(** ** [client.ts] *)

Record QdrantClientImpl := {
  this_credentials : TenantCredentials;
  this_baseUrl : jsstring
}.

(** The constructor: [this.baseUrl = credentials.baseUrl || '']. *)
Definition createQdrantClient (credentials : TenantCredentials) : QdrantClientImpl :=
  {| this_credentials := credentials;
     this_baseUrl := or_empty (baseUrl credentials) |}.

(** [RequestInit] as the endpoint methods fill it. *)
Record RequestInit := {
  init_method : option jsstring;
  init_body : option jsstring;
  init_headers : option (list (jsstring * jsstring))
}.

Definition no_options : RequestInit :=
  {| init_method := None; init_body := None; init_headers := None |}.

Definition with_method (m : string) : RequestInit :=
  {| init_method := Some (lit m); init_body := None; init_headers := None |}.

Definition with_body (m : string) (b : option jsstring) : RequestInit :=
  {| init_method := Some (lit m); init_body := b; init_headers := None |}.

Definition bool_string (b : bool) : jsstring := if b then lit "true" else lit "false".

Definition message_of_error_body (errorBody : jsstring) (st : Z) : JSValue :=
  let message := JString (lit "API error: " ++ Z_to_string st) in
  default message
    (errorJson ← JSON_parse errorBody;
     s ← get_prop errorJson (lit "status");
     m ← get_prop errorJson (lit "message");
     e ← get_prop errorJson (lit "error");
     Some (js_or (js_or (js_or (get_prop_opt s (lit "error")) m) e) message)).

Section Client.
Variable P : Platform.
Variable this : QdrantClientImpl.

Definition getAuthHeaders : list (jsstring * jsstring) :=
  let headers := [(lit "Content-Type", lit "application/json")] in
  if truthy_opt (apiKey (this_credentials this)) then
    obj_set (lit "api-key") (default [] (apiKey (this_credentials this))) headers
  else headers.

(** The arguments of [fetch(url, { ...options, headers })]. *)
Definition fetch_call (endpoint : jsstring) (options : RequestInit) : FetchCall :=
let url := this_baseUrl this ++ endpoint in
{| url := url;
   method := init_method options;
   headers := spread getAuthHeaders (default [] (init_headers options));
   body := init_body options |}.

Definition request (endpoint : jsstring) (options : RequestInit) : Eff JSValue :=
  if negb (truthy_string (this_baseUrl this)) then
    throw (AuthenticationError (lit "No Qdrant URL provided. Set X-Qdrant-Base-URL header."))
  else
    let* response := fetch P (fetch_call endpoint options) in
    if (status response =? 429)%Z then
      let retryAfter := headers_get (response_headers response) (lit "Retry-After") in
      throw (RateLimitError (lit "Rate limit exceeded")
               (if truthy_opt retryAfter then parseInt (default [] retryAfter)
                else number_of_Z 60))
    else if ((status response =? 401) || (status response =? 403))%Z then
      throw (AuthenticationError (lit "Authentication failed. Check your API key."))
    else if negb (ok response) then
      let* errorBody := text response in
      throw (QdrantApiError (message_of_error_body errorBody (status response))
               (status response))
    else if (status response =? 204)%Z then
      ret JUndefined
    else
      let contentType :=
        or_empty (headers_get (response_headers response) (lit "Content-Type")) in
      if includes contentType (lit "text/plain") then
        let* t := text response in ret (JString t)
      else
        let* json := json response in
        or_fault (get_prop json (lit "result")) (ReadOfNullish json (lit "result")).

(** [encodeURIComponent] inside a template literal. *)
Definition encoded (s : jsstring) : Eff jsstring :=
  or_fault (encodeURIComponent s) (UriMalformed s).

(** [?wait=${wait}] with the parameter default [wait = true]. *)
Definition wait_query (wait : option bool) : jsstring :=
  lit "?wait=" ++ bool_string (default true wait).

(** [{ method, body: JSON.stringify(v) }]. *)
Definition json_body (m : string) (v : JSValue) : RequestInit :=
  with_body m (JSON_stringify v).

(** *** Service *)

Definition getVersion : Eff JSValue := request (lit "/") no_options.

Definition getTelemetry (anonymize : option bool) : Eff JSValue :=
  request (lit "/telemetry" ++
           (if default true anonymize then lit "?anonymize=true" else []))
    no_options.

Definition getMetrics : Eff JSValue := request (lit "/metrics") no_options.

Definition getLocks : Eff JSValue := request (lit "/locks") no_options.

Definition setLocks (locks : JSValue) : Eff JSValue :=
  request (lit "/locks") (json_body "POST" locks).

(** *** Connection *)

Record ConnectionStatus := {
  connected : bool;
  message : jsstring
}.

Definition testConnection : Eff ConnectionStatus :=
  try_catch
    (let* version := getVersion in
     let* v := or_fault (get_prop version (lit "version"))
                 (ReadOfNullish version (lit "version")) in
     let* s := or_fault (ToString v) (NotPrimitive v) in
     ret {| connected := true; message := lit "Connected to Qdrant " ++ s |})
    (λ error,
     ret {| connected := false;
            message := if instanceof_Error error then error_message P error
                       else lit "Connection failed" |}).

(** *** Collections *)

Definition listCollections : Eff JSValue := request (lit "/collections") no_options.

Definition getCollection (collectionName : jsstring) : Eff JSValue :=
  let* c := encoded collectionName in
  request (lit "/collections/" ++ c) no_options.

Definition collectionExists (collectionName : jsstring) : Eff JSValue :=
  let* c := encoded collectionName in
  let* result := request (lit "/collections/" ++ c ++ lit "/exists") no_options in
  or_fault (get_prop result (lit "exists")) (ReadOfNullish result (lit "exists")).

Definition createCollection (collectionName : jsstring) (config : JSValue)
  : Eff JSValue :=
  let* c := encoded collectionName in
  let* _ := request (lit "/collections/" ++ c) (json_body "PUT" config) in
  ret (JBool true).

Definition updateCollection (collectionName : jsstring) (config : JSValue)
  : Eff JSValue :=
  let* c := encoded collectionName in
  let* _ := request (lit "/collections/" ++ c) (json_body "PATCH" config) in
  ret (JBool true).

Definition deleteCollection (collectionName : jsstring) : Eff JSValue :=
  let* c := encoded collectionName in
  let* _ := request (lit "/collections/" ++ c) (with_method "DELETE") in
  ret (JBool true).

(** *** Aliases *)

Definition listAliases : Eff JSValue := request (lit "/aliases") no_options.

Definition getCollectionAliases (collectionName : jsstring) : Eff JSValue :=
  let* c := encoded collectionName in
  request (lit "/collections/" ++ c ++ lit "/aliases") no_options.

Definition updateAliases (operations : JSValue) : Eff JSValue :=
  let* _ := request (lit "/collections/aliases") (json_body "POST" operations) in
  ret (JBool true).

(** *** Points *)

Definition upsertPoints (collectionName : jsstring) (points : list JSValue)
    (wait : option bool) : Eff JSValue :=
  let* c := encoded collectionName in
  request (lit "/collections/" ++ c ++ lit "/points" ++ wait_query wait)
    (json_body "PUT" (JObject [(lit "points", JArray points)])).

Inductive PointId :=
| IdString (s : jsstring)
| IdNumber (x : JSNumber).

Definition point_id_value (id : PointId) : JSValue :=
  match id with
  | IdString s => JString s
  | IdNumber x => JNumber x
  end.

Definition getPoints (collectionName : jsstring) (ids : list PointId)
    (withPayload withVector : option bool) : Eff JSValue :=
  let* c := encoded collectionName in
  request (lit "/collections/" ++ c ++ lit "/points")
    (json_body "POST"
       (JObject [(lit "ids", JArray (map point_id_value ids));
                 (lit "with_payload", JBool (default true withPayload));
                 (lit "with_vector", JBool (default false withVector))])).

Definition getPoint (collectionName : jsstring) (id : PointId) : Eff JSValue :=
  let* c := encoded collectionName in
  let* i := encoded (to_string (point_id_value id)) in
  request (lit "/collections/" ++ c ++ lit "/points/" ++ i) no_options.

Definition deletePoints (collectionName : jsstring) (req : JSValue)
    (wait : option bool) : Eff JSValue :=
  let* c := encoded collectionName in
  request (lit "/collections/" ++ c ++ lit "/points/delete" ++ wait_query wait)
    (json_body "POST" req).

Definition scrollPoints (collectionName : jsstring) (req : JSValue) : Eff JSValue :=
  let* c := encoded collectionName in
  request (lit "/collections/" ++ c ++ lit "/points/scroll") (json_body "POST" req).

Definition countPoints (collectionName : jsstring) (req : option JSValue)
  : Eff JSValue :=
  let* c := encoded collectionName in
  request (lit "/collections/" ++ c ++ lit "/points/count")
    (json_body "POST" (default (JObject []) req)).

(** *** Vectors *)

Definition updateVectors (collectionName : jsstring) (req : JSValue)
    (wait : option bool) : Eff JSValue :=
  let* c := encoded collectionName in
  request (lit "/collections/" ++ c ++ lit "/points/vectors" ++ wait_query wait)
    (json_body "PUT" req).

Definition deleteVectors (collectionName : jsstring) (req : JSValue)
    (wait : option bool) : Eff JSValue :=
  let* c := encoded collectionName in
  request (lit "/collections/" ++ c ++ lit "/points/vectors/delete" ++ wait_query wait)
    (json_body "POST" req).

(** *** Payload *)

Definition setPayload (collectionName : jsstring) (req : JSValue)
    (wait : option bool) : Eff JSValue :=
  let* c := encoded collectionName in
  request (lit "/collections/" ++ c ++ lit "/points/payload" ++ wait_query wait)
    (json_body "POST" req).

Definition overwritePayload (collectionName : jsstring) (req : JSValue)
    (wait : option bool) : Eff JSValue :=
  let* c := encoded collectionName in
  request (lit "/collections/" ++ c ++ lit "/points/payload" ++ wait_query wait)
    (json_body "PUT" req).

Definition deletePayload (collectionName : jsstring) (req : JSValue)
    (wait : option bool) : Eff JSValue :=
  let* c := encoded collectionName in
  request (lit "/collections/" ++ c ++ lit "/points/payload/delete" ++ wait_query wait)
    (json_body "POST" req).

Definition clearPayload (collectionName : jsstring) (req : JSValue)
    (wait : option bool) : Eff JSValue :=
  let* c := encoded collectionName in
  request (lit "/collections/" ++ c ++ lit "/points/payload/clear" ++ wait_query wait)
    (json_body "POST" req).

(** *** Batch *)

Definition batchUpdate (collectionName : jsstring) (req : JSValue)
    (wait : option bool) : Eff JSValue :=
  let* c := encoded collectionName in
  request (lit "/collections/" ++ c ++ lit "/points/batch" ++ wait_query wait)
    (json_body "POST" req).

(** *** Search, query, recommend, discover, distance matrix *)

Definition search (collectionName : jsstring) (req : JSValue) : Eff JSValue :=
  let* c := encoded collectionName in
  request (lit "/collections/" ++ c ++ lit "/points/search") (json_body "POST" req).

Definition searchBatch (collectionName : jsstring) (req : JSValue) : Eff JSValue :=
  let* c := encoded collectionName in
  request (lit "/collections/" ++ c ++ lit "/points/search/batch") (json_body "POST" req).

Definition query (collectionName : jsstring) (req : JSValue) : Eff JSValue :=
  let* c := encoded collectionName in
  request (lit "/collections/" ++ c ++ lit "/points/query") (json_body "POST" req).

Definition queryBatch (collectionName : jsstring) (req : JSValue) : Eff JSValue :=
  let* c := encoded collectionName in
  request (lit "/collections/" ++ c ++ lit "/points/query/batch") (json_body "POST" req).

Definition queryGroups (collectionName : jsstring) (req : JSValue) : Eff JSValue :=
  let* c := encoded collectionName in
  request (lit "/collections/" ++ c ++ lit "/points/query/groups") (json_body "POST" req).

Definition recommend (collectionName : jsstring) (req : JSValue) : Eff JSValue :=
  let* c := encoded collectionName in
  request (lit "/collections/" ++ c ++ lit "/points/recommend") (json_body "POST" req).

Definition recommendBatch (collectionName : jsstring) (req : JSValue) : Eff JSValue :=
  let* c := encoded collectionName in
  request (lit "/collections/" ++ c ++ lit "/points/recommend/batch") (json_body "POST" req).

Definition recommendGroups (collectionName : jsstring) (req : JSValue) : Eff JSValue :=
  let* c := encoded collectionName in
  request (lit "/collections/" ++ c ++ lit "/points/recommend/groups") (json_body "POST" req).

Definition discover (collectionName : jsstring) (req : JSValue) : Eff JSValue :=
  let* c := encoded collectionName in
  request (lit "/collections/" ++ c ++ lit "/points/discover") (json_body "POST" req).

Definition discoverBatch (collectionName : jsstring) (req : JSValue) : Eff JSValue :=
  let* c := encoded collectionName in
  request (lit "/collections/" ++ c ++ lit "/points/discover/batch") (json_body "POST" req).

Definition searchMatrixPairs (collectionName : jsstring) (req : JSValue) : Eff JSValue :=
  let* c := encoded collectionName in
  request (lit "/collections/" ++ c ++ lit "/points/search/matrix/pairs")
    (json_body "POST" req).

Definition searchMatrixOffsets (collectionName : jsstring) (req : JSValue) : Eff JSValue :=
  let* c := encoded collectionName in
  request (lit "/collections/" ++ c ++ lit "/points/search/matrix/offsets")
    (json_body "POST" req).

(** *** Snapshots *)

Definition listSnapshots (collectionName : jsstring) : Eff JSValue :=
  let* c := encoded collectionName in
  request (lit "/collections/" ++ c ++ lit "/snapshots") no_options.

Definition createSnapshot (collectionName : jsstring) (wait : option bool)
  : Eff JSValue :=
  let* c := encoded collectionName in
  request (lit "/collections/" ++ c ++ lit "/snapshots" ++ wait_query wait)
    (with_method "POST").

Definition deleteSnapshot (collectionName snapshotName : jsstring)
    (wait : option bool) : Eff JSValue :=
  let* c := encoded collectionName in
  let* n := encoded snapshotName in
  let* _ := request (lit "/collections/" ++ c ++ lit "/snapshots/" ++ n ++ wait_query wait)
              (with_method "DELETE") in
  ret (JBool true).

Definition recoverSnapshot (collectionName : jsstring) (req : JSValue)
    (wait : option bool) : Eff JSValue :=
  let* c := encoded collectionName in
  let* _ := request (lit "/collections/" ++ c ++ lit "/snapshots/recover" ++ wait_query wait)
              (json_body "PUT" req) in
  ret (JBool true).

Definition listFullSnapshots : Eff JSValue := request (lit "/snapshots") no_options.

Definition createFullSnapshot (wait : option bool) : Eff JSValue :=
  request (lit "/snapshots" ++ wait_query wait) (with_method "POST").

Definition deleteFullSnapshot (snapshotName : jsstring) (wait : option bool)
  : Eff JSValue :=
  let* n := encoded snapshotName in
  let* _ := request (lit "/snapshots/" ++ n ++ wait_query wait) (with_method "DELETE") in
  ret (JBool true).

(** *** Cluster and shards *)

Definition getClusterStatus : Eff JSValue := request (lit "/cluster") no_options.

Definition recoverCluster : Eff JSValue :=
  let* _ := request (lit "/cluster/recover") (with_method "POST") in
  ret (JBool true).

Definition removePeer (peerId : JSNumber) (force : option bool) : Eff JSValue :=
  let* _ := request (lit "/cluster/peer/" ++ Number_toString peerId ++ lit "?force=" ++
                     bool_string (default false force))
              (with_method "DELETE") in
  ret (JBool true).

Definition getCollectionClusterInfo (collectionName : jsstring) : Eff JSValue :=
  let* c := encoded collectionName in
  request (lit "/collections/" ++ c ++ lit "/cluster") no_options.

Definition updateCollectionCluster (collectionName : jsstring) (req : JSValue)
  : Eff JSValue :=
  let* c := encoded collectionName in
  let* _ := request (lit "/collections/" ++ c ++ lit "/cluster") (json_body "POST" req) in
  ret (JBool true).

Definition createShardKey (collectionName : jsstring) (req : JSValue) : Eff JSValue :=
  let* c := encoded collectionName in
  let* _ := request (lit "/collections/" ++ c ++ lit "/shards") (json_body "PUT" req) in
  ret (JBool true).

Definition deleteShardKey (collectionName : jsstring) (req : JSValue) : Eff JSValue :=
  let* c := encoded collectionName in
  let* _ := request (lit "/collections/" ++ c ++ lit "/shards/delete")
              (json_body "POST" req) in
  ret (JBool true).

(** *** Indexes *)

(** [{ field_name: fieldName, ...request }]. *)
Definition field_index_body (fieldName : jsstring) (req : JSValue) : JSValue :=
  JObject (spread [(lit "field_name", JString fieldName)] (own_props req)).

Definition createFieldIndex (collectionName fieldName : jsstring) (req : JSValue)
    (wait : option bool) : Eff JSValue :=
  let* c := encoded collectionName in
  request (lit "/collections/" ++ c ++ lit "/index" ++ wait_query wait)
    (json_body "PUT" (field_index_body fieldName req)).

Definition deleteFieldIndex (collectionName fieldName : jsstring)
    (wait : option bool) : Eff JSValue :=
  let* c := encoded collectionName in
  let* f := encoded fieldName in
  request (lit "/collections/" ++ c ++ lit "/index/" ++ f ++ wait_query wait)
    (with_method "DELETE").

(** *** The endpoint methods as one family

    Every method of the [QdrantClient] interface but the connectivity
    test, with its arguments. *)

Inductive EndpointCall :=
| GetVersion
| GetTelemetry (anonymize : option bool)
| GetMetrics
| GetLocks
| SetLocks (locks : JSValue)
| ListCollections
| GetCollection (collectionName : jsstring)
| CollectionExists (collectionName : jsstring)
| CreateCollection (collectionName : jsstring) (config : JSValue)
| UpdateCollection (collectionName : jsstring) (config : JSValue)
| DeleteCollection (collectionName : jsstring)
| ListAliases
| GetCollectionAliases (collectionName : jsstring)
| UpdateAliases (operations : JSValue)
| UpsertPoints (collectionName : jsstring) (points : list JSValue) (wait : option bool)
| GetPoints (collectionName : jsstring) (ids : list PointId)
    (withPayload withVector : option bool)
| GetPoint (collectionName : jsstring) (id : PointId)
| DeletePoints (collectionName : jsstring) (req : JSValue) (wait : option bool)
| ScrollPoints (collectionName : jsstring) (req : JSValue)
| CountPoints (collectionName : jsstring) (req : option JSValue)
| UpdateVectors (collectionName : jsstring) (req : JSValue) (wait : option bool)
| DeleteVectors (collectionName : jsstring) (req : JSValue) (wait : option bool)
| SetPayload (collectionName : jsstring) (req : JSValue) (wait : option bool)
| OverwritePayload (collectionName : jsstring) (req : JSValue) (wait : option bool)
| DeletePayload (collectionName : jsstring) (req : JSValue) (wait : option bool)
| ClearPayload (collectionName : jsstring) (req : JSValue) (wait : option bool)
| BatchUpdate (collectionName : jsstring) (req : JSValue) (wait : option bool)
| Search (collectionName : jsstring) (req : JSValue)
| SearchBatch (collectionName : jsstring) (req : JSValue)
| Query (collectionName : jsstring) (req : JSValue)
| QueryBatch (collectionName : jsstring) (req : JSValue)
| QueryGroups (collectionName : jsstring) (req : JSValue)
| Recommend (collectionName : jsstring) (req : JSValue)
| RecommendBatch (collectionName : jsstring) (req : JSValue)
| RecommendGroups (collectionName : jsstring) (req : JSValue)
| Discover (collectionName : jsstring) (req : JSValue)
| DiscoverBatch (collectionName : jsstring) (req : JSValue)
| SearchMatrixPairs (collectionName : jsstring) (req : JSValue)
| SearchMatrixOffsets (collectionName : jsstring) (req : JSValue)
| ListSnapshots (collectionName : jsstring)
| CreateSnapshot (collectionName : jsstring) (wait : option bool)
| DeleteSnapshot (collectionName snapshotName : jsstring) (wait : option bool)
| RecoverSnapshot (collectionName : jsstring) (req : JSValue) (wait : option bool)
| ListFullSnapshots
| CreateFullSnapshot (wait : option bool)
| DeleteFullSnapshot (snapshotName : jsstring) (wait : option bool)
| GetClusterStatus
| RecoverCluster
| RemovePeer (peerId : JSNumber) (force : option bool)
| GetCollectionClusterInfo (collectionName : jsstring)
| UpdateCollectionCluster (collectionName : jsstring) (req : JSValue)
| CreateShardKey (collectionName : jsstring) (req : JSValue)
| DeleteShardKey (collectionName : jsstring) (req : JSValue)
| CreateFieldIndex (collectionName fieldName : jsstring) (req : JSValue)
    (wait : option bool)
| DeleteFieldIndex (collectionName fieldName : jsstring) (wait : option bool).

Definition invoke (call : EndpointCall) : Eff JSValue :=
  match call with
  | GetVersion => getVersion
  | GetTelemetry a => getTelemetry a
  | GetMetrics => getMetrics
  | GetLocks => getLocks
  | SetLocks l => setLocks l
  | ListCollections => listCollections
  | GetCollection c => getCollection c
  | CollectionExists c => collectionExists c
  | CreateCollection c cfg => createCollection c cfg
  | UpdateCollection c cfg => updateCollection c cfg
  | DeleteCollection c => deleteCollection c
  | ListAliases => listAliases
  | GetCollectionAliases c => getCollectionAliases c
  | UpdateAliases o => updateAliases o
  | UpsertPoints c ps w => upsertPoints c ps w
  | GetPoints c ids wp wv => getPoints c ids wp wv
  | GetPoint c id => getPoint c id
  | DeletePoints c r w => deletePoints c r w
  | ScrollPoints c r => scrollPoints c r
  | CountPoints c r => countPoints c r
  | UpdateVectors c r w => updateVectors c r w
  | DeleteVectors c r w => deleteVectors c r w
  | SetPayload c r w => setPayload c r w
  | OverwritePayload c r w => overwritePayload c r w
  | DeletePayload c r w => deletePayload c r w
  | ClearPayload c r w => clearPayload c r w
  | BatchUpdate c r w => batchUpdate c r w
  | Search c r => search c r
  | SearchBatch c r => searchBatch c r
  | Query c r => query c r
  | QueryBatch c r => queryBatch c r
  | QueryGroups c r => queryGroups c r
  | Recommend c r => recommend c r
  | RecommendBatch c r => recommendBatch c r
  | RecommendGroups c r => recommendGroups c r
  | Discover c r => discover c r
  | DiscoverBatch c r => discoverBatch c r
  | SearchMatrixPairs c r => searchMatrixPairs c r
  | SearchMatrixOffsets c r => searchMatrixOffsets c r
  | ListSnapshots c => listSnapshots c
  | CreateSnapshot c w => createSnapshot c w
  | DeleteSnapshot c n w => deleteSnapshot c n w
  | RecoverSnapshot c r w => recoverSnapshot c r w
  | ListFullSnapshots => listFullSnapshots
  | CreateFullSnapshot w => createFullSnapshot w
  | DeleteFullSnapshot n w => deleteFullSnapshot n w
  | GetClusterStatus => getClusterStatus
  | RecoverCluster => recoverCluster
  | RemovePeer p f => removePeer p f
  | GetCollectionClusterInfo c => getCollectionClusterInfo c
  | UpdateCollectionCluster c r => updateCollectionCluster c r
  | CreateShardKey c r => createShardKey c r
  | DeleteShardKey c r => deleteShardKey c r
  | CreateFieldIndex c f r w => createFieldIndex c f r w
  | DeleteFieldIndex c f w => deleteFieldIndex c f w
  end.
End Client.

(** *** What a method does with the value of [request]

    [return this.request(...)] hands it on, [await this.request(...);
    return true] discards it, [collectionExists] answers its [exists]
    field. *)

Inductive Post := Unwrapped | Discarded | ExistsField.

Definition post_of (call : EndpointCall) : Post :=
  match call with
  | CollectionExists _ => ExistsField
  | CreateCollection _ _ | UpdateCollection _ _ | DeleteCollection _
  | UpdateAliases _ | DeleteSnapshot _ _ _ | RecoverSnapshot _ _ _
  | DeleteFullSnapshot _ _ | RecoverCluster | RemovePeer _ _
  | UpdateCollectionCluster _ _ | CreateShardKey _ _ | DeleteShardKey _ _ =>
      Discarded
  | _ => Unwrapped
  end.

(** *** What a method encodes

    The strings a method passes to [encodeURIComponent] while its endpoint
    is put together, in the order of the template literal; this happens
    before [request] is entered. *)

Definition path_arguments (call : EndpointCall) : list jsstring :=
  match call with
  | GetVersion | GetTelemetry _ | GetMetrics | GetLocks | SetLocks _
  | ListCollections | ListAliases | UpdateAliases _ | ListFullSnapshots
  | CreateFullSnapshot _ | GetClusterStatus | RecoverCluster
  | RemovePeer _ _ => []
  | GetPoint c id => [c; to_string (point_id_value id)]
  | DeleteSnapshot c n _ => [c; n]
  | DeleteFullSnapshot n _ => [n]
  | DeleteFieldIndex c f _ => [c; f]
  | GetCollection c | CollectionExists c | DeleteCollection c
  | GetCollectionAliases c | ListSnapshots c | GetCollectionClusterInfo c
  | CreateCollection c _ | UpdateCollection c _ | ScrollPoints c _
  | CountPoints c _ | Search c _ | SearchBatch c _ | Query c _
  | QueryBatch c _ | QueryGroups c _ | Recommend c _ | RecommendBatch c _
  | RecommendGroups c _ | Discover c _ | DiscoverBatch c _
  | SearchMatrixPairs c _ | SearchMatrixOffsets c _ | CreateSnapshot c _
  | UpdateCollectionCluster c _ | CreateShardKey c _ | DeleteShardKey c _
  | UpsertPoints c _ _ | DeletePoints c _ _ | UpdateVectors c _ _
  | DeleteVectors c _ _ | SetPayload c _ _ | OverwritePayload c _ _
  | DeletePayload c _ _ | ClearPayload c _ _ | BatchUpdate c _ _
  | RecoverSnapshot c _ _ | GetPoints c _ _ _ | CreateFieldIndex c _ _ _ =>
      [c]
  end.

(** The first string of a list that [encodeURIComponent] throws on. *)
Fixpoint refused (l : list jsstring) : option jsstring :=
  match l with
  | [] => None
  | s :: r =>
      match encodeURIComponent s with
      | None => Some s
      | Some _ => refused r
      end
  end.

Definition apply_post (p : Post) (c : Completion JSValue) : Completion JSValue :=
  match c with
  | Throws e => Throws e
  | Returns v =>
      match p with
      | Unwrapped => Returns v
      | Discarded => Returns (JBool true)
      | ExistsField =>
          match get_prop v (lit "exists") with
          | Some x => Returns x
          | None => Throws (EngineError (ReadOfNullish v (lit "exists")))
          end
      end
  end.

(** ** The error message as two readings describe it

    [message_by_presence] takes, of [status.error], [message] and [error],
    the first field that the parsed body has; [message_first_truthy] takes
    the first of them whose value is truthy.  Either falls back on
    ["API error: <status>"], also when the body is not JSON. *)

Definition field (v : JSValue) (k : jsstring) : option JSValue :=
  match v with
  | JObject ps => obj_lookup k ps
  | _ => None
  end.

Definition read (v : JSValue) (k : jsstring) : JSValue :=
  default JUndefined (field v k).

Definition fallback_message (st : Z) : JSValue :=
  JString (lit "API error: " ++ Z_to_string st).

Definition message_by_presence (errorBody : jsstring) (st : Z) : JSValue :=
  match JSON_parse errorBody with
  | None => fallback_message st
  | Some v =>
      match field v (lit "status") ≫= (λ s, field s (lit "error")),
            field v (lit "message"), field v (lit "error") with
      | Some x, _, _ => x
      | None, Some x, _ => x
      | None, None, Some x => x
      | None, None, None => fallback_message st
      end
  end.

Definition first_truthy (candidates : list JSValue) (fallback : JSValue) : JSValue :=
  match List.find truthy candidates with
  | Some x => x
  | None => fallback
  end.

Definition message_first_truthy (errorBody : jsstring) (st : Z) : JSValue :=
  match JSON_parse errorBody with
  | None => fallback_message st
  | Some v =>
      first_truthy
        [read (read v (lit "status")) (lit "error"); read v (lit "message");
         read v (lit "error")]
        (fallback_message st)
  end.

(** ** Sample inputs *)

Definition sample_messages (f : EngineFault) : jsstring :=
  match f with
  | ReadOfNullish base prop =>
      lit "Cannot read properties of " ++ to_string base ++ lit " (reading '" ++
      prop ++ lit "')"
  | JsonSyntax _ => lit "Unexpected token in JSON"
  | UriMalformed _ => lit "URI malformed"
  | NotPrimitive _ => lit "Cannot convert object to primitive value"
  end.

(** A remote that answers every request with [r]. *)
Definition answering (r : Response) : Platform :=
  {| remote := λ _, Responds r; fault_message := sample_messages |}.

Definition sample_client : QdrantClientImpl :=
  createQdrantClient {| apiKey := Some (lit "secret");
                        baseUrl := Some (lit "https://qdrant.example:6333") |}.

Definition unbound_client : QdrantClientImpl :=
  createQdrantClient {| apiKey := Some (lit "secret"); baseUrl := None |}.

(** The double quote. *)
Definition dq : jsstring := [34%N].

Definition not_found : Response :=
  {| status := 404;
     response_headers := [(lit "content-type", lit "application/json")];
     response_body :=
       BodyText (lit "{" ++ dq ++ lit "status" ++ dq ++ lit ":{" ++ dq ++ lit "error" ++
                 dq ++ lit ":" ++ dq ++ lit "Not found" ++ dq ++ lit "}}") |}.

(** [{"status":{"error":""},"message":"boom"}] under status 500. *)
Definition empty_status_error : Response :=
  {| status := 500;
     response_headers := [(lit "content-type", lit "application/json")];
     response_body :=
       BodyText (lit "{" ++ dq ++ lit "status" ++ dq ++ lit ":{" ++ dq ++ lit "error" ++
                 dq ++ lit ":" ++ dq ++ dq ++ lit "}," ++ dq ++ lit "message" ++ dq ++
                 lit ":" ++ dq ++ lit "boom" ++ dq ++ lit "}") |}.

Definition throttled (retry_after : jsstring) : Response :=
  {| status := 429;
     response_headers := [(lit "retry-after", retry_after)];
     response_body := BodyText [] |}.

(** A 204 whose body cannot be read. *)
Definition no_content : Response :=
  {| status := 204;
     response_headers := [];
     response_body := BodyFails (HostError (lit "body stream already read")) |}.

Definition plain_text (t : jsstring) : Response :=
  {| status := 200;
     response_headers := [(lit "content-type", lit "text/plain; version=0.0.4")];
     response_body := BodyText t |}.

Definition json_reply (t : jsstring) : Response :=
  {| status := 200;
     response_headers := [(lit "content-type", lit "application/json")];
     response_body := BodyText t |}.

(** ** Well-formed inputs *)

(** A string whose code units are 16-bit and whose surrogates come in
    pairs. *)
Fixpoint well_formed_utf16 (s : jsstring) : bool :=
  match s with
  | [] => true
  | c :: r =>
      if is_high_surrogate c then
        match r with
        | c2 :: r' => is_low_surrogate c2 && well_formed_utf16 r'
        | [] => false
        end
      else negb (is_low_surrogate c) && (c <? 65536)%N && well_formed_utf16 r
  end.

(** The digit strings [Number::toString] works from. *)
Definition canonical_digits (ds : list digit) : bool :=
  match ds, rev ds with
  | d :: _, e :: _ => negb (is_zero_digit d) && negb (is_zero_digit e)
  | _, _ => false
  end.

(** A Number that JSON text can carry: finite, not the negative zero, and
    inside the double range. *)
Definition json_number (x : JSNumber) : bool :=
  match x with
  | Zero neg => negb neg
  | Dec _ ds n =>
      canonical_digits ds && negb (decimal_overflows ds n)
      && negb (decimal_underflows ds n)
  | _ => false
  end.

(** Property names as JavaScript keeps them: no name twice, array indices
    first and ascending. *)
Fixpoint ordered_keys (ks : list jsstring) : bool :=
  match ks with
  | [] => true
  | k :: r =>
      forallb (λ k', key_before k k' && negb (same_key k k')) r && ordered_keys r
  end.

(** Plain data that [JSON.stringify] writes without loss: no [undefined]
    anywhere, every Number a [json_number]. *)
Fixpoint json_value (v : JSValue) : bool :=
  match v with
  | JUndefined => false
  | JNull | JBool _ | JString _ => true
  | JNumber x => json_number x
  | JArray vs => forallb json_value vs
  | JObject ps =>
      ordered_keys (map fst ps) && forallb (λ kv, json_value (snd kv)) ps
  end.

(** No digit at the head of [rest]. *)
Definition digit_free (rest : jsstring) : Prop :=
  match rest with
  | [] => True
  | c :: _ => char_digit c = None
  end.

(** What may follow a number in a text: anything but a digit, a point or
    an exponent mark. *)
Definition delimited (rest : jsstring) : bool :=
  match rest with
  | [] => true
  | c :: _ =>
      negb (((48 <=? c) && (c <=? 57)) || (c =? 46) || (c =? 101) || (c =? 69))%N
  end.

(** The number of nodes of a value, which bounds the fuel its text needs. *)
Fixpoint weight (v : JSValue) : nat :=
  match v with
  | JArray vs => S (list_sum (map (λ e, S (weight e)) vs))
  | JObject ps => S (list_sum (map (λ kv, S (weight (snd kv))) ps))
  | _ => 1
  end.

(** The first character of the text of a value: no white space, no closing
    bracket. *)
Definition value_start (c : N) : bool :=
  negb (is_json_ws c) && negb (c =? 93)%N.

(** [reads_back v]: the text of [v] parses to [v], whatever delimiter
    follows it and whatever fuel at least [weight v] is at hand. *)
Definition reads_back (v : JSValue) : Prop :=
  ∃ c t, JSON_stringify v = Some (c :: t) ∧ value_start c = true ∧
    ∀ fuel rest, weight v ≤ fuel → delimited rest = true →
      parse_value fuel (c :: t ++ rest) = Ok v rest.

(** [{vectors: {size: 4, distance: 'Cosine'}}]. *)
Definition sample_config : JSValue :=
  JObject [(lit "vectors",
            JObject [(lit "size", JNumber (number_of_Z 4));
                     (lit "distance", JString (lit "Cosine"))])].

(** The config object as the [qdrant_create_collection] tool builds it when
    its optional arguments are left out. *)
Definition handler_config : JSValue :=
  JObject [(lit "vectors",
            JObject [(lit "size", JNumber (number_of_Z 4));
                     (lit "distance", JString (lit "Cosine"))]);
           (lit "on_disk_payload", JUndefined);
           (lit "shard_number", JUndefined);
           (lit "replication_factor", JUndefined)].

(** ** Path segments *)

(** The characters of an encoded path segment: the unreserved characters
    and the percent sign.  None of [/ ? # & = +] and no white space is
    among them. *)
Definition segment_char (c : N) : bool := is_unreserved c || (c =? 37)%N.

(** ** Well-formed inputs, continued *)

(** The digit strings of array indices: one digit, or several without a
    leading zero. *)
Definition index_digits (ds : list digit) : Prop :=
  match ds with
  | [] => False
  | [_] => True
  | d :: _ => is_zero_digit d = false
  end.

(** A Number on which a decimal text and the double it is rounded to
    agree: at most 15 significant digits, and a magnitude well inside the
    range of the normal doubles.  [Number::toString] prints such a double
    with the digits of the decimal it was read from. *)
Definition exact_number (x : JSNumber) : bool :=
  match x with
  | Zero neg => negb neg
  | Dec _ ds n =>
      canonical_digits ds && (length ds <=? 15)%nat
      && (-300 <? n)%Z && (n <? 300)%Z
  | _ => false
  end.

(** Plain data all of whose Numbers are such. *)
Fixpoint exact_value (v : JSValue) : bool :=
  match v with
  | JUndefined => false
  | JNull | JBool _ | JString _ => true
  | JNumber x => exact_number x
  | JArray vs => forallb exact_value vs
  | JObject ps =>
      ordered_keys (map fst ps) && forallb (λ kv, exact_value (snd kv)) ps
  end.

(** ** [types/env.ts]: numeric settings *)

(** The [vars] of the Worker.  A variable that is not configured is
    [undefined] at run time, whatever the interface declares. *)
Record Env := {
  CHARACTER_LIMIT : JSValue;
  DEFAULT_PAGE_SIZE : JSValue;
  MAX_PAGE_SIZE : JSValue
}.

(** [keyof Env]. *)
Inductive EnvKey := KeyCharacterLimit | KeyDefaultPageSize | KeyMaxPageSize.

(** [env[key]]. *)
Definition env_get (env : Env) (key : EnvKey) : JSValue :=
  match key with
  | KeyCharacterLimit => CHARACTER_LIMIT env
  | KeyDefaultPageSize => DEFAULT_PAGE_SIZE env
  | KeyMaxPageSize => MAX_PAGE_SIZE env
  end.

(** [Number.isNaN]. *)
Definition Number_isNaN (x : JSNumber) : bool :=
  match x with NaN => true | _ => false end.

Definition getEnvNumber (env : Env) (key : EnvKey) (defaultValue : JSNumber)
  : JSNumber :=
  let value := env_get env key in
  match value with
  | JString s =>
      let parsed := parseInt s in
      if Number_isNaN parsed then defaultValue else parsed
  | _ => defaultValue
  end.

Definition getCharacterLimit (env : Env) : JSNumber :=
  getEnvNumber env KeyCharacterLimit (number_of_Z 50000).

Definition getDefaultPageSize (env : Env) : JSNumber :=
  getEnvNumber env KeyDefaultPageSize (number_of_Z 20).

Definition getMaxPageSize (env : Env) : JSNumber :=
  getEnvNumber env KeyMaxPageSize (number_of_Z 100).

(** ** [index.ts]: the Worker's fetch handler *)

Definition SERVER_NAME : jsstring := lit "primrose-mcp-qdrant".
Definition SERVER_VERSION : jsstring := lit "1.0.0".

(** What the handler looks at in a request: the path of its URL
    ([new URL(request.url).pathname]), its method and its headers. *)
Record WorkerRequest := {
  req_pathname : jsstring;
  req_method : jsstring;
  req_headers : Headers
}.

(** The arguments of [new Response(body, init)]; the status is 200 when
    [init] names none. *)
Record WorkerResponse := {
  res_status : Z;
  res_headers : list (jsstring * jsstring);
  res_body : jsstring
}.

(** The handler answers by itself, or hands the request to the MCP handler
    of a server that [createStatelessServer] built for the credentials. *)
Inductive WorkerOutcome :=
| Answers (r : WorkerResponse)
| ServesMcp (credentials : TenantCredentials).

(** [new Response(JSON.stringify(v), { status, headers: { 'Content-Type':
    'application/json' } })]. *)
Definition json_response (st : Z) (v : JSValue) : WorkerResponse :=
  {| res_status := st;
     res_headers := [(lit "Content-Type", lit "application/json")];
     res_body := default [] (JSON_stringify v) |}.

Definition strings (l : list string) : JSValue :=
  JArray (map (λ s, JString (lit s)) l).

Definition advertised_tools : list string :=
  [ "qdrant_list_collections"; "qdrant_get_collection";
    "qdrant_collection_exists"; "qdrant_create_collection";
    "qdrant_create_collection_multi_vector"; "qdrant_update_collection";
    "qdrant_delete_collection";
    "qdrant_list_aliases"; "qdrant_get_collection_aliases";
    "qdrant_create_alias"; "qdrant_delete_alias"; "qdrant_rename_alias";
    "qdrant_switch_alias";
    "qdrant_upsert_points"; "qdrant_get_points"; "qdrant_get_point";
    "qdrant_delete_points"; "qdrant_scroll_points"; "qdrant_count_points";
    "qdrant_search"; "qdrant_search_named_vector"; "qdrant_search_batch";
    "qdrant_query"; "qdrant_query_groups"; "qdrant_recommend";
    "qdrant_recommend_groups"; "qdrant_discover";
    "qdrant_search_matrix_pairs"; "qdrant_search_matrix_offsets";
    "qdrant_set_payload"; "qdrant_overwrite_payload";
    "qdrant_delete_payload"; "qdrant_clear_payload";
    "qdrant_update_vectors"; "qdrant_delete_vectors";
    "qdrant_batch_update";
    "qdrant_list_snapshots"; "qdrant_create_snapshot";
    "qdrant_delete_snapshot"; "qdrant_recover_snapshot";
    "qdrant_list_full_snapshots"; "qdrant_create_full_snapshot";
    "qdrant_delete_full_snapshot";
    "qdrant_get_cluster_status"; "qdrant_recover_cluster";
    "qdrant_remove_peer"; "qdrant_get_collection_cluster_info";
    "qdrant_move_shard"; "qdrant_replicate_shard"; "qdrant_drop_replica";
    "qdrant_abort_shard_transfer"; "qdrant_create_shard_key";
    "qdrant_delete_shard_key";
    "qdrant_create_field_index"; "qdrant_create_text_index";
    "qdrant_create_integer_index"; "qdrant_delete_field_index";
    "qdrant_get_version"; "qdrant_get_telemetry"; "qdrant_get_metrics";
    "qdrant_get_locks"; "qdrant_set_locks";
    "qdrant_test_connection" ]%string.

(** The document of the default response. *)
Definition server_info : JSValue :=
  JObject
    [(lit "name", JString SERVER_NAME);
     (lit "version", JString SERVER_VERSION);
     (lit "description", JString (lit "Multi-tenant Qdrant MCP Server"));
     (lit "endpoints",
      JObject
        [(lit "mcp", JString (lit "/mcp (POST) - Streamable HTTP MCP endpoint"));
         (lit "health", JString (lit "/health - Health check"))]);
     (lit "authentication",
      JObject
        [(lit "description",
          JString (lit "Pass tenant credentials via request headers"));
         (lit "required_headers",
          JObject
            [(lit "X-Qdrant-API-Key",
              JString (lit "API key for Qdrant authentication"));
             (lit "X-Qdrant-Base-URL",
              JString (lit "Qdrant instance URL (e.g., https://your-cluster.qdrant.io:6333)"))])]);
     (lit "tools", strings advertised_tools)].

(** The body of the 401 answer. *)
Definition unauthorized (P : Platform) (error : Thrown) : JSValue :=
  JObject
    [(lit "error", JString (lit "Unauthorized"));
     (lit "message",
      JString (if instanceof_Error error then error_message P error
               else lit "Invalid credentials"));
     (lit "required_headers",
      strings ["X-Qdrant-API-Key"; "X-Qdrant-Base-URL"]%string)].

(** The [fetch] method of the Worker's default export. *)
Definition worker_fetch (P : Platform) (request : WorkerRequest) : WorkerOutcome :=
  if bool_decide (req_pathname request = lit "/health") then
    Answers (json_response 200
               (JObject [(lit "status", JString (lit "ok"));
                         (lit "server", JString SERVER_NAME)]))
  else if bool_decide (req_pathname request = lit "/mcp")
          && bool_decide (req_method request = lit "POST") then
    let credentials := parseTenantCredentials (req_headers request) in
    match validateCredentials credentials with
    | Throws error => Answers (json_response 401 (unauthorized P error))
    | Returns _ => ServesMcp credentials
    end
  else if bool_decide (req_pathname request = lit "/sse") then
    Answers {| res_status := 501;
               res_headers := [];
               res_body := lit "SSE endpoint requires Durable Objects. Enable in wrangler.jsonc." |}
  else
    Answers (json_response 200 server_info).

(** ** More sample inputs *)

(** [{"title":"qdrant","version":"1.9.0"}] under status 200: a version
    document that is not wrapped in [result]. *)
Definition bare_version_document : Response :=
  json_reply (lit "{" ++ dq ++ lit "title" ++ dq ++ lit ":" ++ dq ++ lit "qdrant" ++ dq ++
              lit "," ++ dq ++ lit "version" ++ dq ++ lit ":" ++ dq ++ lit "1.9.0" ++ dq ++
              lit "}").

Definition sample_headers : Headers :=
  [(lit "content-type", lit "application/json");
   (lit "x-qdrant-api-key", lit "secret");
   (lit "x-qdrant-base-url", lit "https://qdrant.example:6333")].

(** ** [JSON.stringify] with indentation *)

Definition line_feed : jsstring := [10%N].

(** [JSON.stringify(v, null, n)], where [gap] is the indentation of one
    level ([n] spaces) and [indent] the indentation reached so far.  An
    empty array is written [[]] and an object of which no member gets
    written [{}]; otherwise every element and every member stands on a
    line of its own, and a colon is followed by a space (ECMA-262 25.5.2.5
    and 25.5.2.6, for a [gap] that is not empty). *)
Fixpoint stringify_indented (gap indent : jsstring) (v : JSValue)
  : option jsstring :=
  match v with
  | JUndefined => None
  | JNull => Some (lit "null")
  | JBool b => Some (if b then lit "true" else lit "false")
  | JNumber x => Some (if is_finite x then Number_toString x else lit "null")
  | JString s => Some (quote s)
  | JArray vs =>
      let stepback := indent in
      let indent := indent ++ gap in
      match map (λ e, default (lit "null") (stringify_indented gap indent e)) vs with
      | [] => Some (lit "[]")
      | partial =>
          let separator := lit "," ++ line_feed ++ indent in
          Some (lit "[" ++ line_feed ++ indent ++ join separator partial ++
                line_feed ++ stepback ++ lit "]")
      end
  | JObject ps =>
      let stepback := indent in
      let indent := indent ++ gap in
      match omap (λ kv, t ← stringify_indented gap indent (snd kv);
                        Some (quote (fst kv) ++ lit ": " ++ t)) ps with
      | [] => Some (lit "{}")
      | partial =>
          let separator := lit "," ++ line_feed ++ indent in
          Some (lit "{" ++ line_feed ++ indent ++ join separator partial ++
                line_feed ++ stepback ++ lit "}")
      end
  end.

(** [JSON.stringify(v, null, 2)]. *)
Definition JSON_stringify_2 (v : JSValue) : option jsstring :=
  stringify_indented (lit "  ") [] v.

(** [reads_back_indented gap v]: at every indentation, the indented text of
    [v] parses to [v], whatever delimiter follows it and whatever fuel at
    least [weight v] is at hand. *)
Definition reads_back_indented (gap : jsstring) (v : JSValue) : Prop :=
  ∀ indent, forallb is_json_ws indent = true →
    ∃ c t, stringify_indented gap indent v = Some (c :: t) ∧
           value_start c = true ∧
           ∀ fuel rest, weight v ≤ fuel → delimited rest = true →
             parse_value fuel (c :: t ++ rest) = Ok v rest.

(** ** Tool results *)

(** [{ content: [{ type: 'text', text }], isError }]: the text of the one
    content item, and whether [isError] is set. *)
Record ToolResponse := {
  content_text : JSValue;
  isError : bool
}.

(** [{ content: [{ type: 'text', text: JSON.stringify(v, null, 2) }] }]. *)
Definition json_content (v : JSValue) : ToolResponse :=
  {| content_text := from_option JString JUndefined (JSON_stringify_2 v);
     isError := false |}.

(** Modelled from the spec: [utils/errors.ts] is not among the sources.
    Of what [formatters.ts] takes from it, the spec only says that an
    ApiError carries a [retryable] flag.  Here [formatErrorForLogging] is
    any function from the thrown value to plain data,
    [instanceof_QdrantApiError] stands for [error instanceof
    QdrantApiError] and [retryable] for the truth of [error.retryable];
    nothing is assumed of them. *)
Record ErrorsModule := {
  formatErrorForLogging : Thrown → JSValue;
  instanceof_QdrantApiError : Thrown → bool;
  retryable : Thrown → bool
}.

(** [String(error)]; on an Error it is [Error.prototype.toString]. *)
Definition String_of_thrown (P : Platform) (error : Thrown) : jsstring :=
  match error with
  | NonError v => to_string v
  | _ => class_name (error_class error) ++ lit ": " ++ error_message P error
  end.

(** A tool argument that may be left out. *)
Definition optional {A} (f : A → JSValue) (o : option A) : JSValue :=
  from_option f JUndefined o.

(** One entry of the [vectors] argument of
    [qdrant_create_collection_multi_vector]. *)
Record NamedVector := {
  vector_name : jsstring;
  vector_size : JSNumber;
  vector_distance : jsstring
}.

(** [o[k] = v] on an object created by [{}]: the name [__proto__] reaches
    the accessor of [Object.prototype], which creates no own property; any
    other name is set on the object itself. *)
Definition assign (k : jsstring) (v : JSValue) (o : Props) : Props :=
  if same_key k (lit "__proto__") then o else obj_set k v o.

(** [n] as a Number, for [array.length]. *)
Definition length_value {A} (l : list A) : JSValue :=
  JNumber (number_of_Z (Z.of_nat (length l))).

Section Tools.
Variable P : Platform.
Variable client : QdrantClientImpl.
Variable E : ErrorsModule.

(** *** [utils/formatters.ts] *)

Definition formatError (error : Thrown) : ToolResponse :=
  let errorInfo := formatErrorForLogging E error in
  let message :=
    if instanceof_QdrantApiError E error then
      (lit "Error: " ++ error_message P error) ++
      (if retryable E error then lit " (retryable)" else [])
    else if instanceof_Error error then lit "Error: " ++ error_message P error
    else lit "Error: " ++ String_of_thrown P error in
  {| content_text :=
       from_option JString JUndefined
         (JSON_stringify_2 (JObject [(lit "error", JString message);
                                     (lit "details", errorInfo)]));
     isError := true |}.

(** The Markdown renderer of [formatters.ts], left abstract: it formats
    numbers with [toFixed], [toLocaleString] and logarithms, and upper-cases
    letters.  It answers a text or throws. *)
Variable formatAsMarkdown : JSValue → jsstring → Completion jsstring.

Definition formatResponse (data : JSValue) (format entityType : jsstring)
  : Completion ToolResponse :=
  if bool_decide (format = lit "markdown") then
    match formatAsMarkdown data entityType with
    | Returns text => Returns {| content_text := JString text; isError := false |}
    | Throws error => Throws error
    end
  else Returns (json_content data).

(** [try { ... } catch (error) { return formatError(error); }]. *)
Definition handled (body : Eff ToolResponse) : Eff ToolResponse :=
  try_catch body (λ error, ret (formatError error)).

(** The report of an update: [{ success: true, message, status:
    result.status, operationId: result.operation_id }]. *)
Definition operation_report (message : jsstring) (result : JSValue)
  : Eff ToolResponse :=
  let* st := or_fault (get_prop result (lit "status"))
               (ReadOfNullish result (lit "status")) in
  let* operationId := or_fault (get_prop result (lit "operation_id"))
                        (ReadOfNullish result (lit "operation_id")) in
  ret (json_content
         (JObject [(lit "success", JBool true);
                   (lit "message", JString message);
                   (lit "status", st);
                   (lit "operationId", operationId)])).

(** *** [index.ts]: the connection tool *)

Definition qdrant_test_connection : Eff ToolResponse :=
  try_catch
    (let* result := testConnection P client in
     ret (json_content
            (JObject [(lit "connected", JBool (connected result));
                      (lit "message", JString (message result))])))
    (λ error,
     ret {| content_text :=
              JString (lit "Connection failed: " ++
                       (if instanceof_Error error then error_message P error
                        else lit "Unknown error"));
            isError := true |}).

(** *** [tools/service.ts] *)

Definition qdrant_get_version : Eff ToolResponse :=
  handled (let* result := getVersion P client in ret (json_content result)).

Definition qdrant_get_metrics : Eff ToolResponse :=
  handled
    (let* result := getMetrics P client in
     ret {| content_text := result; isError := false |}).

(** *** [tools/indexes.ts] *)

Definition qdrant_create_field_index (collectionName fieldName : jsstring)
    (fieldSchema : option jsstring) (wait : bool) : Eff ToolResponse :=
  handled
    (let* result :=
       createFieldIndex P client collectionName fieldName
         (if truthy_opt fieldSchema
          then JObject [(lit "field_name", JString fieldName);
                        (lit "field_schema", optional JString fieldSchema)]
          else JUndefined)
         (Some wait) in
     operation_report (lit "Index created on field '" ++ fieldName ++ lit "'")
       result).

Definition qdrant_create_text_index (collectionName fieldName tokenizer : jsstring)
    (minTokenLen maxTokenLen : option JSNumber) (lowercase wait : bool)
  : Eff ToolResponse :=
  handled
    (let* result :=
       createFieldIndex P client collectionName fieldName
         (JObject
            [(lit "field_name", JString fieldName);
             (lit "field_schema",
              JObject [(lit "type", JString (lit "text"));
                       (lit "tokenizer", JString tokenizer);
                       (lit "min_token_len", optional JNumber minTokenLen);
                       (lit "max_token_len", optional JNumber maxTokenLen);
                       (lit "lowercase", JBool lowercase)])])
         (Some wait) in
     operation_report
       (lit "Text index created on field '" ++ fieldName ++ lit "'") result).

Definition qdrant_create_integer_index (collectionName fieldName : jsstring)
    (lookup range wait : bool) : Eff ToolResponse :=
  handled
    (let* result :=
       createFieldIndex P client collectionName fieldName
         (JObject
            [(lit "field_name", JString fieldName);
             (lit "field_schema",
              JObject [(lit "type", JString (lit "integer"));
                       (lit "lookup", JBool lookup);
                       (lit "range", JBool range)])])
         (Some wait) in
     operation_report
       (lit "Integer index created on field '" ++ fieldName ++ lit "'") result).

Definition qdrant_delete_field_index (collectionName fieldName : jsstring)
    (wait : bool) : Eff ToolResponse :=
  handled
    (let* result := deleteFieldIndex P client collectionName fieldName (Some wait) in
     operation_report
       (lit "Index removed from field '" ++ fieldName ++ lit "'") result).

(** *** [tools/payload.ts]

    [ids] is an array of point ids and [filter] an object, each of them
    optional; [payload] is an object. *)

Definition ids_value (ids : option (list PointId)) : JSValue :=
  optional (λ l, JArray (map point_id_value l)) ids.

Definition qdrant_set_payload (collectionName : jsstring) (payload : Props)
    (ids : option (list PointId)) (filter : option Props) (wait : bool)
  : Eff ToolResponse :=
  handled
    (let* result :=
       setPayload P client collectionName
         (JObject [(lit "payload", JObject payload);
                   (lit "points", ids_value ids);
                   (lit "filter", optional JObject filter)])
         (Some wait) in
     operation_report (lit "Payload set") result).

Definition qdrant_overwrite_payload (collectionName : jsstring) (payload : Props)
    (ids : option (list PointId)) (filter : option Props) (wait : bool)
  : Eff ToolResponse :=
  handled
    (let* result :=
       overwritePayload P client collectionName
         (JObject [(lit "payload", JObject payload);
                   (lit "points", ids_value ids);
                   (lit "filter", optional JObject filter)])
         (Some wait) in
     operation_report (lit "Payload overwritten") result).

Definition qdrant_delete_payload (collectionName : jsstring) (keys : list jsstring)
    (ids : option (list PointId)) (filter : option Props) (wait : bool)
  : Eff ToolResponse :=
  handled
    (let* result :=
       deletePayload P client collectionName
         (JObject [(lit "keys", JArray (map JString keys));
                   (lit "points", ids_value ids);
                   (lit "filter", optional JObject filter)])
         (Some wait) in
     operation_report (lit "Deleted payload keys: " ++ join (lit ", ") keys) result).

Definition qdrant_clear_payload (collectionName : jsstring)
    (ids : option (list PointId)) (filter : option Props) (wait : bool)
  : Eff ToolResponse :=
  handled
    (let* result :=
       clearPayload P client collectionName
         (JObject [(lit "points", ids_value ids);
                   (lit "filter", optional JObject filter)])
         (Some wait) in
     operation_report (lit "Payload cleared") result).

(** *** [tools/points.ts] *)

Definition qdrant_delete_points (collectionName : jsstring)
    (ids : option (list PointId)) (filter : option Props) (wait : bool)
  : Eff ToolResponse :=
  handled
    (let request : Props := [] in
     let request :=
       if truthy (ids_value ids)
       then obj_set (lit "points") (ids_value ids) request else request in
     let request :=
       if truthy (optional JObject filter)
       then obj_set (lit "filter") (optional JObject filter) request
       else request in
     let* result := deletePoints P client collectionName (JObject request)
                      (Some wait) in
     operation_report (lit "Points deleted") result).

(** *** [tools/collections.ts] *)

Definition qdrant_create_collection (collectionName : jsstring)
    (vectorSize : JSNumber) (distance : jsstring) (onDiskPayload : option bool)
    (shardNumber replicationFactor : option JSNumber) : Eff ToolResponse :=
  handled
    (let vectors := JObject [(lit "size", JNumber vectorSize);
                             (lit "distance", JString distance)] in
     let* _ :=
       createCollection P client collectionName
         (JObject [(lit "vectors", vectors);
                   (lit "on_disk_payload", optional JBool onDiskPayload);
                   (lit "shard_number", optional JNumber shardNumber);
                   (lit "replication_factor", optional JNumber replicationFactor)]) in
     ret (json_content
            (JObject [(lit "success", JBool true);
                      (lit "message",
                       JString (lit "Collection '" ++ collectionName ++ lit "' created"));
                      (lit "collectionName", JString collectionName)]))).

(** The loop [for (const v of vectors) vectorsConfig[v.name] = { size:
    v.size, distance: v.distance }] over an empty object. *)
Definition vectors_config (vectors : list NamedVector) : Props :=
  fold_left
    (λ vectorsConfig v,
       assign (vector_name v)
         (JObject [(lit "size", JNumber (vector_size v));
                   (lit "distance", JString (vector_distance v))])
         vectorsConfig)
    vectors [].

Definition qdrant_create_collection_multi_vector (collectionName : jsstring)
    (vectors : list NamedVector) (onDiskPayload : option bool) : Eff ToolResponse :=
  handled
    (let vectorsConfig := vectors_config vectors in
     let* _ :=
       createCollection P client collectionName
         (JObject [(lit "vectors", JObject vectorsConfig);
                   (lit "on_disk_payload", optional JBool onDiskPayload)]) in
     ret (json_content
            (JObject
               [(lit "success", JBool true);
                (lit "message",
                 JString (lit "Collection '" ++ collectionName ++
                          lit "' created with " ++ to_string (length_value vectors) ++
                          lit " named vectors"));
                (lit "collectionName", JString collectionName);
                (lit "vectors", JArray (map (λ v, JString (vector_name v)) vectors))]))).

Definition qdrant_switch_alias (aliasName newCollectionName : jsstring)
  : Eff ToolResponse :=
  handled
    (let* _ :=
       updateAliases P client
         (JObject
            [(lit "actions",
              JArray
                [JObject [(lit "delete_alias",
                           JObject [(lit "alias_name", JString aliasName)])];
                 JObject [(lit "create_alias",
                           JObject [(lit "collection_name", JString newCollectionName);
                                    (lit "alias_name", JString aliasName)])]])]) in
     ret (json_content
            (JObject
               [(lit "success", JBool true);
                (lit "message",
                 JString (lit "Alias '" ++ aliasName ++ lit "' switched to collection '" ++
                          newCollectionName ++ lit "'"))]))).
End Tools.

(** An [ErrorsModule] for the examples. *)
Definition sample_errors : ErrorsModule :=
  {| formatErrorForLogging :=
       λ error, JObject [(lit "name", JString (class_name (error_class error)))];
     instanceof_QdrantApiError :=
       λ error, match error with QdrantApiError _ _ => true | _ => false end;
     retryable :=
       λ error, match error with
                | QdrantApiError _ st => (500 <=? st)%Z
                | _ => false
                end |}.

(** *** The tools that report an update

    The tools of [indexes.ts] and [payload.ts] and [qdrant_delete_points],
    with their arguments. *)

Inductive UpdateTool :=
| CreateFieldIndexTool (collectionName fieldName : jsstring)
    (fieldSchema : option jsstring) (wait : bool)
| CreateTextIndexTool (collectionName fieldName tokenizer : jsstring)
    (minTokenLen maxTokenLen : option JSNumber) (lowercase wait : bool)
| CreateIntegerIndexTool (collectionName fieldName : jsstring)
    (lookup range wait : bool)
| DeleteFieldIndexTool (collectionName fieldName : jsstring) (wait : bool)
| SetPayloadTool (collectionName : jsstring) (payload : Props)
    (ids : option (list PointId)) (filter : option Props) (wait : bool)
| OverwritePayloadTool (collectionName : jsstring) (payload : Props)
    (ids : option (list PointId)) (filter : option Props) (wait : bool)
| DeletePayloadTool (collectionName : jsstring) (keys : list jsstring)
    (ids : option (list PointId)) (filter : option Props) (wait : bool)
| ClearPayloadTool (collectionName : jsstring)
    (ids : option (list PointId)) (filter : option Props) (wait : bool)
| DeletePointsTool (collectionName : jsstring)
    (ids : option (list PointId)) (filter : option Props) (wait : bool).

Definition call_tool (P : Platform) (client : QdrantClientImpl) (E : ErrorsModule)
    (tool : UpdateTool) : Eff ToolResponse :=
  match tool with
  | CreateFieldIndexTool c f s w => qdrant_create_field_index P client E c f s w
  | CreateTextIndexTool c f k lo hi l w =>
      qdrant_create_text_index P client E c f k lo hi l w
  | CreateIntegerIndexTool c f l r w =>
      qdrant_create_integer_index P client E c f l r w
  | DeleteFieldIndexTool c f w => qdrant_delete_field_index P client E c f w
  | SetPayloadTool c p i f w => qdrant_set_payload P client E c p i f w
  | OverwritePayloadTool c p i f w => qdrant_overwrite_payload P client E c p i f w
  | DeletePayloadTool c k i f w => qdrant_delete_payload P client E c k i f w
  | ClearPayloadTool c i f w => qdrant_clear_payload P client E c i f w
  | DeletePointsTool c i f w => qdrant_delete_points P client E c i f w
  end.

(** [{"result":{"title":"qdrant","version":"1.9.0"}}] under status 200. *)
Definition wrapped_version_document : Response :=
  json_reply (lit "{" ++ dq ++ lit "result" ++ dq ++ lit ":{" ++ dq ++ lit "title" ++
              dq ++ lit ":" ++ dq ++ lit "qdrant" ++ dq ++ lit "," ++ dq ++
              lit "version" ++ dq ++ lit ":" ++ dq ++ lit "1.9.0" ++ dq ++ lit "}}").

Definition version_document : JSValue :=
  JObject [(lit "title", JString (lit "qdrant"));
           (lit "version", JString (lit "1.9.0"))].

(** A renderer for the examples. *)
Definition sample_markdown (data : JSValue) (entityType : jsstring)
  : Completion jsstring :=
  Returns (lit "## " ++ entityType).

Definition sample_vectors : list NamedVector :=
  [ {| vector_name := lit "text"; vector_size := number_of_Z 384;
       vector_distance := lit "Cosine" |};
    {| vector_name := lit "image"; vector_size := number_of_Z 512;
       vector_distance := lit "Dot" |};
    {| vector_name := lit "text"; vector_size := number_of_Z 768;
       vector_distance := lit "Euclid" |} ].

(* ====================================================================== *)
(** * Part II: lemmas *)
(* ====================================================================== *)

(** ** Percent-encoding round trip *)

(** Decide the comparisons on [N] that occur in the goal, dropping the
    branches that the hypotheses rule out. *)
Ltac ncases :=
  repeat match goal with
    | |- context [(?a <? ?b)%N] => destruct (N.ltb_spec a b); try lia
    | |- context [(?a <=? ?b)%N] => destruct (N.leb_spec a b); try lia
    | |- context [(?a =? ?b)%N] => destruct (N.eqb_spec a b); try lia
    end.

(** The same for comparisons in a hypothesis. *)
Ltac nhyp H :=
  revert H; ncases; cbn [andb orb negb];
  let H' := fresh in intros H'; try discriminate H'.

Lemma hex_upper_value (n : N) :
  (n < 16)%N → hex_value (hex_digit_upper n) = Some n.
Proof.
  intros H. unfold hex_value, hex_digit_upper.
  ncases; cbn [andb]; f_equal; lia.
Qed.

Lemma hex_lower_value (n : N) :
  (n < 16)%N → hex_value (hex_digit_lower n) = Some n.
Proof.
  intros H. unfold hex_value, hex_digit_lower.
  ncases; cbn [andb]; f_equal; lia.
Qed.

Lemma uri_items_percent (b : N) (t : jsstring) :
  (b < 256)%N →
  uri_items (percent b ++ t) =
    match uri_items t with Some l => Some (Esc b :: l) | None => None end.
Proof.
  intros H. unfold percent. cbn [app uri_items]. rewrite N.eqb_refl.
  rewrite !hex_upper_value by lia.
  replace (b / 16 * 16 + b mod 16)%N with b by lia. reflexivity.
Qed.

Lemma unreserved_not_percent (c : N) : is_unreserved c = true → (c =? 37)%N = false.
Proof.
  unfold is_unreserved, is_alnum. intros H. ncases. subst c. discriminate.
Qed.

Lemma utf8_octets_bytes (cp : N) :
  (cp < 1114112)%N → Forall (λ b, (b < 256)%N) (utf8_octets cp).
Proof.
  intros H. unfold utf8_octets. ncases; repeat constructor; lia.
Qed.

(** The items that the encoding of one code point is cut into. *)
Lemma uri_items_encode_point (cp : N) (t : jsstring) :
  (cp < 1114112)%N →
  uri_items (encode_point cp ++ t) =
    match uri_items t with
    | Some l =>
        Some ((if is_unreserved cp then [Lit cp] else map Esc (utf8_octets cp)) ++ l)
    | None => None
    end.
Proof.
  intros H. unfold encode_point.
  destruct (is_unreserved cp) eqn:U.
  - cbn [app uri_items]. rewrite (unreserved_not_percent _ U).
    destruct (uri_items t); reflexivity.
  - pose proof (utf8_octets_bytes cp H) as Hb.
    induction Hb as [|b bs Hb _ IH]; cbn [flat_map map app].
    + destruct (uri_items t); reflexivity.
    + rewrite <- app_assoc, uri_items_percent by exact Hb.
      rewrite IH. destruct (uri_items t); reflexivity.
Qed.

Lemma unreserved_ascii (c : N) : is_unreserved c = true → (c < 128)%N.
Proof.
  unfold is_unreserved, is_alnum. ncases; cbn; intros; (lia || discriminate).
Qed.

Lemma utf8_items_point (cp : N) (l : list Item) :
  (cp < 55296 ∨ 57344 <= cp < 1114112)%N →
  utf8_items ((if is_unreserved cp then [Lit cp] else map Esc (utf8_octets cp)) ++ l) =
    match utf8_items l with
    | Some t => Some (utf16_units cp ++ t)
    | None => None
    end.
Proof.
  intros Hs.
  destruct (is_unreserved cp) eqn:U.
  - apply unreserved_ascii in U. cbn [app utf8_items].
    unfold utf16_units. ncases. destruct (utf8_items l); reflexivity.
  - unfold utf8_octets, is_continuation.
    ncases; cbn [map app utf8_items]; unfold is_continuation; ncases;
      cbn [andb negb mbind option_bind];
      try match goal with
      | |- context [utf16_units ?e ++ _] => replace e with cp by lia
      end;
      destruct (utf8_items l); cbn [mbind option_bind]; try reflexivity;
      unfold utf16_units; ncases; reflexivity.
Qed.

(** Decoding undoes encoding on every well-formed string. *)
Lemma decode_encode_uri_component (s : jsstring) :
  well_formed_utf16 s = true →
  ∃ t, encodeURIComponent s = Some t ∧ decodeURIComponent t = Some s.
Proof.
  unfold decodeURIComponent.
  induction s as [s IH] using (induction_ltof1 _ length). unfold ltof in IH.
  destruct s as [|c r]; [eexists; split; reflexivity|].
  cbn [well_formed_utf16 encodeURIComponent].
  destruct (is_high_surrogate c) eqn:Hh.
  - destruct r as [|c2 r']; [discriminate|].
    intros [Hl Hr]%andb_true_iff. rewrite Hl.
    destruct (IH r') as (t & Et & Dt); [cbn; lia|exact Hr|].
    rewrite Et. cbn [mbind option_bind]. eexists. split; [reflexivity|].
    unfold is_high_surrogate, is_low_surrogate in Hh, Hl. nhyp Hh. nhyp Hl.
    rewrite uri_items_encode_point by (unfold pair_point; lia).
    destruct (uri_items t) as [l|]; [|discriminate].
    cbn [mbind option_bind] in Dt |- *.
    rewrite utf8_items_point by (unfold pair_point; lia). rewrite Dt.
    unfold utf16_units, pair_point. ncases. cbn [app].
    match goal with
    | |- Some (?a :: ?b :: _) = _ =>
        replace a with c by lia; replace b with c2 by lia
    end. reflexivity.
  - intros [[Hl Hc]%andb_true_iff Hr]%andb_true_iff.
    apply negb_true_iff in Hl. rewrite Hl.
    destruct (IH r) as (t & Et & Dt); [cbn; lia|exact Hr|].
    rewrite Et. cbn [mbind option_bind]. eexists. split; [reflexivity|].
    unfold is_high_surrogate, is_low_surrogate in Hh, Hl.
    apply N.ltb_lt in Hc. nhyp Hh; nhyp Hl;
    rewrite uri_items_encode_point by lia;
    (destruct (uri_items t) as [l|]; [|discriminate]);
    cbn [mbind option_bind] in Dt |- *;
    rewrite utf8_items_point by lia; rewrite Dt;
    unfold utf16_units; ncases; reflexivity.
Qed.

(** Conversely, a string with an unpaired surrogate has no encoding. *)
Lemma encode_uri_component_defined (s : jsstring) :
  wf_string s →
  encodeURIComponent s ≠ None ↔ well_formed_utf16 s = true.
Proof.
  induction s as [s IH] using (induction_ltof1 _ length). unfold ltof in IH.
  destruct s as [|c r]; [done|].
  intros Hwf. inversion Hwf as [|? ? Hc Hr]; subst.
  cbn [well_formed_utf16 encodeURIComponent].
  destruct (is_high_surrogate c) eqn:Hh.
  - destruct r as [|c2 r']; [done|].
    destruct (is_low_surrogate c2); [|done]. cbn [andb].
    inversion Hr; subst. rewrite <- IH by (done || cbn; lia).
    destruct (encodeURIComponent r'); done.
  - destruct (is_low_surrogate c); [done|]. cbn [negb andb].
    apply N.ltb_lt in Hc. rewrite Hc. cbn [andb].
    rewrite <- IH by (done || cbn; lia).
    destruct (encodeURIComponent r); done.
Qed.

(** ** Decimal digits *)

Lemma char_digit_char (d : digit) : char_digit (digit_char d) = Some d.
Proof. destruct d; reflexivity. Qed.

Lemma digit_char_range (d : digit) : (48 <= digit_char d <= 57)%N.
Proof. destruct d; unfold digit_char, N_of_digit; lia. Qed.

Lemma N_of_digit_of_N (n : N) : N_of_digit (digit_of_N n) = (n mod 10)%N.
Proof.
  unfold digit_of_N. assert (n mod 10 < 10)%N by lia.
  destruct (n mod 10)%N as [|p]; [reflexivity|].
  do 4 (destruct p as [p|p|]; try reflexivity; try lia).
Qed.

Lemma take_digits_string (ds : list digit) (rest : jsstring) :
  digit_free rest → take_digits (digits_string ds ++ rest) = (ds, rest).
Proof.
  intros H. induction ds as [|d ds IH]; cbn [digits_string map app take_digits].
  - destruct rest as [|c r]; [reflexivity|]. cbn in H |- *. rewrite H. reflexivity.
  - rewrite char_digit_char. unfold digits_string in IH. rewrite IH. reflexivity.
Qed.

Lemma delimited_digit_free (rest : jsstring) : delimited rest = true → digit_free rest.
Proof.
  destruct rest as [|c r]; [done|]. unfold delimited, digit_free, char_digit.
  intros H. nhyp H. all: reflexivity.
Qed.

Lemma N_of_digits_snoc (ds : list digit) (d : digit) :
  N_of_digits (ds ++ [d]) = (10 * N_of_digits ds + N_of_digit d)%N.
Proof. unfold N_of_digits. rewrite fold_left_app. reflexivity. Qed.

Lemma N_digits_aux_acc (fuel : nat) (n : N) (acc : list digit) :
  N_digits_aux fuel n acc = N_digits_aux fuel n [] ++ acc.
Proof.
  revert n acc. induction fuel as [|f IH]; intros n acc; cbn [N_digits_aux].
  - reflexivity.
  - destruct (n <? 10)%N; [reflexivity|].
    rewrite (IH _ (_ :: acc)), (IH _ [_]), <- app_assoc. reflexivity.
Qed.

Lemma log2_div10 (n : N) : (10 <= n)%N → (N.log2 (n / 10) < N.log2 n)%N.
Proof.
  intros H.
  assert (N.log2 (2 * (n / 10)) <= N.log2 n)%N by (apply N.log2_le_mono; lia).
  rewrite N.log2_double in H0 by lia. lia.
Qed.

Lemma N_of_digits_aux (fuel : nat) (n : N) :
  (N.to_nat (N.log2 n) < fuel)%nat →
  N_of_digits (N_digits_aux fuel n []) = n.
Proof.
  revert n. induction fuel as [|f IH]; intros n Hf; [lia|].
  cbn [N_digits_aux]. destruct (N.ltb_spec n 10) as [Hn|Hn].
  - cbn. rewrite N_of_digit_of_N. lia.
  - rewrite N_digits_aux_acc, N_of_digits_snoc, N_of_digit_of_N.
    rewrite IH by (pose proof (log2_div10 n Hn); lia). lia.
Qed.

(** Reading the digits of [n] gives [n] back. *)
Lemma N_of_digits_N_digits (n : N) : N_of_digits (N_digits n) = n.
Proof. apply N_of_digits_aux. lia. Qed.

Lemma N_digits_nonempty (n : N) : N_digits n ≠ [].
Proof.
  unfold N_digits. cbn [N_digits_aux]. destruct (n <? 10)%N; [done|].
  rewrite N_digits_aux_acc. destruct (N_digits_aux _ _ []); done.
Qed.

(** ** Stripping zeros *)

Lemma drop_while_zeros (k : nat) (ds : list digit) :
  head ds ≠ Some d0 →
  drop_while is_zero_digit (repeat d0 k ++ ds) = ds.
Proof.
  intros H. induction k as [|k IH]; cbn.
  - destruct ds as [|[] ?]; done.
  - exact IH.
Qed.

Lemma take_while_zeros (k : nat) (ds : list digit) :
  head ds ≠ Some d0 →
  length (take_while is_zero_digit (repeat d0 k ++ ds)) = k.
Proof.
  intros H. induction k as [|k IH]; cbn.
  - destruct ds as [|[] ?]; done.
  - rewrite IH. reflexivity.
Qed.

Lemma rev_repeat {A} (x : A) (k : nat) : rev (repeat x k) = repeat x k.
Proof.
  induction k as [|k IH]; [reflexivity|]. cbn [repeat rev]. rewrite IH.
  clear IH. induction k as [|k IH]; [reflexivity|]. cbn. rewrite IH. reflexivity.
Qed.

Lemma strip_trailing_zeros_app (k : nat) (ds : list digit) :
  head (rev ds) ≠ Some d0 →
  strip_trailing_zeros (ds ++ repeat d0 k) = ds.
Proof.
  intros H. unfold strip_trailing_zeros.
  rewrite rev_app_distr, rev_repeat, drop_while_zeros by exact H.
  apply rev_involutive.
Qed.

Lemma canonical_digits_spec (ds : list digit) :
  canonical_digits ds = true →
  ds ≠ [] ∧ head ds ≠ Some d0 ∧ head (rev ds) ≠ Some d0.
Proof.
  unfold canonical_digits. destruct ds as [|d ds]; [done|].
  destruct (rev (d :: ds)) as [|e es]; [done|].
  intros [Hd He]%andb_true_iff. repeat split; [done|..].
  - destruct d; done.
  - destruct e; done.
Qed.

(** A canonical digit string between zeros is recovered, and the leading
    zeros move the decimal point. *)
Lemma number_of_digits_padded (neg : bool) (ds : list digit) (k m : nat) (n : Z) :
  canonical_digits ds = true →
  number_of_digits neg (repeat d0 k ++ ds ++ repeat d0 m) n =
    Dec neg ds (n - Z.of_nat k).
Proof.
  intros (Hne & Hh & Hl)%canonical_digits_spec. unfold number_of_digits.
  assert (Hh' : head (ds ++ repeat d0 m) ≠ Some d0)
    by (destruct ds; [done|exact Hh]).
  unfold strip_leading_zeros.
  rewrite take_while_zeros, drop_while_zeros, strip_trailing_zeros_app by done.
  destruct ds; done.
Qed.

Lemma read_decimal_padded (neg : bool) (ds : list digit) (k m : nat) (n : Z) :
  json_number (Dec neg ds (n - Z.of_nat k)) = true →
  read_decimal neg (repeat d0 k ++ ds ++ repeat d0 m) n =
    Dec neg ds (n - Z.of_nat k).
Proof.
  cbn [json_number]. intros [[Hc Ho]%andb_true_iff Hu]%andb_true_iff.
  unfold read_decimal. rewrite number_of_digits_padded by exact Hc.
  apply negb_true_iff in Ho, Hu. rewrite Ho, Hu. reflexivity.
Qed.

(** ** Numbers: reading back what [Number::toString] prints *)

Ltac zcases :=
  repeat match goal with
    | |- context [(?a <? ?b)%Z] => destruct (Z.ltb_spec a b); try lia
    | |- context [(?a <=? ?b)%Z] => destruct (Z.leb_spec a b); try lia
    | |- context [(?a =? ?b)%Z] => destruct (Z.eqb_spec a b); try lia
    end.

Lemma parse_int_part_digits (ds : list digit) (rest : jsstring) :
  digit_free rest → ds ≠ [] →
  (length ds = 1 ∨ head ds ≠ Some d0) →
  parse_int_part (digits_string ds ++ rest) = Some (ds, rest).
Proof.
  intros Hr Hne Hz. unfold parse_int_part. rewrite take_digits_string by exact Hr.
  destruct ds as [|d [|d' ds]]; [done|reflexivity|].
  destruct Hz as [Hz|Hz]; [discriminate|]. destruct d; done.
Qed.

Lemma parse_frac_part_none (rest : jsstring) :
  delimited rest = true → parse_frac_part rest = Some ([], rest).
Proof.
  destruct rest as [|c r]; [reflexivity|]. unfold delimited, parse_frac_part.
  intros H. nhyp H. all: reflexivity.
Qed.

Lemma parse_frac_part_digits (fs : list digit) (rest : jsstring) :
  digit_free rest → fs ≠ [] →
  parse_frac_part (46%N :: digits_string fs ++ rest) = Some (fs, rest).
Proof.
  intros Hr Hne. unfold parse_frac_part. rewrite N.eqb_refl, take_digits_string by exact Hr.
  destruct fs; done.
Qed.

Lemma parse_exp_part_none (rest : jsstring) :
  delimited rest = true → parse_exp_part rest = Some (0%Z, rest).
Proof.
  destruct rest as [|c r]; [reflexivity|]. unfold delimited, parse_exp_part.
  intros H. nhyp H. all: reflexivity.
Qed.

Lemma parse_exp_part_digits (e : Z) (rest : jsstring) :
  digit_free rest →
  parse_exp_part
    (lit "e" ++ (if (e <? 0)%Z then lit "-" else lit "+") ++
     digits_string (N_digits (Z.to_N (Z.abs e))) ++ rest) = Some (e, rest).
Proof.
  intros Hr. change (lit "e") with [101%N]. change (lit "-") with [45%N].
  change (lit "+") with [43%N]. unfold parse_exp_part. cbn [app orb N.eqb Pos.eqb].
  destruct (Z.ltb_spec e 0); cbn [app N.eqb Pos.eqb];
    rewrite take_digits_string by exact Hr;
    pose proof (N_digits_nonempty (Z.to_N (Z.abs e)));
    destruct (N_digits (Z.to_N (Z.abs e))) eqn:E; try done;
    rewrite <- E, N_of_digits_N_digits; f_equal; f_equal; lia.
Qed.

Lemma digits_string_repeat (k : nat) : repeat 48%N k = digits_string (repeat d0 k).
Proof. induction k as [|k IH]; [reflexivity|]. cbn. rewrite IH. reflexivity. Qed.

Lemma digits_string_app (a b : list digit) :
  digits_string (a ++ b) = digits_string a ++ digits_string b.
Proof. apply map_app. Qed.

(** The unsigned part of a number text, read back. *)
Lemma parse_format_decimal (neg : bool) (ds : list digit) (n : Z) (rest : jsstring) :
  json_number (Dec neg ds n) = true → delimited rest = true →
  ('(int, s2) ← parse_int_part (format_decimal ds n ++ rest);
   '(fs, s3) ← parse_frac_part s2;
   '(e, s4) ← parse_exp_part s3;
   Some (read_decimal neg (int ++ fs) (Z.of_nat (length int) + e), s4))
  = Some (Dec neg ds n, rest).
Proof.
  intros Hj Hd.
  pose proof Hj as Hj'. cbn [json_number] in Hj'.
  apply andb_true_iff in Hj' as [[Hc _]%andb_true_iff _].
  pose proof (canonical_digits_spec ds Hc) as (Hne & Hh & Hl).
  pose proof (delimited_digit_free rest Hd) as Hf.
  unfold format_decimal.
  destruct ((-5 <=? n) && (n <=? 21))%Z eqn:Hrange;
    [apply andb_true_iff in Hrange as [H5%Z.leb_le H21%Z.leb_le];
     destruct (Z.leb_spec (Z.of_nat (length ds)) n) as [Hk|Hk];
     [|destruct (Z.ltb_spec 0 n) as [H0|H0]]|].
  - (* an integer: the digits, then zeros *)
    rewrite digits_string_repeat, <- digits_string_app.
    rewrite parse_int_part_digits; [|exact Hf|destruct ds; done|right; destruct ds; done].
    cbn [mbind option_bind]. rewrite parse_frac_part_none by exact Hd.
    cbn [mbind option_bind]. rewrite parse_exp_part_none by exact Hd.
    cbn [mbind option_bind]. rewrite app_nil_r, length_app, repeat_length.
    pose proof (read_decimal_padded neg ds 0 (Z.to_nat (n - Z.of_nat (length ds)))
                  (Z.of_nat (length ds + Z.to_nat (n - Z.of_nat (length ds))) + 0)) as R.
    cbn [repeat app] in R. rewrite R.
    + repeat f_equal. lia.
    + replace (_ - Z.of_nat 0)%Z with n by lia. exact Hj.
  - (* the decimal point inside the digits *)
    rewrite <- !app_assoc. change (lit ".") with [46%N]. cbn [app].
    rewrite parse_int_part_digits.
    + cbn [mbind option_bind]. rewrite parse_frac_part_digits.
      * cbn [mbind option_bind]. rewrite parse_exp_part_none by exact Hd.
        cbn [mbind option_bind]. rewrite take_drop, length_take.
        pose proof (read_decimal_padded neg ds 0 0
                      (Z.of_nat (Z.to_nat n `min` length ds) + 0)) as R.
        cbn [repeat app] in R. rewrite app_nil_r in R. rewrite R.
        -- repeat f_equal. lia.
        -- replace (_ - Z.of_nat 0)%Z with n by lia. exact Hj.
      * exact Hf.
      * intros E. apply (f_equal length) in E. rewrite length_drop in E. cbn in E. lia.
    + cbn. change 46%N with (N_of_ascii "."). reflexivity.
    + intros E. apply (f_equal length) in E. rewrite length_take in E. cbn in E. lia.
    + right. destruct ds as [|d ds]; [done|].
      destruct (Z.to_nat n) eqn:En; [lia|]. exact Hh.
  - (* zeros between the point and the digits *)
    change (lit "0.") with (digits_string [d0] ++ [46%N]).
    rewrite digits_string_repeat, <- !app_assoc.
    rewrite parse_int_part_digits; [|reflexivity|done|left; reflexivity].
    cbn [mbind option_bind app].
    rewrite (app_assoc (digits_string _)), <- digits_string_app.
    rewrite parse_frac_part_digits; [|exact Hf|destruct ds; [done|]; by destruct (Z.to_nat (- n))].
    cbn [mbind option_bind]. rewrite parse_exp_part_none by exact Hd.
    cbn [mbind option_bind].
    pose proof (read_decimal_padded neg ds (S (Z.to_nat (- n))) 0
                  (Z.of_nat (length [d0]) + 0)) as R.
    cbn [repeat app] in R. rewrite app_nil_r in R. cbn [app]. rewrite R.
    + repeat f_equal. cbn [length]. lia.
    + replace (_ - Z.of_nat _)%Z with n by (cbn [length]; lia). exact Hj.
  - (* exponent notation *)
    destruct ds as [|d [|d' ds]]; [done|..].
    + rewrite <- !app_assoc.
      rewrite parse_int_part_digits; [|reflexivity|done|left; reflexivity].
      cbn [mbind option_bind].
      replace (parse_frac_part (lit "e" ++ _)) with
        (Some ([] : list digit, lit "e" ++
           (if (n - 1 <? 0)%Z then lit "-" else lit "+") ++
           digits_string (N_digits (Z.to_N (Z.abs (n - 1)))) ++ rest))
        by reflexivity.
      cbn [mbind option_bind].
      rewrite parse_exp_part_digits by exact Hf. cbn [mbind option_bind].
      pose proof (read_decimal_padded neg [d] 0 0 (Z.of_nat (length [d]) + (n - 1))) as R.
      cbn [repeat app] in R |- *. rewrite R.
      * repeat f_equal. cbn [length]. lia.
      * replace (_ - Z.of_nat _)%Z with n by (cbn [length]; lia). exact Hj.
    + rewrite <- !app_assoc. change (lit ".") with [46%N]. cbn [app].
      rewrite (parse_int_part_digits [d]); [|reflexivity|done|left; reflexivity].
      cbn [mbind option_bind]. rewrite parse_frac_part_digits; [|reflexivity|done].
      cbn [mbind option_bind]. rewrite parse_exp_part_digits by exact Hf.
      cbn [mbind option_bind].
      pose proof (read_decimal_padded neg (d :: d' :: ds) 0 0
                    (Z.of_nat (length [d]) + (n - 1))) as R.
      cbn [repeat app] in R. rewrite app_nil_r in R. cbn [app]. rewrite R.
      * repeat f_equal. cbn [length]. lia.
      * replace (_ - Z.of_nat _)%Z with n by (cbn [length]; lia). exact Hj.
Qed.

Lemma format_decimal_head (ds : list digit) (n : Z) :
  ds ≠ [] → ∃ d t, format_decimal ds n = digit_char d :: t.
Proof.
  intros Hne. destruct ds as [|d ds]; [done|]. unfold format_decimal.
  destruct ((-5 <=? n) && (n <=? 21))%Z.
  - destruct (Z.leb_spec (Z.of_nat (length (d :: ds))) n); [by eexists _, _|].
    destruct (Z.ltb_spec 0 n).
    + destruct (Z.to_nat n) eqn:E; [lia|]. by eexists _, _.
    + by exists d0, (46%N :: repeat 48%N (Z.to_nat (- n)) ++ digits_string (d :: ds)).
  - destruct ds; by eexists _, _.
Qed.

(** A number that JSON text can carry is read back from its text. *)
Lemma parse_number_toString (x : JSNumber) (rest : jsstring) :
  json_number x = true → delimited rest = true →
  parse_number (Number_toString x ++ rest) = Some (x, rest).
Proof.
  intros Hj Hd. destruct x as [| |[]|neg ds n]; try discriminate.
  - (* zero *)
    change (Number_toString (Zero false) ++ rest) with (48%N :: rest).
    unfold parse_number. change (48 =? 45)%N with false. cbv iota.
    change (48%N :: rest) with (digits_string [d0] ++ rest).
    rewrite parse_int_part_digits
      by (done || (by left) || by apply delimited_digit_free).
    cbn [mbind option_bind].
    rewrite parse_frac_part_none by exact Hd. cbn [mbind option_bind].
    rewrite parse_exp_part_none by exact Hd. reflexivity.
  - pose proof (parse_format_decimal neg ds n rest Hj Hd) as R.
    cbn [Number_toString]. unfold parse_number. destruct neg.
    + change (lit "-") with [45%N]. cbn [app]. rewrite N.eqb_refl. exact R.
    + cbn [app]. destruct (format_decimal_head ds n) as (d & t & E).
      { cbn in Hj. destruct ds; done. }
      rewrite E in R |- *. cbn [app] in R |- *.
      pose proof (digit_char_range d). ncases. exact R.
Qed.

Lemma number_text_head (x : JSNumber) :
  json_number x = true →
  ∃ c t, Number_toString x = c :: t ∧
         (c = 45 ∨ 48 <= c <= 57)%N.
Proof.
  intros Hj. destruct x as [| |[]|neg ds n]; try discriminate.
  - exists 48%N, []. split; [reflexivity|lia].
  - cbn [Number_toString]. destruct neg.
    + eexists _, _. split; [reflexivity|]. left. reflexivity.
    + destruct (format_decimal_head ds n) as (d & t & E).
      { cbn in Hj. destruct ds; done. }
      rewrite E. eexists _, _. split; [reflexivity|].
      right. apply digit_char_range.
Qed.

(** ** Strings: reading back what QuoteJSONString writes *)

Lemma parse_unicode_escape (c : N) (t : jsstring) :
  (c < 65536)%N →
  parse_string_body (unicode_escape c ++ t) =
    match parse_string_body t with
    | Some (str, rest) => Some (c :: str, rest)
    | None => None
    end.
Proof.
  intros H. unfold unicode_escape. cbn [app parse_string_body].
  change (92 =? 34)%N with false. change (92 =? 92)%N with true.
  change (117 =? 117)%N with true. cbv iota.
  unfold hex4. rewrite !hex_lower_value by lia. cbn [mbind option_bind].
  replace (((c / 4096 mod 16 * 16 + c / 256 mod 16) * 16 + c / 16 mod 16) * 16
           + c mod 16)%N with c by lia.
  reflexivity.
Qed.

Lemma parse_quote_char (c : N) (t : jsstring) :
  is_high_surrogate c = false → is_low_surrogate c = false →
  parse_string_body (quote_char c ++ t) =
    match parse_string_body t with
    | Some (str, rest) => Some (c :: str, rest)
    | None => None
    end.
Proof.
  intros Hh Hl. unfold quote_char.
  destruct (N.eqb_spec c 8); [subst; reflexivity|].
  destruct (N.eqb_spec c 9); [subst; reflexivity|].
  destruct (N.eqb_spec c 10); [subst; reflexivity|].
  destruct (N.eqb_spec c 12); [subst; reflexivity|].
  destruct (N.eqb_spec c 13); [subst; reflexivity|].
  destruct (N.eqb_spec c 34); [subst; reflexivity|].
  destruct (N.eqb_spec c 92); [subst; reflexivity|].
  destruct (N.ltb_spec c 32).
  - apply parse_unicode_escape. lia.
  - cbn [app parse_string_body].
    ncases. reflexivity.
Qed.

Lemma parse_literal_unit (c : N) (t : jsstring) :
  (32 <= c)%N → c ≠ 34%N → c ≠ 92%N →
  parse_string_body (c :: t) =
    match parse_string_body t with
    | Some (str, rest) => Some (c :: str, rest)
    | None => None
    end.
Proof.
  intros. cbn [parse_string_body].
  ncases. reflexivity.
Qed.

Lemma parse_quote_chars (s rest : jsstring) :
  parse_string_body (quote_chars s ++ 34%N :: rest) = Some (s, rest).
Proof.
  induction s as [s IH] using (induction_ltof1 _ length). unfold ltof in IH.
  destruct s as [|c r]; [reflexivity|]. cbn [quote_chars].
  destruct (is_high_surrogate c) eqn:Hh.
  - assert (Hc : (55296 <= c <= 56319)%N)
      by (unfold is_high_surrogate in Hh; nhyp Hh; lia).
    destruct r as [|c2 r'].
    + rewrite parse_unicode_escape by lia. reflexivity.
    + destruct (is_low_surrogate c2) eqn:Hl.
      * assert (Hc2 : (56320 <= c2 <= 57343)%N)
          by (unfold is_low_surrogate in Hl; nhyp Hl; lia).
        cbn [app]. rewrite !parse_literal_unit by lia.
        rewrite IH by (cbn; lia). reflexivity.
      * rewrite <- app_assoc, parse_unicode_escape by lia.
        rewrite IH by (cbn; lia). reflexivity.
  - destruct (is_low_surrogate c) eqn:Hl.
    + assert (Hc : (56320 <= c <= 57343)%N)
        by (unfold is_low_surrogate in Hl; nhyp Hl; lia).
      rewrite <- app_assoc, parse_unicode_escape by lia.
      rewrite IH by (cbn; lia). reflexivity.
    + rewrite <- app_assoc, parse_quote_char by done.
      rewrite IH by (cbn; lia). reflexivity.
Qed.

(** ** Objects: a property list in order is rebuilt in order *)

Lemma obj_has_fresh {V} (k : jsstring) (ps : list (jsstring * V)) :
  forallb (λ k', negb (same_key k' k)) (map fst ps) = true →
  obj_has k ps = false.
Proof.
  induction ps as [|[k' v'] ps IH]; [reflexivity|]. cbn.
  intros [Hk Hr]%andb_true_iff. apply negb_true_iff in Hk. rewrite Hk.
  exact (IH Hr).
Qed.

Lemma obj_insert_last {V} (k : jsstring) (v : V) (ps : list (jsstring * V)) :
  forallb (λ k', key_before k' k) (map fst ps) = true →
  obj_insert k v ps = ps ++ [(k, v)].
Proof.
  induction ps as [|[k' v'] ps IH]; [reflexivity|]. cbn.
  intros [Hk Hr]%andb_true_iff. rewrite Hk, (IH Hr). reflexivity.
Qed.

Lemma ordered_keys_app (l1 l2 : list jsstring) (k : jsstring) :
  ordered_keys (l1 ++ k :: l2) = true →
  forallb (λ k', key_before k' k) l1 = true ∧
  forallb (λ k', negb (same_key k' k)) l1 = true.
Proof.
  induction l1 as [|k1 l1 IH]; [done|]. cbn [app ordered_keys forallb].
  intros [Hk Hr]%andb_true_iff. destruct (IH Hr) as [IH1 IH2].
  rewrite forallb_app in Hk. apply andb_true_iff in Hk as [_ Hk].
  cbn [forallb] in Hk. apply andb_true_iff in Hk as [Hk _].
  apply andb_true_iff in Hk as [Hb Hs]. rewrite Hb, Hs, IH1, IH2. done.
Qed.

(** Setting a property that comes next in the order appends it. *)
Lemma obj_set_next {V} (acc ps : list (jsstring * V)) (k : jsstring) (v : V) :
  ordered_keys (map fst (acc ++ (k, v) :: ps)) = true →
  obj_set k v acc = acc ++ [(k, v)].
Proof.
  rewrite map_app. cbn [map fst]. intros [H1 H2]%ordered_keys_app.
  unfold obj_set. rewrite obj_has_fresh by exact H2.
  apply obj_insert_last, H1.
Qed.

(** ** Induction on values *)

Lemma JSValue_induction (P : JSValue → Prop) :
  P JUndefined → P JNull → (∀ b, P (JBool b)) → (∀ x, P (JNumber x)) →
  (∀ s, P (JString s)) →
  (∀ vs, Forall P vs → P (JArray vs)) →
  (∀ ps, Forall (λ kv, P (snd kv)) ps → P (JObject ps)) →
  ∀ v, P v.
Proof.
  intros Hu Hn Hb Hx Hs Ha Ho.
  fix IH 1. intros [| |b|x|s|vs|ps]; [exact Hu|exact Hn|apply Hb|apply Hx|apply Hs|..].
  - apply Ha. induction vs as [|v vs IHvs]; constructor; [apply IH|exact IHvs].
  - apply Ho. induction ps as [|[k v] ps IHps]; constructor; [apply IH|exact IHps].
Qed.

(** ** Values: reading back what [JSON.stringify] writes *)

Lemma value_start_spec (c : N) (s : jsstring) :
  value_start c = true → skip_ws (c :: s) = c :: s ∧ (c =? 93)%N = false.
Proof.
  unfold value_start, skip_ws. cbn [drop_while].
  intros [Hw Hc]%andb_true_iff. apply negb_true_iff in Hw, Hc.
  rewrite Hw. done.
Qed.

Lemma parse_value_number (f : nat) (c : N) (t : jsstring) :
  (c = 45 ∨ 48 <= c <= 57)%N →
  parse_value (S f) (c :: t) =
    match parse_number (c :: t) with
    | Some (x, rest) => Ok (JNumber x) rest
    | None => Malformed
    end.
Proof.
  intros Hc. cbn [parse_value]. unfold skip_ws. cbn [drop_while].
  unfold is_json_ws.
  change (lit "true") with [116; 114; 117; 101]%N.
  change (lit "false") with [102; 97; 108; 115; 101]%N.
  change (lit "null") with [110; 117; 108; 108]%N.
  cbn [is_prefix].
  destruct (N.eqb_spec c 9); [lia|]. destruct (N.eqb_spec c 10); [lia|].
  destruct (N.eqb_spec c 13); [lia|]. destruct (N.eqb_spec c 32); [lia|].
  cbn [orb]. cbv iota.
  destruct (N.eqb_spec c 123); [lia|]. destruct (N.eqb_spec c 91); [lia|].
  destruct (N.eqb_spec c 34); [lia|]. destruct (N.eqb_spec 116 c); [lia|].
  destruct (N.eqb_spec 102 c); [lia|]. destruct (N.eqb_spec 110 c); [lia|].
  cbn [orb andb]. reflexivity.
Qed.

Lemma reads_back_null : reads_back JNull.
Proof.
  exists 110%N, [117; 108; 108]%N. repeat split.
  intros [|f] rest Hf _; [cbn in Hf; lia|]. reflexivity.
Qed.

Lemma reads_back_bool (b : bool) : reads_back (JBool b).
Proof.
  destruct b.
  - exists 116%N, [114; 117; 101]%N. repeat split.
    intros [|f] rest Hf _; [cbn in Hf; lia|]. reflexivity.
  - exists 102%N, [97; 108; 115; 101]%N. repeat split.
    intros [|f] rest Hf _; [cbn in Hf; lia|]. reflexivity.
Qed.

Lemma reads_back_number (x : JSNumber) :
  json_number x = true → reads_back (JNumber x).
Proof.
  intros Hj. destruct (number_text_head x Hj) as (c & t & E & Hc).
  exists c, t. split; [|split].
  - cbn [JSON_stringify]. replace (is_finite x) with true by (by destruct x).
    by rewrite E.
  - unfold value_start, is_json_ws. ncases; reflexivity.
  - intros [|f] rest Hf Hd; [cbn in Hf; lia|].
    change (c :: t ++ rest) with ((c :: t) ++ rest).
    pose proof (parse_number_toString x rest Hj Hd) as R. rewrite E in R.
    cbn [app] in R |- *. rewrite parse_value_number by exact Hc.
    rewrite R. reflexivity.
Qed.

Lemma reads_back_string (s : jsstring) : reads_back (JString s).
Proof.
  exists 34%N, (quote_chars s ++ [34%N]). repeat split.
  intros [|f] rest Hf _; [cbn in Hf; lia|].
  cbn [parse_value]. unfold skip_ws. cbn [drop_while].
  change (is_json_ws 34) with false. cbv iota.
  change (34 =? 123)%N with false. change (34 =? 91)%N with false.
  change (34 =? 34)%N with true. cbv iota.
  rewrite <- app_assoc. cbn [app]. rewrite parse_quote_chars. reflexivity.
Qed.

Lemma join_cons2 (sep a b : jsstring) (l : list jsstring) :
  join sep (a :: b :: l) = a ++ sep ++ join sep (b :: l).
Proof. reflexivity. Qed.

(** The elements of an array, one after the other. *)
Lemma parse_elements_texts (vs : list JSValue) :
  vs ≠ [] →
  Forall (λ v, json_value v = true → reads_back v) vs →
  forallb json_value vs = true →
  ∀ acc fuel rest,
    list_sum (map (λ e, S (weight e)) vs) ≤ fuel →
    parse_elements fuel
      (join (lit ",") (map (λ e, default (lit "null") (JSON_stringify e)) vs)
       ++ 93%N :: rest) acc
    = Ok (JArray (acc ++ vs)) rest.
Proof.
  intros Hne HF. induction HF as [|v tl Hv HF IH]; [done|]. clear Hne.
  cbn [forallb]. intros [Hj Htl]%andb_true_iff acc fuel rest Hfuel.
  destruct (Hv Hj) as (c & t & E & Hs & Hp).
  simpl in Hfuel.
  destruct fuel as [|f]; [lia|]. cbn [parse_elements].
  destruct tl as [|v' tl'].
  - cbn [map join]. rewrite E. cbn [default from_option id app].
    rewrite (Hp f (93%N :: rest)) by (reflexivity || (simpl in Hfuel; lia)).
    reflexivity.
  - cbn [map]. rewrite join_cons2, E. cbn [default from_option id].
    change (lit ",") with [44%N]. rewrite <- !app_assoc. cbn [app].
    rewrite (Hp f) by (reflexivity || (simpl in Hfuel |- *; lia)).
    unfold skip_ws at 1. cbn [drop_while]. change (is_json_ws 44) with false.
    cbv iota. rewrite N.eqb_refl.
    specialize (IH ltac:(done) Htl (acc ++ [v]) f rest).
    rewrite <- app_assoc in IH. cbn [app] in IH. apply IH.
    simpl in Hfuel |- *. lia.
Qed.

Lemma reads_back_array (vs : list JSValue) :
  Forall (λ v, json_value v = true → reads_back v) vs →
  json_value (JArray vs) = true → reads_back (JArray vs).
Proof.
  intros HF Hj. cbn [json_value] in Hj.
  exists 91%N,
    (join (lit ",") (map (λ e, default (lit "null") (JSON_stringify e)) vs)
     ++ [93%N]).
  split; [reflexivity|]. split; [reflexivity|].
  intros [|f] rest Hf _; [cbn in Hf; lia|].
  cbn [parse_value]. unfold skip_ws at 1. cbn [drop_while].
  change (is_json_ws 91) with false. cbv iota.
  change (91 =? 123)%N with false. change (91 =? 91)%N with true. cbv iota.
  rewrite <- app_assoc. cbn [app].
  destruct vs as [|v tl].
  - reflexivity.
  - pose proof (Forall_inv HF) as Hv. cbn [forallb] in Hj.
    pose proof Hj as [Hjv _]%andb_true_iff.
    destruct (Hv Hjv) as (c & t & E & Hs & _).
    pose proof (parse_elements_texts (v :: tl) ltac:(done) HF Hj [] f rest) as R.
    cbn [weight] in Hf. specialize (R ltac:(lia)).
    assert (∃ u, join (lit ",") (map (λ e, default (lit "null") (JSON_stringify e)) (v :: tl))
                 = c :: u) as [u Eu].
    { destruct tl; cbn [map join]; rewrite E; cbn [default from_option id app]; eauto. }
    rewrite Eu in R |- *. cbn [app] in R |- *.
    destruct (value_start_spec c (u ++ 93%N :: rest) Hs) as [-> ->].
    exact R.
Qed.

Lemma omap_member (kv : jsstring * JSValue) (ps : Props) (t : jsstring) :
  JSON_stringify (snd kv) = Some t →
  omap (λ kv, t ← JSON_stringify (snd kv); Some (quote (fst kv) ++ lit ":" ++ t))
    (kv :: ps) =
  (quote (fst kv) ++ lit ":" ++ t) ::
  omap (λ kv, t ← JSON_stringify (snd kv); Some (quote (fst kv) ++ lit ":" ++ t)) ps.
Proof. intros E. cbn [omap list_omap]. rewrite E. reflexivity. Qed.

(** The members of an object, one after the other. *)
Lemma parse_members_texts (ps : Props) :
  ps ≠ [] →
  Forall (λ kv, json_value (snd kv) = true → reads_back (snd kv)) ps →
  forallb (λ kv, json_value (snd kv)) ps = true →
  ∀ acc fuel rest,
    ordered_keys (map fst (acc ++ ps)) = true →
    list_sum (map (λ kv, S (weight (snd kv))) ps) ≤ fuel →
    parse_members fuel
      (join (lit ",")
         (omap (λ kv, t ← JSON_stringify (snd kv);
                      Some (quote (fst kv) ++ lit ":" ++ t)) ps)
       ++ 125%N :: rest) acc
    = Ok (JObject (acc ++ ps)) rest.
Proof.
  intros Hne HF. induction HF as [|[k v] tl Hv HF IH]; [done|]. clear Hne.
  cbn [forallb snd]. intros [Hj Htl]%andb_true_iff acc fuel rest Hord Hfuel.
  cbn [snd] in Hv. destruct (Hv Hj) as (c & t & E & Hs & Hp).
  simpl in Hfuel.
  destruct fuel as [|f]; [lia|].
  rewrite (omap_member (k, v) tl (c :: t)) by exact E. cbn [fst].
  pose proof (obj_set_next acc tl k v Hord) as Hset.
  assert (Hmember : ∀ tail,
    parse_string_body (quote_chars k ++ 34%N :: 58%N :: c :: t ++ tail)
      = Some (k, 58%N :: c :: t ++ tail)) by (intros; apply parse_quote_chars).
  destruct tl as [|kv' tl'].
  - cbn [omap list_omap join]. unfold quote. change (lit ":") with [58%N].
    rewrite <- !app_assoc. cbn [app parse_members].
    unfold skip_ws at 1. cbn [drop_while]. change (is_json_ws 34) with false.
    cbv iota. rewrite N.eqb_refl, Hmember.
    unfold skip_ws at 1. cbn [drop_while]. change (is_json_ws 58) with false.
    cbv iota. rewrite N.eqb_refl.
    rewrite (Hp f (125%N :: rest)) by (reflexivity || lia).
    rewrite Hset. reflexivity.
  - destruct kv' as [k' v'].
    assert (Hj' : json_value v' = true)
      by (cbn [forallb snd] in Htl; by apply andb_true_iff in Htl as [? _]).
    pose proof (Forall_inv HF) as Hv'. cbn [snd] in Hv'.
    destruct (Hv' Hj') as (c' & t' & E' & _).
    rewrite (omap_member (k', v') tl' (c' :: t')) by exact E'.
    rewrite join_cons2.
    rewrite <- (omap_member (k', v') tl' (c' :: t')) by exact E'.
    unfold quote at 1. change (lit ":") with [58%N]. change (lit ",") with [44%N].
    rewrite <- !app_assoc. cbn [app parse_members].
    unfold skip_ws at 1. cbn [drop_while]. change (is_json_ws 34) with false.
    cbv iota. rewrite N.eqb_refl, Hmember.
    unfold skip_ws at 1. cbn [drop_while]. change (is_json_ws 58) with false.
    cbv iota. rewrite N.eqb_refl.
    rewrite (Hp f) by (reflexivity || (simpl in Hfuel; lia)).
    unfold skip_ws at 1. cbn [drop_while]. change (is_json_ws 44) with false.
    cbv iota. rewrite N.eqb_refl, Hset.
    specialize (IH ltac:(done) Htl (acc ++ [(k, v)]) f rest).
    rewrite <- app_assoc in IH. cbn [app] in IH. apply IH; [exact Hord|].
    simpl in Hfuel |- *. lia.
Qed.

Lemma reads_back_object (ps : Props) :
  Forall (λ kv, json_value (snd kv) = true → reads_back (snd kv)) ps →
  json_value (JObject ps) = true → reads_back (JObject ps).
Proof.
  intros HF Hj. cbn [json_value] in Hj. apply andb_true_iff in Hj as [Hord Hj].
  exists 123%N,
    (join (lit ",")
       (omap (λ kv, t ← JSON_stringify (snd kv);
                    Some (quote (fst kv) ++ lit ":" ++ t)) ps) ++ [125%N]).
  split; [reflexivity|]. split; [reflexivity|].
  intros [|f] rest Hf _; [cbn in Hf; lia|].
  cbn [parse_value]. unfold skip_ws at 1. cbn [drop_while].
  change (is_json_ws 123) with false. cbv iota.
  change (123 =? 123)%N with true. cbv iota.
  rewrite <- app_assoc. cbn [app].
  destruct ps as [|[k v] tl].
  - reflexivity.
  - pose proof (Forall_inv HF) as Hv. cbn [forallb snd] in Hj, Hv.
    pose proof Hj as [Hjv _]%andb_true_iff.
    destruct (Hv Hjv) as (c & t & E & Hs & _).
    pose proof (parse_members_texts ((k, v) :: tl) ltac:(done) HF Hj [] f rest Hord) as R.
    cbn [weight] in Hf. specialize (R ltac:(lia)).
    assert (∃ u, join (lit ",")
                   (omap (λ kv, t ← JSON_stringify (snd kv);
                                Some (quote (fst kv) ++ lit ":" ++ t)) ((k, v) :: tl))
                 = 34%N :: u) as [u Eu].
    { rewrite (omap_member (k, v) tl (c :: t)) by exact E.
      destruct (omap _ tl); cbn [join]; unfold quote; cbn [app fst]; eauto. }
    rewrite Eu in R |- *. cbn [app] in R |- *.
    unfold skip_ws at 1. cbn [drop_while]. change (is_json_ws 34) with false.
    cbv iota. change (34 =? 125)%N with false. cbv iota. exact R.
Qed.

(** Every JSON value is read back from its text. *)
Lemma json_value_reads_back (v : JSValue) : json_value v = true → reads_back v.
Proof.
  induction v using JSValue_induction; intros Hj.
  - discriminate.
  - apply reads_back_null.
  - apply reads_back_bool.
  - by apply reads_back_number.
  - apply reads_back_string.
  - by apply reads_back_array.
  - by apply reads_back_object.
Qed.

(** ** The fuel that [JSON_parse] supplies is enough for a written text *)

Lemma weight_elements (vs : list JSValue) :
  Forall (λ v, json_value v = true →
               ∀ text, JSON_stringify v = Some text → weight v ≤ length text) vs →
  forallb json_value vs = true →
  list_sum (map (λ e, S (weight e)) vs) ≤
    S (length (join (lit ",") (map (λ e, default (lit "null") (JSON_stringify e)) vs))).
Proof.
  intros HF. induction HF as [|v tl Hv HF IH]; [cbn; lia|].
  cbn [forallb]. intros [Hj Htl]%andb_true_iff.
  destruct (json_value_reads_back v Hj) as (c & t & E & _).
  specialize (Hv Hj _ E). specialize (IH Htl).
  destruct tl as [|v' tl'].
  - cbn [map join list_sum]. rewrite E. cbn [default from_option id]. simpl list_sum. cbn [length] in *. lia.
  - cbn [map]. rewrite join_cons2, E. cbn [default from_option id].
    rewrite !length_app. change (length (lit ",")) with 1.
    cbn [map] in IH. simpl list_sum in IH |- *. cbn [length] in *. lia.
Qed.

Lemma weight_members (ps : Props) :
  Forall (λ kv, json_value (snd kv) = true →
                ∀ text, JSON_stringify (snd kv) = Some text →
                        weight (snd kv) ≤ length text) ps →
  forallb (λ kv, json_value (snd kv)) ps = true →
  list_sum (map (λ kv, S (weight (snd kv))) ps) ≤
    S (length (join (lit ",")
                 (omap (λ kv, t ← JSON_stringify (snd kv);
                              Some (quote (fst kv) ++ lit ":" ++ t)) ps))).
Proof.
  intros HF. induction HF as [|[k v] tl Hv HF IH]; [cbn; lia|].
  cbn [forallb snd]. intros [Hj Htl]%andb_true_iff. cbn [snd] in Hv.
  destruct (json_value_reads_back v Hj) as (c & t & E & _).
  specialize (Hv Hj _ E). specialize (IH Htl).
  rewrite (omap_member (k, v) tl (c :: t)) by exact E.
  destruct (omap _ tl) as [|m ms] eqn:Em.
  - cbn [join]. rewrite !length_app.
    assert (list_sum (map (λ kv, S (weight (snd kv))) tl) ≤ 1)
      by (cbn [join length] in IH; exact IH).
    simpl list_sum. unfold quote. rewrite !length_app. simpl length.
    cbn [length] in Hv. lia.
  - rewrite join_cons2, !length_app. change (length (lit ",")) with 1.
    simpl list_sum. unfold quote. change (lit ":") with [58%N].
    rewrite !length_app. cbn [length] in *. lia.
Qed.

Lemma weight_le_text (v : JSValue) :
  json_value v = true →
  ∀ text, JSON_stringify v = Some text → weight v ≤ length text.
Proof.
  induction v as [| |b|x|s|vs IH|ps IH] using JSValue_induction; intros Hj text E.
  - discriminate.
  - injection E as <-. vm_compute. lia.
  - injection E as <-. destruct b; vm_compute; lia.
  - destruct (json_value_reads_back _ Hj) as (c & t & E' & _).
    rewrite E in E'. injection E' as ->. cbn. lia.
  - injection E as <-. cbn. lia.
  - cbn [JSON_stringify] in E. apply (inj Some) in E as <-. cbn [json_value] in Hj.
    pose proof (weight_elements vs IH Hj).
    rewrite !length_app. change (length (lit "[")) with 1.
    change (length (lit "]")) with 1. cbn [weight]. lia.
  - cbn [JSON_stringify] in E. apply (inj Some) in E as <-. cbn [json_value] in Hj.
    apply andb_true_iff in Hj as [_ Hj].
    pose proof (weight_members ps IH Hj).
    rewrite !length_app. change (length (lit "{")) with 1.
    change (length (lit "}")) with 1. cbn [weight]. lia.
Qed.

(** [JSON.parse(JSON.stringify(v))] is [v] for every JSON value. *)
Lemma JSON_round_trip (v : JSValue) :
  json_value v = true →
  ∃ text, JSON_stringify v = Some text ∧ JSON_parse text = Some v.
Proof.
  intros Hj. destruct (json_value_reads_back v Hj) as (c & t & E & _ & Hp).
  exists (c :: t). split; [exact E|]. unfold JSON_parse.
  pose proof (weight_le_text v Hj _ E) as Hw.
  specialize (Hp (2 * length (c :: t) + 1) [] ltac:(lia) eq_refl).
  rewrite app_nil_r in Hp. rewrite Hp. reflexivity.
Qed.

(** ** The parser never runs out of the fuel that [JSON_parse] gives it *)

Lemma drop_while_length {A} (p : A → bool) (l : list A) :
  length (drop_while p l) ≤ length l.
Proof.
  induction l as [|x l IH]; [done|]. cbn. destruct (p x); cbn; lia.
Qed.

Lemma skip_ws_cons (s r : jsstring) (c : N) :
  skip_ws s = c :: r → length r < length s.
Proof.
  intros H. pose proof (drop_while_length is_json_ws s) as L.
  unfold skip_ws in H. rewrite H in L. cbn in L. lia.
Qed.

Lemma parse_string_body_shorter (s str rest : jsstring) :
  parse_string_body s = Some (str, rest) → length rest < length s.
Proof.
  revert str rest.
  induction s as [s IH] using (induction_ltof1 _ length). unfold ltof in IH.
  intros str rest. destruct s as [|c r]; [done|]. cbn [parse_string_body].
  destruct (c =? 34)%N; [intros [= _ <-]; cbn; lia|].
  destruct (c =? 92)%N.
  - destruct r as [|e r1]; [done|]. destruct (e =? 117)%N.
    + destruct r1 as [|h1 [|h2 [|h3 [|h4 r2]]]]; try done.
      destruct (hex4 h1 h2 h3 h4); [|done].
      destruct (parse_string_body r2) as [[str' rest']|] eqn:E; [|done].
      intros [= _ <-]. apply IH in E; cbn in *; lia.
    + destruct (unescape e); [|done].
      destruct (parse_string_body r1) as [[str' rest']|] eqn:E; [|done].
      intros [= _ <-]. apply IH in E; cbn in *; lia.
  - destruct (c <? 32)%N; [done|].
    destruct (parse_string_body r) as [[str' rest']|] eqn:E; [|done].
    intros [= _ <-]. apply IH in E; cbn in *; lia.
Qed.

Lemma take_digits_length (s rest : jsstring) (ds : list digit) :
  take_digits s = (ds, rest) → length s = length ds + length rest.
Proof.
  revert ds rest. induction s as [|c r IH]; intros ds rest; cbn [take_digits].
  - intros [= <- <-]. reflexivity.
  - destruct (char_digit c).
    + destruct (take_digits r) as [ds' rest'] eqn:E. intros [= <- <-].
      cbn. rewrite (IH _ _ eq_refl). lia.
    + intros [= <- <-]. reflexivity.
Qed.

Lemma parse_int_part_shorter (s rest : jsstring) (ds : list digit) :
  parse_int_part s = Some (ds, rest) → length rest < length s.
Proof.
  unfold parse_int_part. destruct (take_digits s) as [ds' rest'] eqn:E.
  apply take_digits_length in E. intros H.
  destruct ds' as [|d [|d' ds']]; [done|..].
  - injection H as <- <-. cbn in E. lia.
  - destruct (is_zero_digit d); [done|]. injection H as <- <-. cbn in E. lia.
Qed.

Lemma parse_frac_part_length (s rest : jsstring) (ds : list digit) :
  parse_frac_part s = Some (ds, rest) → length rest ≤ length s.
Proof.
  unfold parse_frac_part. destruct s as [|c r]; [intros [= _ <-]; done|].
  destruct (c =? 46)%N; [|intros [= _ <-]; done].
  destruct (take_digits r) as [ds' rest'] eqn:E.
  apply take_digits_length in E. destruct ds'; [done|].
  intros [= _ <-]. cbn in *. lia.
Qed.

Lemma parse_exp_part_length (s rest : jsstring) (e : Z) :
  parse_exp_part s = Some (e, rest) → length rest ≤ length s.
Proof.
  unfold parse_exp_part. destruct s as [|c r]; [intros [= _ <-]; done|].
  destruct ((c =? 101) || (c =? 69))%N; [|intros [= _ <-]; done].
  destruct r as [|c' r'].
  - cbn. done.
  - destruct (c' =? 45)%N; [|destruct (c' =? 43)%N];
      destruct (take_digits _) as [[|d es] r2] eqn:E; try done;
      apply take_digits_length in E; intros [= _ <-]; cbn in *; lia.
Qed.

Lemma parse_number_shorter (s rest : jsstring) (x : JSNumber) :
  parse_number s = Some (x, rest) → length rest < length s.
Proof.
  unfold parse_number.
  destruct s as [|c r].
  - intros H'. discriminate.
  - destruct (c =? 45)%N.
    + destruct (parse_int_part r) as [[int s2]|] eqn:E1; [|done].
      apply parse_int_part_shorter in E1. cbn [mbind option_bind].
      destruct (parse_frac_part s2) as [[fs s3]|] eqn:E2; [|done].
      apply parse_frac_part_length in E2. cbn [mbind option_bind].
      destruct (parse_exp_part s3) as [[e s4]|] eqn:E3; [|done].
      apply parse_exp_part_length in E3. cbn [mbind option_bind].
      intros [= _ <-]. cbn. lia.
    + destruct (parse_int_part (c :: r)) as [[int s2]|] eqn:E1; [|done].
      apply parse_int_part_shorter in E1. cbn [mbind option_bind].
      destruct (parse_frac_part s2) as [[fs s3]|] eqn:E2; [|done].
      apply parse_frac_part_length in E2. cbn [mbind option_bind].
      destruct (parse_exp_part s3) as [[e s4]|] eqn:E3; [|done].
      apply parse_exp_part_length in E3. cbn [mbind option_bind].
      intros [= _ <-]. lia.
Qed.

(** Each of the three parsers consumes at least one character. *)
Lemma parsers_consume (fuel : nat) :
  (∀ s v r, parse_value fuel s = Ok v r → length r < length s) ∧
  (∀ s acc v r, parse_elements fuel s acc = Ok v r → length r < length s) ∧
  (∀ s acc v r, parse_members fuel s acc = Ok v r → length r < length s).
Proof.
  induction fuel as [|f (IHv & IHe & IHm)]; [repeat split; intros; discriminate|].
  repeat split.
  - intros s v r. cbn [parse_value].
    destruct (skip_ws s) as [|c r0] eqn:E0; [done|]. apply skip_ws_cons in E0.
    destruct (c =? 123)%N.
    { destruct (skip_ws r0) as [|c' r'] eqn:E1; [done|]. apply skip_ws_cons in E1.
      destruct (c' =? 125)%N; [intros [= _ <-]; lia|].
      intros H%IHm. cbn in H. lia. }
    destruct (c =? 91)%N.
    { destruct (skip_ws r0) as [|c' r'] eqn:E1; [done|]. apply skip_ws_cons in E1.
      destruct (c' =? 93)%N; [intros [= _ <-]; lia|].
      intros H%IHe. cbn in H. lia. }
    destruct (c =? 34)%N.
    { destruct (parse_string_body r0) as [[str rest]|] eqn:E1; [|done].
      apply parse_string_body_shorter in E1. intros [= _ <-]. lia. }
    destruct (is_prefix _ _); [intros [= _ <-]; cbn; rewrite length_drop; lia|].
    destruct (is_prefix _ _); [intros [= _ <-]; cbn; rewrite length_drop; lia|].
    destruct (is_prefix _ _); [intros [= _ <-]; cbn; rewrite length_drop; lia|].
    destruct (parse_number (c :: r0)) as [[x rest]|] eqn:E1; [|done].
    apply parse_number_shorter in E1. intros [= _ <-]. cbn in E1. lia.
  - intros s acc v r. cbn [parse_elements].
    destruct (parse_value f s) as [v0 r0| |] eqn:E0; [|done..]. apply IHv in E0.
    destruct (skip_ws r0) as [|c r'] eqn:E1; [done|]. apply skip_ws_cons in E1.
    destruct (c =? 44)%N; [intros H%IHe; lia|].
    destruct (c =? 93)%N; [intros [= _ <-]; lia|done].
  - intros s acc v r. cbn [parse_members].
    destruct (skip_ws s) as [|c r0] eqn:E0; [done|]. apply skip_ws_cons in E0.
    destruct (c =? 34)%N; [|done].
    destruct (parse_string_body r0) as [[k r1]|] eqn:E1; [|done].
    apply parse_string_body_shorter in E1.
    destruct (skip_ws r1) as [|c1 r2] eqn:E2; [done|]. apply skip_ws_cons in E2.
    destruct (c1 =? 58)%N; [|done].
    destruct (parse_value f r2) as [v0 r3| |] eqn:E3; [|done..]. apply IHv in E3.
    destruct (skip_ws r3) as [|c3 r4] eqn:E4; [done|]. apply skip_ws_cons in E4.
    destruct (c3 =? 44)%N; [intros H%IHm; lia|].
    destruct (c3 =? 125)%N; [intros [= _ <-]; lia|done].
Qed.

Lemma parsers_fuel (fuel : nat) :
  (∀ s, 2 * length s + 1 ≤ fuel → parse_value fuel s ≠ Exhausted) ∧
  (∀ s acc, 2 * length s + 2 ≤ fuel → parse_elements fuel s acc ≠ Exhausted) ∧
  (∀ s acc, 2 * length s + 2 ≤ fuel → parse_members fuel s acc ≠ Exhausted).
Proof.
  induction fuel as [|f (IHv & IHe & IHm)]; [repeat split; intros; lia|].
  destruct (parsers_consume f) as (Cv & _ & _).
  repeat split.
  - intros s Hf. cbn [parse_value].
    destruct (skip_ws s) as [|c r0] eqn:E0; [done|]. apply skip_ws_cons in E0.
    destruct (c =? 123)%N.
    { destruct (skip_ws r0) as [|c' r'] eqn:E1; [done|]. apply skip_ws_cons in E1.
      destruct (c' =? 125)%N; [done|]. apply IHm. cbn. lia. }
    destruct (c =? 91)%N.
    { destruct (skip_ws r0) as [|c' r'] eqn:E1; [done|]. apply skip_ws_cons in E1.
      destruct (c' =? 93)%N; [done|]. apply IHe. cbn. lia. }
    repeat case_match; done.
  - intros s acc Hf. cbn [parse_elements].
    destruct (parse_value f s) as [v0 r0| |] eqn:E0; [|done|].
    + apply Cv in E0.
      destruct (skip_ws r0) as [|c r'] eqn:E1; [done|]. apply skip_ws_cons in E1.
      destruct (c =? 44)%N; [apply IHe; lia|]. by destruct (c =? 93)%N.
    + exfalso. revert E0. apply IHv. lia.
  - intros s acc Hf. cbn [parse_members].
    destruct (skip_ws s) as [|c r0] eqn:E0; [done|]. apply skip_ws_cons in E0.
    destruct (c =? 34)%N; [|done].
    destruct (parse_string_body r0) as [[k r1]|] eqn:E1; [|done].
    apply parse_string_body_shorter in E1.
    destruct (skip_ws r1) as [|c1 r2] eqn:E2; [done|]. apply skip_ws_cons in E2.
    destruct (c1 =? 58)%N; [|done].
    destruct (parse_value f r2) as [v0 r3| |] eqn:E3; [|done|].
    + apply Cv in E3.
      destruct (skip_ws r3) as [|c3 r4] eqn:E4; [done|]. apply skip_ws_cons in E4.
      destruct (c3 =? 44)%N; [apply IHm; lia|]. by destruct (c3 =? 125)%N.
    + exfalso. revert E3. apply IHv. lia.
Qed.

(** [JSON_parse] answers [None] only for a text that is not JSON: the fuel
    it hands to [parse_value] is never used up. *)
Lemma parse_value_fuel (text : jsstring) :
  parse_value (2 * length text + 1) text ≠ Exhausted.
Proof. apply parsers_fuel. lia. Qed.

(** More fuel changes nothing once the parser has an answer. *)
Lemma parsers_monotone (fuel : nat) :
  (∀ s f', fuel ≤ f' → parse_value fuel s ≠ Exhausted →
           parse_value f' s = parse_value fuel s) ∧
  (∀ s acc f', fuel ≤ f' → parse_elements fuel s acc ≠ Exhausted →
               parse_elements f' s acc = parse_elements fuel s acc) ∧
  (∀ s acc f', fuel ≤ f' → parse_members fuel s acc ≠ Exhausted →
               parse_members f' s acc = parse_members fuel s acc).
Proof.
  induction fuel as [|f (IHv & IHe & IHm)]; [repeat split; intros; done|].
  repeat split.
  - intros s [|f'] Hf; [lia|]. cbn [parse_value].
    destruct (skip_ws s) as [|c r0]; [done|].
    destruct (c =? 123)%N.
    { destruct (skip_ws r0) as [|c' r']; [done|].
      destruct (c' =? 125)%N; [done|]. apply IHm. lia. }
    destruct (c =? 91)%N.
    { destruct (skip_ws r0) as [|c' r']; [done|].
      destruct (c' =? 93)%N; [done|]. apply IHe. lia. }
    done.
  - intros s acc [|f'] Hf; [lia|]. cbn [parse_elements].
    destruct (parse_value f s) as [v0 r0| |] eqn:E0; [| |done].
    + rewrite (IHv s f') by (lia || congruence). rewrite E0.
      destruct (skip_ws r0) as [|c r']; [done|].
      destruct (c =? 44)%N; [apply IHe; lia|done].
    + rewrite (IHv s f') by (lia || congruence). rewrite E0. done.
  - intros s acc [|f'] Hf; [lia|]. cbn [parse_members].
    destruct (skip_ws s) as [|c r0]; [done|].
    destruct (c =? 34)%N; [|done].
    destruct (parse_string_body r0) as [[k r1]|]; [|done].
    destruct (skip_ws r1) as [|c1 r2]; [done|].
    destruct (c1 =? 58)%N; [|done].
    destruct (parse_value f r2) as [v0 r3| |] eqn:E3; [| |done].
    + rewrite (IHv r2 f') by (lia || congruence). rewrite E3.
      destruct (skip_ws r3) as [|c3 r4]; [done|].
      destruct (c3 =? 44)%N; [apply IHm; lia|done].
    + rewrite (IHv r2 f') by (lia || congruence). rewrite E3. done.
Qed.

(** ** A string inside a parsed value is shorter than the text *)

Lemma parse_string_body_bound (s str rest : jsstring) :
  parse_string_body s = Some (str, rest) →
  length str + length rest < length s.
Proof.
  revert str rest.
  induction s as [s IH] using (induction_ltof1 _ length). unfold ltof in IH.
  intros str rest. destruct s as [|c r]; [done|]. cbn [parse_string_body].
  destruct (c =? 34)%N; [intros [= <- <-]; cbn; lia|].
  destruct (c =? 92)%N.
  - destruct r as [|e r1]; [done|]. destruct (e =? 117)%N.
    + destruct r1 as [|h1 [|h2 [|h3 [|h4 r2]]]]; try done.
      destruct (hex4 h1 h2 h3 h4); [|done].
      destruct (parse_string_body r2) as [[str' rest']|] eqn:E; [|done].
      intros [= <- <-]. apply IH in E; cbn in *; lia.
    + destruct (unescape e); [|done].
      destruct (parse_string_body r1) as [[str' rest']|] eqn:E; [|done].
      intros [= <- <-]. apply IH in E; cbn in *; lia.
  - destruct (c <? 32)%N; [done|].
    destruct (parse_string_body r) as [[str' rest']|] eqn:E; [|done].
    intros [= <- <-]. apply IH in E; cbn in *; lia.
Qed.

(** What the two loops build. *)
Lemma parsers_shape (fuel : nat) :
  (∀ s acc v r, parse_elements fuel s acc = Ok v r → ∃ vs, v = JArray vs) ∧
  (∀ s acc v r, parse_members fuel s acc = Ok v r → ∃ ps, v = JObject ps).
Proof.
  induction fuel as [|f [IHe IHm]]; [split; intros; discriminate|].
  split.
  - intros s acc v r. cbn [parse_elements].
    destruct (parse_value f s) as [v0 r0| |]; [|done..].
    destruct (skip_ws r0) as [|c r']; [done|].
    destruct (c =? 44)%N; [apply IHe|].
    destruct (c =? 93)%N; [intros [= <- _]; eauto|done].
  - intros s acc v r. cbn [parse_members].
    destruct (skip_ws s) as [|c r0]; [done|].
    destruct (c =? 34)%N; [|done].
    destruct (parse_string_body r0) as [[k r1]|]; [|done].
    destruct (skip_ws r1) as [|c1 r2]; [done|].
    destruct (c1 =? 58)%N; [|done].
    destruct (parse_value f r2) as [v0 r3| |]; [|done..].
    destruct (skip_ws r3) as [|c3 r4]; [done|].
    destruct (c3 =? 44)%N; [apply IHm|].
    destruct (c3 =? 125)%N; [intros [= <- _]; eauto|done].
Qed.

Lemma parse_value_string (fuel : nat) (s str r : jsstring) :
  parse_value fuel s = Ok (JString str) r → length str < length s.
Proof.
  destruct fuel as [|f]; [done|]. cbn [parse_value].
  destruct (skip_ws s) as [|c r0] eqn:E0; [done|]. apply skip_ws_cons in E0.
  destruct (c =? 123)%N.
  { destruct (skip_ws r0) as [|c' r']; [done|].
    destruct (c' =? 125)%N; [done|].
    intros H. apply (proj2 (parsers_shape f)) in H as [? ?]. done. }
  destruct (c =? 91)%N.
  { destruct (skip_ws r0) as [|c' r']; [done|].
    destruct (c' =? 93)%N; [done|].
    intros H. apply (proj1 (parsers_shape f)) in H as [? ?]. done. }
  destruct (c =? 34)%N.
  { destruct (parse_string_body r0) as [[str' rest]|] eqn:E1; [|done].
    apply parse_string_body_bound in E1. intros [= <- _]. lia. }
  repeat case_match; done.
Qed.

Lemma obj_set_values {V} (Q : V → Prop) (k : jsstring) (v : V)
    (ps : list (jsstring * V)) :
  Forall (λ kv, Q (snd kv)) ps → Q v →
  Forall (λ kv, Q (snd kv)) (obj_set k v ps).
Proof.
  intros HF Hv. unfold obj_set. destruct (obj_has k ps).
  - induction HF as [|[k' v'] ps Hkv HF IH]; [constructor|]. cbn.
    destruct (same_key k' k); constructor; done.
  - induction HF as [|[k' v'] ps Hkv HF IH]; [by repeat constructor|]. cbn.
    destruct (key_before k' k); repeat constructor; done.
Qed.

(** Every string that is the value of a member is shorter than the text
    the members were read from. *)
Lemma parse_members_values (n : nat) (fuel : nat) :
  ∀ s acc ps r,
    length s ≤ n →
    Forall (λ kv, ∀ str, snd kv = JString str → length str < n) acc →
    parse_members fuel s acc = Ok (JObject ps) r →
    Forall (λ kv, ∀ str, snd kv = JString str → length str < n) ps.
Proof.
  induction fuel as [|f IH]; [done|]. intros s acc ps r Hs Hacc.
  cbn [parse_members].
  destruct (skip_ws s) as [|c r0] eqn:E0; [done|]. apply skip_ws_cons in E0.
  destruct (c =? 34)%N; [|done].
  destruct (parse_string_body r0) as [[k r1]|] eqn:E1; [|done].
  apply parse_string_body_shorter in E1.
  destruct (skip_ws r1) as [|c1 r2] eqn:E2; [done|]. apply skip_ws_cons in E2.
  destruct (c1 =? 58)%N; [|done].
  destruct (parse_value f r2) as [v0 r3| |] eqn:E3; [|done..].
  assert (Hv0 : ∀ str, v0 = JString str → length str < n).
  { intros str ->. apply parse_value_string in E3. lia. }
  apply (proj1 (parsers_consume f)) in E3.
  destruct (skip_ws r3) as [|c3 r4] eqn:E4; [done|]. apply skip_ws_cons in E4.
  pose proof (obj_set_values (λ x, ∀ str, x = JString str → length str < n)
                k v0 acc Hacc Hv0) as Hset.
  destruct (c3 =? 44)%N; [apply IH; [lia|exact Hset]|].
  destruct (c3 =? 125)%N; [intros [= <-]; exact Hset|done].
Qed.

Lemma obj_lookup_elem {V} (k : jsstring) (v : V) (ps : list (jsstring * V)) :
  obj_lookup k ps = Some v → ∃ k', (k', v) ∈ ps.
Proof.
  induction ps as [|[k' v'] ps IH]; [done|]. cbn.
  destruct (same_key k' k).
  - intros [= ->]. exists k'. left.
  - intros H. destruct (IH H) as [k0 Hk0]. exists k0. by right.
Qed.

(** The [result] field of a parsed body is never the body text itself. *)
Lemma result_is_not_the_text (body : jsstring) (v res : JSValue) :
  JSON_parse body = Some v → get_prop v (lit "result") = Some res →
  res ≠ JString body.
Proof.
  unfold JSON_parse.
  destruct (parse_value _ body) as [v0 rest| |] eqn:E; [|done..].
  destruct (skip_ws rest); [|done]. intros [= ->] Hres ->.
  destruct v as [| | | | |vs|ps]; try discriminate.
  cbn in Hres.
  destruct (obj_lookup (lit "result") ps) as [x|] eqn:El; [|discriminate].
  injection Hres as ->. apply obj_lookup_elem in El as [k Hk].
  assert (Forall (λ kv, ∀ str, snd kv = JString str → length str < length body) ps)
    as HF.
  { revert E. generalize (2 * length body + 1). intros [|f]; [done|].
    cbn [parse_value].
    destruct (skip_ws body) as [|c r0] eqn:E0; [done|]. apply skip_ws_cons in E0.
    destruct (c =? 123)%N.
    - destruct (skip_ws r0) as [|c' r'] eqn:E1; [done|].
      pose proof (drop_while_length is_json_ws r0) as L. unfold skip_ws in E1.
      rewrite E1 in L.
      destruct (c' =? 125)%N; [intros [= <- _]; constructor|].
      apply parse_members_values; [lia|constructor].
    - destruct (c =? 91)%N.
      + destruct (skip_ws r0) as [|c' r']; [done|].
        destruct (c' =? 93)%N; [done|].
        intros H. apply (proj1 (parsers_shape f)) in H as [? ?]. done.
      + repeat case_match; done. }
  apply list_elem_of_In in Hk.
  rewrite Forall_forall in HF. specialize (HF _ Hk body eq_refl). lia.
Qed.

(** ** The endpoint methods all go through [request] *)

Section Routing.
Variable P : Platform.
Variable this : QdrantClientImpl.

(** The request that [request] hands to [fetch]. *)
Lemma request_no_url endpoint options t :
  this_baseUrl this = [] →
  request P this endpoint options t =
    (Throws (AuthenticationError
               (lit "No Qdrant URL provided. Set X-Qdrant-Base-URL header.")), t).
Proof. intros H. unfold request. rewrite H. reflexivity. Qed.

Ltac unfold_methods :=
  unfold getVersion, getTelemetry, getMetrics, getLocks, setLocks,
    listCollections, getCollection, collectionExists, createCollection,
    updateCollection, deleteCollection, listAliases, getCollectionAliases,
    updateAliases, upsertPoints, getPoints, getPoint, deletePoints,
    scrollPoints, countPoints, updateVectors, deleteVectors, setPayload,
    overwritePayload, deletePayload, clearPayload, batchUpdate, search,
    searchBatch, query, queryBatch, queryGroups, recommend, recommendBatch,
    recommendGroups, discover, discoverBatch, searchMatrixPairs,
    searchMatrixOffsets, listSnapshots, createSnapshot, deleteSnapshot,
    recoverSnapshot, listFullSnapshots, createFullSnapshot,
    deleteFullSnapshot, getClusterStatus, recoverCluster, removePeer,
    getCollectionClusterInfo, updateCollectionCluster, createShardKey,
    deleteShardKey, createFieldIndex, deleteFieldIndex.

Lemma invoke_cases call t :
  (∃ s, encodeURIComponent s = None ∧
        invoke P this call t = (Throws (EngineError (UriMalformed s)), t)) ∨
  (∃ endpoint options,
     invoke P this call t =
       (apply_post (post_of call) (fst (request P this endpoint options t)),
        snd (request P this endpoint options t))).
Proof.
  destruct call; cbn [invoke post_of]; unfold_methods;
    unfold encoded, or_fault, bind, ret, throw;
    repeat match goal with
      | |- context [encodeURIComponent ?s] =>
          let E := fresh "E" in
          destruct (encodeURIComponent s) eqn:E;
          [ | left; eexists; split; [exact E | reflexivity] ]
      end;
    right;
    match goal with
    | |- context [request P this ?e ?o t] =>
        exists e, o; destruct (request P this e o t) as [[v|err] t'] eqn:R
    end; cbn [apply_post fst snd]; try reflexivity.
  - destruct (get_prop v (lit "exists")); reflexivity.
Qed.

(** Without base URL a method gets as far as its path arguments allow: the
    first one that cannot be encoded throws its URIError, and when all of
    them can be encoded [request] throws before it reaches [fetch]. *)
Lemma invoke_no_url call t :
  this_baseUrl this = [] →
  invoke P this call t =
    (Throws match refused (path_arguments call) with
            | Some s => EngineError (UriMalformed s)
            | None =>
                AuthenticationError
                  (lit "No Qdrant URL provided. Set X-Qdrant-Base-URL header.")
            end, t).
Proof.
  intros Hb.
  destruct call; cbn [invoke path_arguments refused]; unfold_methods;
    unfold encoded, or_fault, bind, ret, throw;
    repeat match goal with
      | |- context [encodeURIComponent ?s] =>
          destruct (encodeURIComponent s) eqn:?; [|reflexivity]
      end;
    rewrite request_no_url by exact Hb; reflexivity.
Qed.
End Routing.

Section Routine.
Variable P : Platform.
Variable this : QdrantClientImpl.

Lemma request_net_calls endpoint options t :
  net_calls (snd (request P this endpoint options t)) =
    if truthy_string (this_baseUrl this)
    then net_calls t ++ [fetch_call this endpoint options]
    else net_calls t.
Proof.
  unfold request, bind, fetch, text, json, or_fault, ret, throw, bind, text.
  destruct (truthy_string (this_baseUrl this)); cbn [negb]; [|reflexivity].
  repeat case_match; simplify_eq; reflexivity.
Qed.

Lemma request_answered endpoint options t r :
  answered P t (snd (request P this endpoint options t)) r →
  truthy_string (this_baseUrl this) = true ∧
  remote P (fetch_call this endpoint options) = Responds r.
Proof.
  intros (c & Hc & Hr). rewrite request_net_calls in Hc.
  destruct (truthy_string (this_baseUrl this)).
  - apply app_inj_tail in Hc as [_ ->]. done.
  - exfalso. apply (f_equal length) in Hc. rewrite length_app in Hc.
    cbn in Hc. lia.
Qed.

(** Every endpoint method that got an answer got it through [request]. *)
Lemma invoke_answered call t r :
  answered P t (snd (invoke P this call t)) r →
  ∃ endpoint options,
    answered P t (snd (request P this endpoint options t)) r ∧
    invoke P this call t =
      (apply_post (post_of call) (fst (request P this endpoint options t)),
       snd (request P this endpoint options t)).
Proof.
  intros H. destruct (invoke_cases P this call t) as [(s & _ & E)|(e & o & E)].
  - rewrite E in H. destruct H as (c & Hc & _). exfalso.
    apply (f_equal length) in Hc. rewrite length_app in Hc. cbn in Hc. lia.
  - exists e, o. rewrite E in H. done.
Qed.
End Routine.

(** ** Path segments *)

Lemma hex_digit_upper_segment (n : N) :
  (n < 16)%N → segment_char (hex_digit_upper n) = true.
Proof.
  intros H. unfold segment_char, is_unreserved, is_alnum, hex_digit_upper.
  ncases; reflexivity.
Qed.

Lemma encode_point_segment (cp : N) :
  (cp < 1114112)%N → Forall (λ c, segment_char c = true) (encode_point cp).
Proof.
  intros H. unfold encode_point. destruct (is_unreserved cp) eqn:U.
  - constructor; [|constructor]. unfold segment_char. by rewrite U.
  - pose proof (utf8_octets_bytes cp H) as Hb.
    induction Hb as [|b bs Hb _ IH]; cbn [flat_map]; [constructor|].
    apply Forall_app. split; [|exact IH].
    unfold percent. repeat constructor.
    + apply hex_digit_upper_segment. lia.
    + apply hex_digit_upper_segment. lia.
Qed.

(** What [encodeURIComponent] writes for a well-formed string holds
    unreserved characters and percent signs only. *)
Lemma encode_uri_component_segment (s t : jsstring) :
  well_formed_utf16 s = true → encodeURIComponent s = Some t →
  Forall (λ c, segment_char c = true) t.
Proof.
  revert t. induction s as [s IH] using (induction_ltof1 _ length).
  unfold ltof in IH. intros t.
  destruct s as [|c r]; [intros _ [= <-]; constructor|].
  cbn [well_formed_utf16 encodeURIComponent].
  destruct (is_high_surrogate c) eqn:Hh.
  - destruct r as [|c2 r']; [discriminate|].
    intros [Hl Hr]%andb_true_iff. rewrite Hl.
    destruct (encodeURIComponent r') as [t'|] eqn:E; [|discriminate].
    cbn [mbind option_bind]. intros [= <-].
    apply Forall_app. split.
    + apply encode_point_segment. unfold pair_point.
      unfold is_high_surrogate in Hh. unfold is_low_surrogate in Hl.
      nhyp Hh; nhyp Hl; try lia.
    + apply (IH r'); [cbn; lia | exact Hr | exact E].
  - intros [[Hl Hc]%andb_true_iff Hr]%andb_true_iff.
    apply negb_true_iff in Hl. rewrite Hl.
    destruct (encodeURIComponent r) as [t'|] eqn:E; [|discriminate].
    cbn [mbind option_bind]. intros [= <-].
    apply Forall_app. split.
    + apply encode_point_segment. nhyp Hc; try lia.
    + apply (IH r); [cbn; lia | exact Hr | exact E].
Qed.

(** ** The connectivity test, step by step *)

(** [testConnection] never throws: what [getVersion] throws, the read of
    [version] on [undefined] or [null], and a [version] that has no string
    conversion all end in the [catch] block. *)
Lemma testConnection_unfold P this t :
  testConnection P this t =
    (Returns
       match fst (getVersion P this t) with
       | Throws e =>
           {| connected := false;
              message := if instanceof_Error e then error_message P e
                         else lit "Connection failed" |}
       | Returns info =>
           match get_prop info (lit "version") with
           | Some v =>
               match ToString v with
               | Some s =>
                   {| connected := true;
                      message := lit "Connected to Qdrant " ++ s |}
               | None =>
                   {| connected := false;
                      message := fault_message P (NotPrimitive v) |}
               end
           | None =>
               {| connected := false;
                  message := fault_message P (ReadOfNullish info (lit "version")) |}
           end
       end,
     snd (getVersion P this t)).
Proof.
  unfold testConnection, try_catch, bind, or_fault, ret, throw.
  destruct (getVersion P this t) as [[info|e] t']; cbn [fst snd].
  - destruct (get_prop info (lit "version")) as [v|]; [|reflexivity].
    destruct (ToString v); reflexivity.
  - reflexivity.
Qed.

(** ** Array indices name one key each *)

Lemma char_digit_inv (c : N) (d : digit) : char_digit c = Some d → c = digit_char d.
Proof.
  unfold char_digit, digit_char.
  destruct ((48 <=? c) && (c <=? 57))%N eqn:E; [|discriminate].
  intros [= <-]. rewrite N_of_digit_of_N.
  apply andb_true_iff in E as [?%N.leb_le ?%N.leb_le]. lia.
Qed.

Lemma take_digits_all (k : jsstring) (ds : list digit) :
  take_digits k = (ds, []) → k = digits_string ds.
Proof.
  revert ds. induction k as [|c r IH]; intros ds; cbn [take_digits].
  - by intros [= <-].
  - destruct (char_digit c) as [d|] eqn:E; [|discriminate].
    destruct (take_digits r) as [ds' rest]. intros [= <- ->].
    cbn [digits_string map]. f_equal.
    + by apply char_digit_inv.
    + by apply IH.
Qed.

Lemma N_of_digits_fold (ds : list digit) (a : N) :
  (fold_left (λ a d, 10 * a + N_of_digit d) ds a =
   a * 10 ^ N.of_nat (length ds) + N_of_digits ds)%N.
Proof.
  unfold N_of_digits. revert a. induction ds as [|d r IH]; intros a.
  - cbn. lia.
  - cbn [fold_left length]. rewrite IH, (IH (10 * 0 + N_of_digit d)%N).
    rewrite Nat2N.inj_succ, N.pow_succ_r'. lia.
Qed.

Lemma N_of_digits_cons (d : digit) (r : list digit) :
  (N_of_digits (d :: r) = N_of_digit d * 10 ^ N.of_nat (length r) + N_of_digits r)%N.
Proof.
  unfold N_of_digits at 1. cbn [fold_left]. rewrite N_of_digits_fold. lia.
Qed.

Lemma N_of_digit_bound (d : digit) : (N_of_digit d < 10)%N.
Proof. destruct d; cbn; lia. Qed.

Lemma N_of_digits_bound (ds : list digit) :
  (N_of_digits ds < 10 ^ N.of_nat (length ds))%N.
Proof.
  induction ds as [|d r IH]; [cbn; lia|].
  rewrite N_of_digits_cons. cbn [length]. rewrite Nat2N.inj_succ, N.pow_succ_r'.
  pose proof (N_of_digit_bound d). nia.
Qed.

Lemma N_of_digits_same_length (ds ds' : list digit) :
  length ds = length ds' → N_of_digits ds = N_of_digits ds' → ds = ds'.
Proof.
  revert ds'. induction ds as [|d r IH]; intros [|d' r']; try done.
  cbn [length]. intros [= Hl]. rewrite !N_of_digits_cons, <- Hl. intros H.
  pose proof (N_of_digits_bound r). pose proof (N_of_digits_bound r') as Hr'.
  rewrite <- Hl in Hr'.
  set (p := (10 ^ N.of_nat (length r))%N) in *.
  assert (N_of_digit d = N_of_digit d') as Hd.
  { destruct (N.lt_trichotomy (N_of_digit d) (N_of_digit d')) as [Hlt|[?|Hlt]];
      [|done|]; exfalso.
    - assert ((N_of_digit d + 1) * p <= N_of_digit d' * p)%N
        by (apply N.mul_le_mono_r; lia). lia.
    - assert ((N_of_digit d' + 1) * p <= N_of_digit d * p)%N
        by (apply N.mul_le_mono_r; lia). lia. }
  assert (N_of_digits r = N_of_digits r') as Hr by (rewrite Hd in H; lia).
  f_equal; [by destruct d, d'|by apply IH].
Qed.

Lemma index_digits_length (ds ds' : list digit) :
  index_digits ds → index_digits ds' → N_of_digits ds = N_of_digits ds' →
  length ds ≤ length ds'.
Proof.
  intros Hc Hc' H.
  destruct (decide (length ds ≤ length ds')) as [|Hlt]; [done|]. exfalso.
  destruct ds as [|d [|e r]]; [done|cbn in Hlt; destruct ds'; [done|cbn in Hlt; lia]|].
  cbn in Hc. pose proof (N_of_digits_bound ds') as Hb.
  rewrite <- H, N_of_digits_cons in Hb.
  assert (1 <= N_of_digit d)%N by (destruct d; cbn in *; try done; lia).
  assert (10 ^ N.of_nat (length ds') <= 10 ^ N.of_nat (length (e :: r)))%N
    by (apply N.pow_le_mono_r; [lia|cbn [length] in *; lia]).
  set (p := (10 ^ N.of_nat (length (e :: r)))%N) in *.
  assert (1 * p <= N_of_digit d * p)%N by (apply N.mul_le_mono_r; lia).
  lia.
Qed.

Lemma array_index_digits (k : jsstring) (i : N) :
  array_index k = Some i →
  ∃ ds, k = digits_string ds ∧ index_digits ds ∧ i = N_of_digits ds.
Proof.
  unfold array_index. destruct (take_digits k) as [ds rest] eqn:E.
  destruct rest; [|discriminate]. apply take_digits_all in E.
  destruct ds as [|d [|e r]]; [discriminate| |].
  - intros [= <-]. by exists [d].
  - destruct (is_zero_digit d) eqn:Z; [discriminate|].
    case_match; [|discriminate]. intros [= <-]. by exists (d :: e :: r).
Qed.

Lemma array_index_inj (a b : jsstring) (i : N) :
  array_index a = Some i → array_index b = Some i → a = b.
Proof.
  intros (ds & -> & Hc & ->)%array_index_digits (ds' & -> & Hc' & H)%array_index_digits.
  f_equal. apply N_of_digits_same_length; [|done].
  apply Nat.le_antisymm; by apply index_digits_length.
Qed.

(** ** Property lists *)

Lemma same_key_refl (k : jsstring) : same_key k k = true.
Proof. unfold same_key. by apply bool_decide_eq_true. Qed.

Lemma same_key_eq (a b : jsstring) : same_key a b = true → a = b.
Proof. unfold same_key. by intros ?%bool_decide_eq_true. Qed.

Lemma same_key_sym (a b : jsstring) : same_key a b = same_key b a.
Proof. unfold same_key. apply bool_decide_ext. split; congruence. Qed.

Lemma obj_lookup_fresh {V} (k : jsstring) (ps : list (jsstring * V)) :
  obj_has k ps = false → obj_lookup k ps = None.
Proof.
  induction ps as [|[k' v'] ps IH]; [done|]. cbn.
  destruct (same_key k' k); [done|]. exact IH.
Qed.

Lemma obj_lookup_replace {V} (k k' : jsstring) (v : V) (ps : list (jsstring * V)) :
  obj_has k' ps = true →
  obj_lookup k (obj_replace k' v ps) =
    if same_key k' k then Some v else obj_lookup k ps.
Proof.
  induction ps as [|[k0 v0] ps IH]; [done|]. cbn.
  destruct (same_key k0 k') eqn:E0.
  - intros _. apply same_key_eq in E0 as ->. cbn.
    destruct (same_key k' k); reflexivity.
  - cbn. intros H. rewrite (IH H).
    destruct (same_key k0 k) eqn:E1; [|reflexivity].
    apply same_key_eq in E1 as ->. rewrite same_key_sym, E0. reflexivity.
Qed.

Lemma obj_lookup_insert {V} (k k' : jsstring) (v : V) (ps : list (jsstring * V)) :
  obj_has k' ps = false →
  obj_lookup k (obj_insert k' v ps) =
    if same_key k' k then Some v else obj_lookup k ps.
Proof.
  induction ps as [|[k0 v0] ps IH]; [cbn; by destruct (same_key k' k)|].
  cbn. destruct (same_key k0 k') eqn:E0; [done|]. cbn. intros H.
  destruct (key_before k0 k'); cbn.
  - rewrite (IH H). destruct (same_key k0 k) eqn:E1; [|reflexivity].
    apply same_key_eq in E1 as ->. rewrite same_key_sym, E0. reflexivity.
  - destruct (same_key k' k); reflexivity.
Qed.

Lemma obj_lookup_set {V} (k k' : jsstring) (v : V) (ps : list (jsstring * V)) :
  obj_lookup k (obj_set k' v ps) =
    if same_key k' k then Some v else obj_lookup k ps.
Proof.
  unfold obj_set. destruct (obj_has k' ps) eqn:E.
  - by apply obj_lookup_replace.
  - by apply obj_lookup_insert.
Qed.

(** In a spread the later source wins, then the target. *)
Lemma obj_lookup_spread (k : jsstring) (source target : Props) :
  NoDup (map fst source) →
  obj_lookup k (spread target source) =
    match obj_lookup k source with
    | Some v => Some v
    | None => obj_lookup k target
    end.
Proof.
  unfold spread. revert target.
  induction source as [|[k' v'] source IH]; intros target Hnd; [reflexivity|].
  cbn [map fst] in Hnd. inversion Hnd as [|? ? Hk Hnd']; subst.
  cbn [fold_left fst snd obj_lookup]. rewrite (IH _ Hnd'), obj_lookup_set.
  destruct (same_key k' k) eqn:E; [|reflexivity].
  apply same_key_eq in E as ->.
  assert (obj_lookup k source = None) as ->; [|reflexivity].
  clear -Hk. induction source as [|[k0 v0] source IH]; [done|].
  cbn [map fst] in Hk. apply not_elem_of_cons in Hk as [Hne Hk].
  cbn [obj_lookup]. destruct (same_key k0 k) eqn:E.
  - apply same_key_eq in E. congruence.
  - apply IH, Hk.
Qed.

Lemma obj_has_false {V} (k : jsstring) (ps : list (jsstring * V)) :
  obj_has k ps = false ↔ k ∉ map fst ps.
Proof.
  induction ps as [|[k' v'] ps IH]; cbn [obj_has map fst].
  - split; [intros _; apply not_elem_of_nil|done].
  - rewrite orb_false_iff, IH, not_elem_of_cons. unfold same_key.
    rewrite bool_decide_eq_false.
    split; intros [H1 H2]; (split; [congruence|done]).
Qed.

Lemma obj_replace_keys {V} (k : jsstring) (v : V) (ps : list (jsstring * V)) :
  map fst (obj_replace k v ps) = map fst ps.
Proof.
  induction ps as [|[k' v'] ps IH]; [done|]. cbn [obj_replace].
  destruct (same_key k' k); cbn [map fst]; by rewrite ?IH.
Qed.

Lemma obj_insert_keys {V} (k : jsstring) (v : V) (ps : list (jsstring * V)) :
  map fst (obj_insert k v ps) ≡ₚ k :: map fst ps.
Proof.
  induction ps as [|[k' v'] ps IH]; [done|]. cbn [obj_insert].
  destruct (key_before k' k); cbn [map fst]; [|done].
  rewrite IH. apply perm_swap.
Qed.

Lemma obj_insert_forallb {V} (Q : jsstring → bool) (k : jsstring) (v : V)
    (ps : list (jsstring * V)) :
  forallb Q (map fst (obj_insert k v ps)) = Q k && forallb Q (map fst ps).
Proof.
  induction ps as [|[k' v'] ps IH]; [done|]. cbn [obj_insert].
  destruct (key_before k' k); cbn [map fst forallb]; [|done].
  rewrite IH. by destruct (Q k), (Q k').
Qed.

(** A new property takes its place among properties in order. *)
Lemma ordered_keys_insert {V} (k : jsstring) (v : V) (ps : list (jsstring * V)) :
  obj_has k ps = false → ordered_keys (map fst ps) = true →
  ordered_keys (map fst (obj_insert k v ps)) = true.
Proof.
  induction ps as [|[k1 v1] ps IH]; [done|].
  cbn [obj_has obj_insert map fst ordered_keys].
  intros [Hk Hh]%orb_false_iff [Ha Ho]%andb_true_iff.
  destruct (key_before k1 k) eqn:B; cbn [map fst ordered_keys].
  - rewrite obj_insert_forallb, B, Hk, Ha. cbn. by apply IH.
  - rewrite Ha, Ho, !andb_true_r. cbn [forallb].
    assert (same_key k k1 = false) as Hk' by (by rewrite same_key_sym).
    rewrite Hk'. cbn [negb]. rewrite andb_true_r.
    assert (key_before k k1 = true) as B1.
    { unfold key_before in *.
      destruct (array_index k1) as [i1|] eqn:E1, (array_index k) as [i|] eqn:E;
        try done.
      apply N.ltb_lt. apply N.ltb_ge in B.
      destruct (decide (i = i1)) as [->|]; [|lia].
      rewrite (array_index_inj _ _ _ E E1), same_key_refl in Hk'. done. }
    rewrite B1. cbn [andb].
    apply forallb_forall. intros k' Hin.
    rewrite forallb_forall in Ha. specialize (Ha k' Hin).
    apply andb_true_iff in Ha as [Hb1 _].
    apply obj_has_false in Hh.
    assert (same_key k k' = false) as ->.
    { unfold same_key. apply bool_decide_eq_false. intros ->.
      apply Hh. by apply list_elem_of_In. }
    rewrite andb_true_r. unfold key_before in *.
    destruct (array_index k1), (array_index k), (array_index k'); try done.
    apply N.ltb_lt. apply N.ltb_lt in Hb1, B1. lia.
Qed.

Lemma ordered_keys_set {V} (k : jsstring) (v : V) (ps : list (jsstring * V)) :
  ordered_keys (map fst ps) = true →
  ordered_keys (map fst (obj_set k v ps)) = true.
Proof.
  intros H. unfold obj_set. destruct (obj_has k ps) eqn:E.
  - by rewrite obj_replace_keys.
  - by apply ordered_keys_insert.
Qed.

Lemma ordered_keys_spread {V} (target source : list (jsstring * V)) :
  ordered_keys (map fst target) = true →
  ordered_keys (map fst (spread target source)) = true.
Proof.
  unfold spread. revert target.
  induction source as [|[k v] source IH]; intros target H; [done|].
  cbn [fold_left fst snd]. by apply IH, ordered_keys_set.
Qed.

Lemma NoDup_keys_set {V} (k : jsstring) (v : V) (ps : list (jsstring * V)) :
  NoDup (map fst ps) → NoDup (map fst (obj_set k v ps)).
Proof.
  intros H. unfold obj_set. destruct (obj_has k ps) eqn:E.
  - by rewrite obj_replace_keys.
  - rewrite obj_insert_keys. apply NoDup_cons_2; [|done].
    by apply obj_has_false.
Qed.

Lemma NoDup_keys_spread {V} (target source : list (jsstring * V)) :
  NoDup (map fst target) → NoDup (map fst (spread target source)).
Proof.
  unfold spread. revert target.
  induction source as [|[k v] source IH]; intros target H; [done|].
  cbn [fold_left fst snd]. by apply IH, NoDup_keys_set.
Qed.

Lemma json_values_spread (target source : Props) :
  forallb (λ kv, json_value (snd kv)) target = true →
  forallb (λ kv, json_value (snd kv)) source = true →
  forallb (λ kv, json_value (snd kv)) (spread target source) = true.
Proof.
  unfold spread. revert target.
  induction source as [|[k v] source IH]; intros target Ht Hs; [done|].
  cbn [forallb snd] in Hs. apply andb_true_iff in Hs as [Hv Hs].
  cbn [fold_left fst snd]. apply IH; [|done].
  apply forallb_forall, Forall_forall.
  apply (obj_set_values (λ x, json_value x = true)); [|done].
  by apply Forall_forall, forallb_forall.
Qed.

(** ** Rate limiting *)

(** What [request] does on a 429: the retry-after seconds are read off the
    [Retry-After] header with [parseInt], and are 60 only when the header is
    missing or empty. *)
Lemma rate_limited P this call t r :
  answered P t (snd (invoke P this call t)) r →
  status r = 429%Z →
  fst (invoke P this call t) =
    Throws (RateLimitError (lit "Rate limit exceeded")
              match headers_get (response_headers r) (lit "Retry-After") with
              | Some (c :: v) => parseInt (c :: v)
              | _ => number_of_Z 60
              end).
Proof.
  intros H Hs. apply invoke_answered in H as (e & o & H & ->).
  apply request_answered in H as [Hb Hr]. cbn [fst].
  unfold request, bind, fetch. rewrite Hb, Hr, Hs. cbn [negb fst].
  destruct (headers_get _ _) as [[|c v]|]; destruct (post_of call); reflexivity.
Qed.

(** C1: on a 429 every endpoint method fails with RateLimitError; a
    [Retry-After] header that holds an HTTP date, not a number of seconds,
    leaves the error with a retry-after of NaN where 60 is expected. *)
Theorem retry_after_of_http_date :
  fst (invoke (answering (throttled (lit "Fri, 31 Dec 1999 23:59:59 GMT")))
         sample_client GetVersion idle) =
    Throws (RateLimitError (lit "Rate limit exceeded") NaN).
Proof. vm_compute. reflexivity. Qed.

(** ** A client without base URL *)

(** C2: with an empty base URL every endpoint method throws before it
    reaches [fetch]: the trace is left as it was.  When every path argument
    of the call can be encoded, the thrown value is the AuthenticationError
    of [request]; otherwise it is the URIError of the first path argument
    that cannot be encoded. *)
Theorem no_base_url_no_request P this call t :
  this_baseUrl this = [] →
  invoke P this call t =
    (Throws match refused (path_arguments call) with
            | Some s => EngineError (UriMalformed s)
            | None =>
                AuthenticationError
                  (lit "No Qdrant URL provided. Set X-Qdrant-Base-URL header.")
            end, t) ∧
  (Forall (λ s, encodeURIComponent s ≠ None) (path_arguments call) →
   invoke P this call t =
     (Throws (AuthenticationError
                (lit "No Qdrant URL provided. Set X-Qdrant-Base-URL header.")), t)).
Proof.
  intros Hb. split; [exact (invoke_no_url P this call t Hb)|].
  intros Hall. rewrite (invoke_no_url P this call t Hb).
  assert (refused (path_arguments call) = None) as ->; [|reflexivity].
  induction Hall as [|s l Hs _ IH]; [reflexivity|].
  cbn [refused]. by destruct (encodeURIComponent s).
Qed.

Lemma no_base_url_no_request_witness :
  invoke (answering not_found) unbound_client
    (DeleteSnapshot (lit "my docs") (lit "nightly") None) idle =
    (Throws (AuthenticationError
               (lit "No Qdrant URL provided. Set X-Qdrant-Base-URL header.")),
     idle).
Proof.
  apply (no_base_url_no_request (answering not_found) unbound_client
           (DeleteSnapshot (lit "my docs") (lit "nightly") None) idle eq_refl).
  repeat constructor; vm_compute; discriminate.
Defined.

(** The error that is thrown is not a ConfigurationError. *)
Lemma no_base_url_not_configuration_error :
  ¬ ∃ e, fst (invoke (answering not_found) unbound_client GetVersion idle)
           = Throws e ∧
         class_name (error_class e) = lit "ConfigurationError".
Proof.
  intros (e & H & Hc). vm_compute in H. inversion H; subst e.
  vm_compute in Hc. discriminate.
Qed.

(** ** API errors *)

Lemma get_prop_read v k x : get_prop v k = Some x → x = read v k.
Proof.
  destruct v; cbn; intros [= <-]; reflexivity.
Qed.

(** The [||] chain inside the [try] block picks the first truthy candidate;
    a body that is not JSON, or is the JSON [null], leaves the default. *)
Lemma message_of_error_body_first_truthy errorBody st :
  message_of_error_body errorBody st = message_first_truthy errorBody st.
Proof.
  unfold message_of_error_body, message_first_truthy, fallback_message.
  destruct (JSON_parse errorBody) as [v|]; [|reflexivity].
  cbn [mbind option_bind default].
  destruct (get_prop v (lit "status")) as [s|] eqn:Hs.
  - assert (∃ m, get_prop v (lit "message") = Some m) as [m Hm]
      by (destruct v; cbn in *; eauto; discriminate).
    assert (∃ e, get_prop v (lit "error") = Some e) as [e He]
      by (destruct v; cbn in *; eauto; discriminate).
    rewrite Hm, He. cbn [mbind option_bind default].
    apply get_prop_read in Hs, Hm, He. subst.
    unfold first_truthy, js_or, get_prop_opt. cbn [List.find].
    replace (default JUndefined (get_prop (read v (lit "status")) (lit "error")))
      with (read (read v (lit "status")) (lit "error"))
      by (destruct (read v (lit "status")); reflexivity).
    repeat case_match; simplify_eq; try reflexivity; congruence.
  - destruct v; try discriminate; reflexivity.
Qed.

Lemma api_error P this call t r errorBody :
  answered P t (snd (invoke P this call t)) r →
  ok r = false →
  status r ≠ 429%Z → status r ≠ 401%Z → status r ≠ 403%Z →
  response_body r = BodyText errorBody →
  fst (invoke P this call t) =
    Throws (QdrantApiError (message_of_error_body errorBody (status r)) (status r)).
Proof.
  intros H Hok H429 H401 H403 Hbody.
  apply invoke_answered in H as (e & o & H & ->).
  apply request_answered in H as [Hb Hr]. cbn [fst].
  apply Z.eqb_neq in H429, H401, H403.
  unfold request, bind, fetch, text, throw.
  rewrite Hb, Hr, H429, H401, H403, Hok, Hbody. cbn [negb orb fst].
  destruct (post_of call); reflexivity.
Qed.

(** C3: a response that is neither 2xx nor 401, 403 or 429, and whose body
    can be read, makes every endpoint method fail with QdrantApiError
    carrying the status; its message is the first truthy value among
    [status.error], [message] and [error] of the parsed body, and
    ["API error: <status>"] when there is none or the body is not JSON.
    [getPoint('docs', 42)] issues [GET /collections/docs/points/42], and
    on the 404 with body [{"status":{"error":"Not found"}}] it fails with
    message ["Not found"] and status 404. *)
Theorem api_error_message :
  (∀ P this call t r errorBody,
     answered P t (snd (invoke P this call t)) r →
     ok r = false →
     status r ≠ 429%Z → status r ≠ 401%Z → status r ≠ 403%Z →
     response_body r = BodyText errorBody →
     fst (invoke P this call t) =
       Throws (QdrantApiError (message_first_truthy errorBody (status r))
                 (status r))) ∧
  (∀ errorBody st,
     JSON_parse errorBody = None →
     message_of_error_body errorBody st = JString (lit "API error: " ++ Z_to_string st)) ∧
  (∃ c, net_calls (snd (getPoint (answering not_found) sample_client (lit "docs")
                          (IdNumber (number_of_Z 42)) idle)) = [c] ∧
        url c = this_baseUrl sample_client ++ lit "/collections/docs/points/42" ∧
        http_method c = lit "GET") ∧
  fst (getPoint (answering not_found) sample_client (lit "docs")
         (IdNumber (number_of_Z 42)) idle) =
    Throws (QdrantApiError (JString (lit "Not found")) 404).
Proof.
  split; [|split; [|split]].
  - intros. rewrite <- message_of_error_body_first_truthy.
    by apply api_error.
  - intros errorBody st H. unfold message_of_error_body. rewrite H. reflexivity.
  - eexists. split; [vm_compute; reflexivity|]. split; vm_compute; reflexivity.
  - vm_compute. reflexivity.
Qed.

Lemma api_error_message_witness :
  fst (invoke (answering empty_status_error) sample_client GetVersion idle) =
    Throws (QdrantApiError (JString (lit "boom")) 500).
Proof.
  etransitivity.
  - apply (proj1 api_error_message (answering empty_status_error) sample_client
             GetVersion idle empty_status_error).
    + eexists. split; [vm_compute; reflexivity | reflexivity].
    + reflexivity.
    + discriminate.
    + discriminate.
    + discriminate.
    + reflexivity.
  - vm_compute. reflexivity.
Defined.

(** [status.error] is present in [{"status":{"error":""},"message":"boom"}],
    yet the message is taken from [message]. *)
Lemma present_but_empty_is_skipped :
  ∃ errorBody,
    response_body empty_status_error = BodyText errorBody ∧
    fst (invoke (answering empty_status_error) sample_client GetVersion idle)
      ≠ Throws (QdrantApiError (message_by_presence errorBody 500) 500).
Proof. eexists. split; [reflexivity|]. vm_compute. discriminate. Qed.

(** ** Tenant credentials *)

(** C4: [validateCredentials] throws a plain Error.  Without an API key the
    message names the API-key header alone, whatever the base URL; with an
    API key and no base URL it names the base-URL header; with both it
    returns.  An empty string counts as missing. *)
Theorem validate_credentials_cases credentials :
  match apiKey credentials, baseUrl credentials with
  | Some (_ :: _), Some (_ :: _) => validateCredentials credentials = Returns ()
  | Some (_ :: _), _ =>
      ∃ m, validateCredentials credentials = Throws (Error m) ∧
           includes m (lit "X-Qdrant-Base-URL") = true ∧
           includes m (lit "X-Qdrant-API-Key") = false
  | _, _ =>
      ∃ m, validateCredentials credentials = Throws (Error m) ∧
           includes m (lit "X-Qdrant-API-Key") = true ∧
           includes m (lit "X-Qdrant-Base-URL") = false
  end.
Proof.
  destruct credentials as [[[|a k]|] [[|b u]|]]; cbn;
    try reflexivity; eexists; (split; [reflexivity|]); split;
    vm_compute; reflexivity.
Qed.

(** With both fields absent the message names one header, not both. *)
Lemma validate_names_one_header :
  ∃ m, validateCredentials {| apiKey := None; baseUrl := None |} = Throws (Error m) ∧
       includes m (lit "X-Qdrant-Base-URL") = false.
Proof. eexists. split; [reflexivity|]. vm_compute. reflexivity. Qed.

(** C5: [parseTenantCredentials] gives [undefined] for a header that is
    absent and for one that is sent empty alike; a field it fills is never
    the empty string. *)
Theorem parse_credentials_not_provided request_headers :
  let c := parseTenantCredentials request_headers in
  apiKey c =
    match headers_get request_headers (lit "X-Qdrant-API-Key") with
    | Some (a :: k) => Some (a :: k)
    | _ => None
    end ∧
  baseUrl c =
    match headers_get request_headers (lit "X-Qdrant-Base-URL") with
    | Some (a :: u) => Some (a :: u)
    | _ => None
    end ∧
  apiKey c ≠ Some [] ∧ baseUrl c ≠ Some [].
Proof.
  cbn. unfold or_undefined.
  destruct (headers_get request_headers (lit "X-Qdrant-API-Key")) as [[|]|];
  destruct (headers_get request_headers (lit "X-Qdrant-Base-URL")) as [[|]|];
  cbn; repeat split; discriminate.
Qed.

(** A header sent empty cannot be told from one that was never set. *)
Lemma empty_header_is_not_distinguished :
  headers_get [(lit "x-qdrant-api-key", [])] (lit "X-Qdrant-API-Key") = Some [] ∧
  headers_get [] (lit "X-Qdrant-API-Key") = None ∧
  parseTenantCredentials [(lit "x-qdrant-api-key", [])] = parseTenantCredentials [].
Proof. vm_compute. repeat split. Qed.

(** ** Successful responses *)

(** C6: on a 2xx other than 204, [request] answers the body text when the
    content type includes [text/plain], and otherwise the [result] field of
    the JSON value that the body parses to, which is never the body text
    itself.  A method that hands on the value of [request] returns just
    that; one that discards it returns [true]. *)
Theorem success_unwrapping P this call t r body :
  answered P t (snd (invoke P this call t)) r →
  ok r = true → status r ≠ 204%Z →
  response_body r = BodyText body →
  let contentType := or_empty (headers_get (response_headers r) (lit "Content-Type")) in
  (includes contentType (lit "text/plain") = true →
   match post_of call with
   | Unwrapped => fst (invoke P this call t) = Returns (JString body)
   | Discarded => fst (invoke P this call t) = Returns (JBool true)
   | ExistsField => fst (invoke P this call t) = Returns JUndefined
   end) ∧
  (includes contentType (lit "text/plain") = false →
   ∀ v res, JSON_parse body = Some v → get_prop v (lit "result") = Some res →
   res ≠ JString body ∧
   match post_of call with
   | Unwrapped => fst (invoke P this call t) = Returns res
   | Discarded => fst (invoke P this call t) = Returns (JBool true)
   | ExistsField =>
       fst (invoke P this call t) =
         apply_post ExistsField (Returns res)
   end).
Proof.
  intros H Hok Hs Hbody ct. apply invoke_answered in H as (e & o & H & ->).
  apply request_answered in H as [Hb Hr]. cbn [fst].
  assert (H429 : (status r =? 429)%Z = false).
  { unfold ok in Hok. lia. }
  assert (H401 : ((status r =? 401) || (status r =? 403))%Z = false).
  { unfold ok in Hok. lia. }
  assert (H204 : (status r =? 204)%Z = false) by lia.
  unfold request, bind, fetch, text, json, or_fault, ret, bind, text.
  rewrite Hb, Hr, H429, H401, Hok, H204, Hbody. cbn [negb fst].
  fold ct. split.
  - intros ->. destruct (post_of call); reflexivity.
  - intros -> v res Hv Hres. split; [by eapply result_is_not_the_text|].
    rewrite Hv; cbn [fst]. rewrite Hres.
    destruct (post_of call); reflexivity.
Qed.

Lemma success_unwrapping_witness :
  fst (invoke (answering (plain_text (lit "up 1"))) sample_client GetMetrics idle)
    = Returns (JString (lit "up 1")).
Proof.
  refine (proj1 (success_unwrapping (answering (plain_text (lit "up 1")))
                   sample_client GetMetrics idle (plain_text (lit "up 1"))
                   (lit "up 1") _ _ _ _) _).
  - eexists. split; [vm_compute; reflexivity | reflexivity].
  - reflexivity.
  - discriminate.
  - reflexivity.
  - vm_compute. reflexivity.
Defined.

(** [createCollection] answers [true] where the body text is claimed. *)
Lemma create_collection_discards_text :
  fst (invoke (answering (plain_text (lit "up 1"))) sample_client
         (CreateCollection (lit "docs") JNull) idle)
    ≠ Returns (JString (lit "up 1")).
Proof. vm_compute. discriminate. Qed.

(** ** 204 No Content *)

(** C7: on a 204 no body read is made, whatever reading the body would do;
    a method that hands on the value of [request] returns [undefined], one
    that discards it returns [true], and [collectionExists], which reads
    [exists] off it, throws a TypeError. *)
Theorem no_content_no_body_read P this call t r :
  answered P t (snd (invoke P this call t)) r →
  status r = 204%Z →
  body_reads (snd (invoke P this call t)) = body_reads t ∧
  fst (invoke P this call t) =
    match post_of call with
    | Unwrapped => Returns JUndefined
    | Discarded => Returns (JBool true)
    | ExistsField =>
        Throws (EngineError (ReadOfNullish JUndefined (lit "exists")))
    end.
Proof.
  intros H Hs. apply invoke_answered in H as (e & o & H & ->).
  apply request_answered in H as [Hb Hr]. cbn [fst snd].
  unfold request, bind, fetch, ok. rewrite Hb, Hr, Hs. cbn [negb fst snd].
  split; [reflexivity|]. destruct (post_of call); reflexivity.
Qed.

Lemma no_content_no_body_read_witness :
  body_reads (snd (invoke (answering no_content) sample_client GetLocks idle))
    = body_reads idle ∧
  fst (invoke (answering no_content) sample_client GetLocks idle)
    = Returns JUndefined.
Proof.
  apply (no_content_no_body_read (answering no_content) sample_client GetLocks idle no_content).
  - eexists. split; [vm_compute; reflexivity | reflexivity].
  - reflexivity.
Defined.

(** On a 204 [collectionExists] throws, and [createCollection] answers
    [true], not [undefined]. *)
Lemma no_content_post_processed :
  (¬ ∃ v, fst (invoke (answering no_content) sample_client
                 (CollectionExists (lit "docs")) idle) = Returns v) ∧
  fst (invoke (answering no_content) sample_client
         (CreateCollection (lit "docs") sample_config) idle) ≠ Returns JUndefined.
Proof.
  split.
  - intros (v & H). vm_compute in H. discriminate.
  - vm_compute. discriminate.
Qed.

(** ** The connectivity test *)

(** C8: when [getVersion] succeeds with [undefined] or [null], as it does on
    a 204 and on a JSON body without [result], [testConnection] reports
    [connected: false]: the read of [version] throws inside the [try]
    block, and the [catch] block answers with the message of that
    TypeError.  Nothing is thrown and no further request is made. *)
Theorem test_connection_fails_on_success P this t info :
  fst (getVersion P this t) = Returns info →
  get_prop info (lit "version") = None →
  testConnection P this t =
    (Returns {| connected := false;
                message := fault_message P (ReadOfNullish info (lit "version")) |},
     snd (getVersion P this t)).
Proof.
  intros Hv Hp. rewrite testConnection_unfold, Hv, Hp. reflexivity.
Qed.

Lemma test_connection_fails_on_success_witness :
  fst (getVersion (answering no_content) sample_client idle) = Returns JUndefined ∧
  testConnection (answering no_content) sample_client idle =
    (Returns {| connected := false;
                message := lit "Cannot read properties of undefined (reading 'version')" |},
     snd (getVersion (answering no_content) sample_client idle)).
Proof.
  split; [vm_compute; reflexivity|].
  apply (test_connection_fails_on_success (answering no_content) sample_client
           idle JUndefined).
  - vm_compute. reflexivity.
  - reflexivity.
Defined.

(** A [version] with a property [toString] of its own has no string
    conversion: the template literal throws, and the connection is
    reported as failed although the service answered. *)
Lemma test_connection_on_unprintable_version :
  fst (getVersion (answering (json_reply
         (lit "{" ++ dq ++ lit "result" ++ dq ++ lit ":{" ++ dq ++ lit "version" ++ dq ++
          lit ":{" ++ dq ++ lit "toString" ++ dq ++ lit ":1}}}")))
         sample_client idle) =
    Returns (JObject [(lit "version",
                       JObject [(lit "toString", JNumber (number_of_Z 1))])]) ∧
  fst (testConnection (answering (json_reply
         (lit "{" ++ dq ++ lit "result" ++ dq ++ lit ":{" ++ dq ++ lit "version" ++ dq ++
          lit ":{" ++ dq ++ lit "toString" ++ dq ++ lit ":1}}}")))
         sample_client idle) =
    Returns {| connected := false;
               message := lit "Cannot convert object to primitive value" |}.
Proof. split; vm_compute; reflexivity. Qed.

(** ** Creating a collection *)

Lemma truthy_string_nonempty (s : jsstring) : s ≠ [] → truthy_string s = true.
Proof. destruct s; done. Qed.

(** C9: for a collection name that is well-formed UTF-16 and a config that
    is a JSON value, [createCollection] issues one PUT request to
    [/collections/<segment>]; the segment holds unreserved characters and
    percent signs only, so no slash and no space of the name is left in
    the path, decoding the segment gives the name back, and parsing the
    body gives the config back. *)
Theorem create_collection_round_trip P this collectionName config t :
  this_baseUrl this ≠ [] →
  well_formed_utf16 collectionName = true →
  json_value config = true →
  ∃ call segment bodyText,
    net_calls (snd (createCollection P this collectionName config t))
      = net_calls t ++ [call] ∧
    http_method call = lit "PUT" ∧
    url call = this_baseUrl this ++ lit "/collections/" ++ segment ∧
    Forall (λ x, segment_char x = true) segment ∧
    decodeURIComponent segment = Some collectionName ∧
    body call = Some bodyText ∧
    JSON_parse bodyText = Some config.
Proof.
  intros Hb Hn Hc.
  destruct (decode_encode_uri_component collectionName Hn) as (seg & Eenc & Edec).
  destruct (JSON_round_trip config Hc) as (text & Es & Ep).
  exists (fetch_call this (lit "/collections/" ++ seg) (json_body "PUT" config)),
    seg, text.
  split; [|split; [done|]; split; [done|]; split; [|done]].
  2: by apply (encode_uri_component_segment collectionName).
  - assert (snd (createCollection P this collectionName config t) =
            snd (request P this (lit "/collections/" ++ seg)
                   (json_body "PUT" config) t)) as ->.
    { unfold createCollection, encoded, or_fault, bind, ret. rewrite Eenc.
      destruct (request P this _ _ t) as [[?|?] ?]; reflexivity. }
    rewrite request_net_calls, truthy_string_nonempty by exact Hb. reflexivity.
Qed.

Lemma create_collection_round_trip_witness :
  ∃ call segment bodyText,
    net_calls (snd (createCollection (answering (json_reply [])) sample_client
                      (lit "my docs/v1") sample_config idle))
      = net_calls idle ++ [call] ∧
    http_method call = lit "PUT" ∧
    url call = this_baseUrl sample_client ++ lit "/collections/" ++ segment ∧
    Forall (λ x, segment_char x = true) segment ∧
    decodeURIComponent segment = Some (lit "my docs/v1") ∧
    body call = Some bodyText ∧
    JSON_parse bodyText = Some sample_config.
Proof.
  apply create_collection_round_trip.
  - discriminate.
  - vm_compute. reflexivity.
  - vm_compute. reflexivity.
Defined.

(** A name with an unpaired surrogate: [encodeURIComponent] throws, and no
    request is issued at all. *)
Lemma create_collection_lone_surrogate :
  ¬ ∃ call, net_calls (snd (createCollection (answering (json_reply []))
                              sample_client [55296%N] sample_config idle))
            = [call].
Proof. intros (call & H). vm_compute in H. discriminate. Qed.

(** A config with [undefined] fields, as the tool handler passes it, is not
    what the body parses to. *)
Lemma create_collection_undefined_fields :
  ∃ call bodyText,
    net_calls (snd (createCollection (answering (json_reply [])) sample_client
                      (lit "docs") handler_config idle)) = [call] ∧
    body call = Some bodyText ∧
    JSON_parse bodyText = Some sample_config ∧
    sample_config ≠ handler_config.
Proof.
  eexists _, _. split; [vm_compute; reflexivity|].
  split; [reflexivity|]. split; [vm_compute; reflexivity|]. discriminate.
Qed.

(** ** Creating a field index *)

(** C10: the body of [createFieldIndex] is the serialisation of one object
    that names no property twice: a property of the request is held as the
    request has it, [field_name] included; [field_name] is the [fieldName]
    argument when the request has none; nothing else is held.  When the
    request holds JSON values only, the body text parses to that very
    object, so whoever reads the body finds the request's [field_name] in
    place of the argument.  Without a request the body is
    [{"field_name":<fieldName>}]. *)
Theorem create_field_index_body P this collectionName fieldName req wait t :
  this_baseUrl this ≠ [] →
  encodeURIComponent collectionName ≠ None →
  NoDup (map fst (own_props req)) →
  ∃ call merged,
    net_calls (snd (createFieldIndex P this collectionName fieldName req wait t))
      = net_calls t ++ [call] ∧
    body call = JSON_stringify (JObject merged) ∧
    NoDup (map fst merged) ∧
    (∀ k v, obj_lookup k (own_props req) = Some v → obj_lookup k merged = Some v) ∧
    (obj_lookup (lit "field_name") (own_props req) = None →
     obj_lookup (lit "field_name") merged = Some (JString fieldName)) ∧
    (∀ k, k ≠ lit "field_name" → obj_lookup k (own_props req) = None →
          obj_lookup k merged = None) ∧
    (json_value (JObject (own_props req)) = true →
     ∃ bodyText, body call = Some bodyText ∧
                 JSON_parse bodyText = Some (JObject merged)) ∧
    (req = JUndefined →
     body call = Some (lit "{" ++ quote (lit "field_name") ++ lit ":" ++
                       quote fieldName ++ lit "}")).
Proof.
  intros Hb Henc Hnd.
  destruct (encodeURIComponent collectionName) as [seg|] eqn:Eenc; [|done].
  exists (fetch_call this (lit "/collections/" ++ seg ++ lit "/index" ++ wait_query wait)
            (json_body "PUT" (field_index_body fieldName req))),
    (spread [(lit "field_name", JString fieldName)] (own_props req)).
  split; [|split; [reflexivity|]].
  - assert (snd (createFieldIndex P this collectionName fieldName req wait t) =
            snd (request P this
                   (lit "/collections/" ++ seg ++ lit "/index" ++ wait_query wait)
                   (json_body "PUT" (field_index_body fieldName req)) t)) as ->.
    { unfold createFieldIndex, encoded, or_fault, bind, ret. rewrite Eenc.
      reflexivity. }
    rewrite request_net_calls, truthy_string_nonempty by exact Hb. reflexivity.
  - split; [|split; [|split; [|split; [|split]]]].
    + apply NoDup_keys_spread. repeat constructor. apply not_elem_of_nil.
    + intros k v H. rewrite obj_lookup_spread, H by exact Hnd. reflexivity.
    + intros H. rewrite obj_lookup_spread, H by exact Hnd. cbn.
      rewrite same_key_refl. reflexivity.
    + intros k Hk H. rewrite obj_lookup_spread, H by exact Hnd. cbn.
      destruct (same_key (lit "field_name") k) eqn:E; [|reflexivity].
      apply same_key_eq in E. congruence.
    + intros Hj. cbn [json_value] in Hj. apply andb_true_iff in Hj as [Ho Hv].
      destruct (JSON_round_trip
                  (JObject (spread [(lit "field_name", JString fieldName)]
                              (own_props req)))) as (text & Es & Ep).
      { cbn [json_value]. apply andb_true_iff. split.
        - by apply ordered_keys_spread.
        - by apply json_values_spread. }
      exists text. split; [exact Es|exact Ep].
    + intros ->. reflexivity.
Qed.

Lemma create_field_index_body_witness :
  ∃ call bodyText merged,
    net_calls (snd (createFieldIndex (answering (json_reply [])) sample_client
                      (lit "docs") (lit "city")
                      (JObject [(lit "field_name", JString (lit "town"));
                                (lit "field_schema", JString (lit "keyword"))])
                      None idle))
      = net_calls idle ++ [call] ∧
    body call = Some bodyText ∧
    JSON_parse bodyText = Some (JObject merged) ∧
    NoDup (map fst merged) ∧
    obj_lookup (lit "field_name") merged = Some (JString (lit "town")).
Proof.
  destruct (create_field_index_body (answering (json_reply [])) sample_client
              (lit "docs") (lit "city")
              (JObject [(lit "field_name", JString (lit "town"));
                        (lit "field_schema", JString (lit "keyword"))])
              None idle) as (call & merged & H1 & _ & H2 & H3 & _ & _ & H4 & _).
  - discriminate.
  - discriminate.
  - apply (bool_decide_unpack _). vm_compute. exact I.
  - destruct H4 as (bodyText & Hbody & Hparse); [vm_compute; reflexivity|].
    exists call, bodyText, merged. split; [exact H1|]. split; [exact Hbody|].
    split; [exact Hparse|]. split; [exact H2|]. apply H3. reflexivity.
Defined.

(** ** What every endpoint method hands to [request] *)

Ltac unfold_endpoints :=
  unfold getVersion, getTelemetry, getMetrics, getLocks, setLocks,
    listCollections, getCollection, collectionExists, createCollection,
    updateCollection, deleteCollection, listAliases, getCollectionAliases,
    updateAliases, upsertPoints, getPoints, getPoint, deletePoints,
    scrollPoints, countPoints, updateVectors, deleteVectors, setPayload,
    overwritePayload, deletePayload, clearPayload, batchUpdate, search,
    searchBatch, query, queryBatch, queryGroups, recommend, recommendBatch,
    recommendGroups, discover, discoverBatch, searchMatrixPairs,
    searchMatrixOffsets, listSnapshots, createSnapshot, deleteSnapshot,
    recoverSnapshot, listFullSnapshots, createFullSnapshot,
    deleteFullSnapshot, getClusterStatus, recoverCluster, removePeer,
    getCollectionClusterInfo, updateCollectionCluster, createShardKey,
    deleteShardKey, createFieldIndex, deleteFieldIndex.

Section Shape.
Variable P : Platform.
Variable this : QdrantClientImpl.

(** No method passes headers of its own, every endpoint starts with a
    slash, and a body comes with one of the verbs POST, PUT and PATCH. *)
Lemma invoke_request call t :
  (∃ s, encodeURIComponent s = None ∧
        invoke P this call t = (Throws (EngineError (UriMalformed s)), t)) ∨
  (∃ endpoint options,
     invoke P this call t =
       (apply_post (post_of call) (fst (request P this endpoint options t)),
        snd (request P this endpoint options t)) ∧
     init_headers options = None ∧
     is_prefix (lit "/") endpoint = true ∧
     (init_body options ≠ None →
      init_method options = Some (lit "POST") ∨
      init_method options = Some (lit "PUT") ∨
      init_method options = Some (lit "PATCH"))).
Proof.
  destruct call; cbn [invoke post_of]; unfold_endpoints;
    unfold encoded, or_fault, bind, ret, throw;
    repeat match goal with
      | |- context [encodeURIComponent ?s] =>
          let E := fresh "E" in
          destruct (encodeURIComponent s) eqn:E;
          [ | left; eexists; split; [exact E | reflexivity] ]
      end;
    right;
    match goal with
    | |- context [request P this ?e ?o t] =>
        exists e, o; split;
        [ destruct (request P this e o t) as [[v|err] t'] eqn:R;
          cbn [apply_post fst snd]; try reflexivity;
          destruct (get_prop v (lit "exists")); reflexivity
        | split; [reflexivity|]; split; [reflexivity|];
          unfold json_body, with_body, with_method, no_options;
          cbn [init_body init_method]; intros Hbody;
          first [ by destruct Hbody
                | left; reflexivity
                | right; left; reflexivity
                | right; right; reflexivity ] ]
    end.
Qed.

Lemma request_body_reads endpoint options t :
  body_reads t ≤ body_reads (snd (request P this endpoint options t)) ≤
    S (body_reads t).
Proof.
  unfold request, bind, fetch, text, json, or_fault, ret, throw, bind, text.
  repeat case_match; simplify_eq; cbn [snd body_reads]; lia.
Qed.

(** A trace that grew by exactly one call grew through [request]. *)
Lemma invoke_sent call t c :
  net_calls (snd (invoke P this call t)) = net_calls t ++ [c] →
  ∃ endpoint options,
    truthy_string (this_baseUrl this) = true ∧
    c = fetch_call this endpoint options ∧
    invoke P this call t =
      (apply_post (post_of call) (fst (request P this endpoint options t)),
       snd (request P this endpoint options t)) ∧
    init_headers options = None ∧
    is_prefix (lit "/") endpoint = true ∧
    (init_body options ≠ None →
     init_method options = Some (lit "POST") ∨
     init_method options = Some (lit "PUT") ∨
     init_method options = Some (lit "PATCH")).
Proof.
  intros H.
  destruct (invoke_request call t) as [(s & _ & E)|(e & o & E & Hh & Hs & Hb)].
  - rewrite E in H. cbn [snd] in H. exfalso.
    apply (f_equal length) in H. rewrite length_app in H. cbn in H. lia.
  - exists e, o. rewrite E in H. cbn [snd] in H.
    rewrite request_net_calls in H.
    destruct (truthy_string (this_baseUrl this)).
    + apply app_inj_tail in H as [_ <-]. done.
    + exfalso. apply (f_equal length) in H. rewrite length_app in H.
      cbn in H. lia.
Qed.
End Shape.

(** ** Authentication headers *)

Lemma auth_headers_sent P this call t c :
  net_calls (snd (invoke P this call t)) = net_calls t ++ [c] →
  headers c = getAuthHeaders this.
Proof.
  intros H.
  apply invoke_sent in H as (e & o & _ & -> & _ & Hh & _).
  unfold fetch_call. cbn [headers]. rewrite Hh. reflexivity.
Qed.

(** X1: whatever endpoint method issues a request, its headers are the
    JSON content type and, when the credentials hold a non-empty API key,
    that key under [api-key]; without a key no [api-key] header is sent. *)
Theorem request_headers_sent P this call t c :
  net_calls (snd (invoke P this call t)) = net_calls t ++ [c] →
  headers c =
    (lit "Content-Type", lit "application/json") ::
    match apiKey (this_credentials this) with
    | Some (k :: key) => [(lit "api-key", k :: key)]
    | _ => []
    end.
Proof.
  intros H. rewrite (auth_headers_sent _ _ _ _ _ H). unfold getAuthHeaders.
  destruct (apiKey (this_credentials this)) as [[|k key]|]; reflexivity.
Qed.

Lemma request_headers_sent_witness :
  headers (fetch_call sample_client (lit "/collections") no_options) =
    [(lit "Content-Type", lit "application/json");
     (lit "api-key", lit "secret")].
Proof.
  apply (request_headers_sent (answering not_found) sample_client
           ListCollections idle).
  vm_compute. reflexivity.
Defined.

(** ** Rejected credentials *)

(** X2: on a 401 or a 403 every endpoint method throws the
    AuthenticationError of [request], and the body of the response is not
    read. *)
Theorem authentication_failed P this call t r :
  answered P t (snd (invoke P this call t)) r →
  status r = 401%Z ∨ status r = 403%Z →
  fst (invoke P this call t) =
    Throws (AuthenticationError (lit "Authentication failed. Check your API key.")) ∧
  body_reads (snd (invoke P this call t)) = body_reads t.
Proof.
  intros H Hs. apply invoke_answered in H as (e & o & H & ->).
  apply request_answered in H as [Hb Hr]. cbn [fst snd].
  unfold request, bind, fetch. rewrite Hb, Hr. cbn [negb].
  destruct Hs as [-> | ->]; cbn [Z.eqb Pos.eqb orb throw fst snd apply_post body_reads];
    done.
Qed.

Lemma authentication_failed_witness :
  fst (invoke (answering {| status := 403; response_headers := [];
                            response_body := BodyFails (HostError []) |})
         sample_client (DeleteCollection (lit "docs")) idle) =
    Throws (AuthenticationError (lit "Authentication failed. Check your API key.")) ∧
  body_reads (snd (invoke (answering {| status := 403; response_headers := [];
                                        response_body := BodyFails (HostError []) |})
                     sample_client (DeleteCollection (lit "docs")) idle)) =
    body_reads idle.
Proof.
  apply (authentication_failed _ _ _ _
           {| status := 403; response_headers := [];
              response_body := BodyFails (HostError []) |}).
  - eexists. split; [vm_compute; reflexivity | reflexivity].
  - right. reflexivity.
Defined.

(** ** One request, no retry *)

(** X3: an endpoint method issues at most one request and reads at most one
    body, whatever the remote answers: nothing is retried. *)
Theorem at_most_one_request P this call t :
  ∃ sent,
    net_calls (snd (invoke P this call t)) = net_calls t ++ sent ∧
    length sent ≤ 1 ∧
    body_reads t ≤ body_reads (snd (invoke P this call t)) ≤ S (body_reads t).
Proof.
  destruct (invoke_cases P this call t) as [(s & _ & E)|(e & o & E)]; rewrite E;
    cbn [snd].
  - exists []. rewrite app_nil_r. cbn. split; [done|lia].
  - rewrite request_net_calls.
    destruct (truthy_string (this_baseUrl this)).
    + eexists [_]. split; [reflexivity|]. split; [cbn; lia|].
      apply request_body_reads.
    + exists []. rewrite app_nil_r. split; [done|]. split; [cbn; lia|].
      apply request_body_reads.
Qed.

(** ** Network failures *)

(** X4: when [fetch] rejects, every endpoint method throws the very value
    it rejected with; no body is read. *)
Theorem network_failure_propagates P this call t c e :
  net_calls (snd (invoke P this call t)) = net_calls t ++ [c] →
  remote P c = Rejects e →
  invoke P this call t =
    (Throws e, {| net_calls := net_calls t ++ [c]; body_reads := body_reads t |}).
Proof.
  intros H Hr.
  apply invoke_sent in H as (ep & o & Hb & -> & -> & _).
  unfold request, bind, fetch. rewrite Hb, Hr. reflexivity.
Qed.

Lemma network_failure_propagates_witness :
  invoke {| remote := λ _, Rejects (HostError (lit "connection refused"));
            fault_message := sample_messages |}
    sample_client GetVersion idle =
    (Throws (HostError (lit "connection refused")),
     {| net_calls := net_calls idle ++ [fetch_call sample_client (lit "/") no_options];
        body_reads := body_reads idle |}).
Proof.
  apply network_failure_propagates.
  - vm_compute. reflexivity.
  - reflexivity.
Defined.

(** ** Bodies and verbs *)

(** X5: a request that carries a body is a POST, a PUT or a PATCH: no
    endpoint method sends a body with a GET or a DELETE. *)
Theorem body_needs_verb P this call t c :
  net_calls (snd (invoke P this call t)) = net_calls t ++ [c] →
  body c ≠ None →
  http_method c = lit "POST" ∨ http_method c = lit "PUT" ∨
  http_method c = lit "PATCH".
Proof.
  intros H Hbody.
  apply invoke_sent in H as (ep & o & _ & -> & _ & _ & _ & Hv).
  unfold http_method, fetch_call in *. cbn [method body] in *.
  destruct (Hv Hbody) as [-> | [-> | ->]]; cbn [default from_option id]; auto.
Qed.

Lemma body_needs_verb_witness :
  http_method (fetch_call sample_client (lit "/collections/docs")
                 (json_body "PUT" sample_config)) = lit "POST" ∨
  http_method (fetch_call sample_client (lit "/collections/docs")
                 (json_body "PUT" sample_config)) = lit "PUT" ∨
  http_method (fetch_call sample_client (lit "/collections/docs")
                 (json_body "PUT" sample_config)) = lit "PATCH".
Proof.
  apply (body_needs_verb (answering (json_reply [])) sample_client
           (CreateCollection (lit "docs") sample_config) idle).
  - vm_compute. reflexivity.
  - discriminate.
Defined.

(** ** Path segments in use *)

(** X6: [deleteSnapshot] puts the collection name and the snapshot name
    into one path segment each: the segments hold unreserved characters and
    percent signs only (no slash, no question mark), and decoding them gives
    the two names back.  The request is a DELETE without body. *)
Theorem delete_snapshot_url P this collectionName snapshotName wait t :
  this_baseUrl this ≠ [] →
  well_formed_utf16 collectionName = true →
  well_formed_utf16 snapshotName = true →
  ∃ call c n,
    net_calls (snd (deleteSnapshot P this collectionName snapshotName wait t))
      = net_calls t ++ [call] ∧
    url call = this_baseUrl this ++ lit "/collections/" ++ c ++
               lit "/snapshots/" ++ n ++ lit "?wait=" ++
               bool_string (default true wait) ∧
    Forall (λ x, segment_char x = true) c ∧
    Forall (λ x, segment_char x = true) n ∧
    decodeURIComponent c = Some collectionName ∧
    decodeURIComponent n = Some snapshotName ∧
    method call = Some (lit "DELETE") ∧
    body call = None.
Proof.
  intros Hb Hc Hn.
  destruct (decode_encode_uri_component collectionName Hc) as (c & Ec & Dc).
  destruct (decode_encode_uri_component snapshotName Hn) as (n & En & Dn).
  exists (fetch_call this
            (lit "/collections/" ++ c ++ lit "/snapshots/" ++ n ++ wait_query wait)
            (with_method "DELETE")), c, n.
  split; [|split; [|split; [|split]]].
  - assert (snd (deleteSnapshot P this collectionName snapshotName wait t) =
            snd (request P this
                   (lit "/collections/" ++ c ++ lit "/snapshots/" ++ n ++
                    wait_query wait) (with_method "DELETE") t)) as ->.
    { unfold deleteSnapshot, encoded, or_fault, bind, ret. rewrite Ec, En.
      destruct (request P this _ _ t) as [[?|?] ?]; reflexivity. }
    rewrite request_net_calls, truthy_string_nonempty by exact Hb. reflexivity.
  - unfold fetch_call, wait_query. cbn [url]. by rewrite ?app_assoc.
  - by apply (encode_uri_component_segment collectionName).
  - by apply (encode_uri_component_segment snapshotName).
  - done.
Qed.

Lemma delete_snapshot_url_witness :
  ∃ call c n,
    net_calls (snd (deleteSnapshot (answering (json_reply [])) sample_client
                      (lit "a/b") (lit "nightly?x=1") None idle))
      = net_calls idle ++ [call] ∧
    url call = this_baseUrl sample_client ++ lit "/collections/" ++ c ++
               lit "/snapshots/" ++ n ++ lit "?wait=" ++
               bool_string (default true None) ∧
    Forall (λ x, segment_char x = true) c ∧
    Forall (λ x, segment_char x = true) n ∧
    decodeURIComponent c = Some (lit "a/b") ∧
    decodeURIComponent n = Some (lit "nightly?x=1") ∧
    method call = Some (lit "DELETE") ∧
    body call = None.
Proof.
  apply delete_snapshot_url.
  - discriminate.
  - vm_compute. reflexivity.
  - vm_compute. reflexivity.
Defined.

(** ** The connectivity probe *)

(** X7: [testConnection] probes the service with one GET of the root path,
    sent with the authentication headers; on a client without base URL it
    sends nothing and reports the missing URL as a failed connection. *)
Theorem test_connection_probe P this t :
  match this_baseUrl this with
  | [] =>
      testConnection P this t =
        (Returns {| connected := false;
                    message := lit "No Qdrant URL provided. Set X-Qdrant-Base-URL header." |},
         t)
  | _ :: _ =>
      net_calls (snd (testConnection P this t)) =
        net_calls t ++ [{| url := this_baseUrl this ++ lit "/";
                           method := None;
                           headers := getAuthHeaders this;
                           body := None |}]
  end.
Proof.
  rewrite testConnection_unfold. unfold getVersion.
  destruct (this_baseUrl this) as [|b base] eqn:Hb.
  - rewrite request_no_url by exact Hb. reflexivity.
  - cbn [snd]. rewrite request_net_calls, Hb. cbn [truthy_string].
    unfold fetch_call. rewrite Hb. reflexivity.
Qed.

(** X8: a 2xx answer whose JSON body is an object without [result]
    property, such as a bare [{"title": ..., "version": ...}] document,
    makes [getVersion] answer [undefined], and [testConnection] then
    reports a failed connection with the message of the TypeError. *)
Theorem test_connection_needs_result P this t r body ps :
  answered P t (snd (testConnection P this t)) r →
  ok r = true → status r ≠ 204%Z →
  includes (or_empty (headers_get (response_headers r) (lit "Content-Type")))
    (lit "text/plain") = false →
  response_body r = BodyText body →
  JSON_parse body = Some (JObject ps) →
  obj_lookup (lit "result") ps = None →
  fst (testConnection P this t) =
    Returns {| connected := false;
               message := fault_message P
                            (ReadOfNullish JUndefined (lit "version")) |}.
Proof.
  rewrite testConnection_unfold. cbn [fst snd]. unfold getVersion.
  intros H Hok Hs Hct Hbody Hparse Hres.
  apply request_answered in H as [Hb Hr].
  unfold request, bind, fetch, json, text. rewrite Hb, Hr. cbn [negb].
  unfold ok in Hok. destruct (Z.eqb_spec (status r) 429); [rewrite e in Hok; done|].
  destruct (Z.eqb_spec (status r) 401); [rewrite e in Hok; done|].
  destruct (Z.eqb_spec (status r) 403); [rewrite e in Hok; done|].
  cbn [orb]. unfold ok. rewrite Hok. cbn [negb].
  destruct (Z.eqb_spec (status r) 204); [done|].
  rewrite Hct, Hbody. cbn [bind or_fault ret fst]. unfold bind, or_fault.
  rewrite Hparse. cbn [ret get_prop fst]. rewrite Hres. reflexivity.
Qed.

Lemma test_connection_needs_result_witness :
  fst (testConnection (answering bare_version_document) sample_client idle) =
    Returns {| connected := false;
               message := fault_message (answering bare_version_document)
                            (ReadOfNullish JUndefined (lit "version")) |}.
Proof.
  apply (test_connection_needs_result _ _ _ bare_version_document
           (lit "{" ++ dq ++ lit "title" ++ dq ++ lit ":" ++ dq ++ lit "qdrant" ++ dq ++
            lit "," ++ dq ++ lit "version" ++ dq ++ lit ":" ++ dq ++ lit "1.9.0" ++ dq ++
            lit "}")
           [(lit "title", JString (lit "qdrant"));
            (lit "version", JString (lit "1.9.0"))]).
  - eexists. split; [vm_compute; reflexivity | reflexivity].
  - reflexivity.
  - discriminate.
  - vm_compute. reflexivity.
  - reflexivity.
  - vm_compute. reflexivity.
  - vm_compute. reflexivity.
Defined.

(** ** From the inbound headers to the outbound request *)

Lemma or_undefined_some (x : option jsstring) :
  truthy_opt (or_undefined x) = true →
  ∃ c s, x = Some (c :: s) ∧ or_undefined x = Some (c :: s).
Proof. destruct x as [[|c s]|]; try discriminate. eauto. Qed.

(** X9: when [validateCredentials] accepts the credentials that
    [parseTenantCredentials] read, both headers were sent non-empty; the
    client built from them is bound to the base URL as it was sent, and
    every request of every endpoint method goes to that URL followed by a
    path that starts with a slash, with the API key as it was sent under
    [api-key]. *)
Theorem validated_client_requests request_headers :
  validateCredentials (parseTenantCredentials request_headers) = Returns () →
  ∃ key base,
    key ≠ [] ∧ base ≠ [] ∧
    headers_get request_headers (lit "X-Qdrant-API-Key") = Some key ∧
    headers_get request_headers (lit "X-Qdrant-Base-URL") = Some base ∧
    this_baseUrl (createQdrantClient (parseTenantCredentials request_headers)) = base ∧
    ∀ P call t c,
      net_calls (snd (invoke P (createQdrantClient
                                  (parseTenantCredentials request_headers))
                        call t)) = net_calls t ++ [c] →
      (∃ endpoint, url c = base ++ endpoint ∧ is_prefix (lit "/") endpoint = true) ∧
      headers c = [(lit "Content-Type", lit "application/json");
                   (lit "api-key", key)].
Proof.
  unfold validateCredentials, parseTenantCredentials. cbn [apiKey baseUrl].
  intros H.
  destruct (truthy_opt (or_undefined (headers_get request_headers (lit "X-Qdrant-API-Key"))))
    eqn:Hk; [|discriminate].
  destruct (truthy_opt (or_undefined (headers_get request_headers (lit "X-Qdrant-Base-URL"))))
    eqn:Hu; [|discriminate].
  apply or_undefined_some in Hk as (k & key & Ek & Ek').
  apply or_undefined_some in Hu as (b & base & Eb & Eb').
  exists (k :: key), (b :: base).
  split; [done|]. split; [done|]. split; [exact Ek|]. split; [exact Eb|].
  split.
  - unfold createQdrantClient. cbn [this_baseUrl baseUrl]. rewrite Eb'. reflexivity.
  - intros P call t c Hc. split.
    + apply invoke_sent in Hc as (e & o & _ & -> & _ & _ & Hs & _).
      exists e. split; [|exact Hs].
      unfold fetch_call, createQdrantClient. cbn [url this_baseUrl baseUrl].
      rewrite Eb'. reflexivity.
    + rewrite (auth_headers_sent _ _ _ _ _ Hc).
      unfold getAuthHeaders, createQdrantClient. cbn [this_credentials apiKey].
      rewrite Ek'. reflexivity.
Qed.

Lemma validated_client_requests_witness :
  ∃ key base,
    key ≠ [] ∧ base ≠ [] ∧
    headers_get sample_headers (lit "X-Qdrant-API-Key") = Some key ∧
    headers_get sample_headers (lit "X-Qdrant-Base-URL") = Some base ∧
    this_baseUrl (createQdrantClient (parseTenantCredentials sample_headers)) = base ∧
    ∀ P call t c,
      net_calls (snd (invoke P (createQdrantClient
                                  (parseTenantCredentials sample_headers))
                        call t)) = net_calls t ++ [c] →
      (∃ endpoint, url c = base ++ endpoint ∧ is_prefix (lit "/") endpoint = true) ∧
      headers c = [(lit "Content-Type", lit "application/json");
                   (lit "api-key", key)].
Proof.
  apply validated_client_requests. vm_compute. reflexivity.
Defined.

(** ** Numeric settings *)

Lemma number_of_digits_not_nan (neg : bool) (ds : list digit) (n : Z) :
  Number_isNaN (number_of_digits neg ds n) = false.
Proof. unfold number_of_digits. by destruct (strip_trailing_zeros _). Qed.

(** [parseInt] reads the decimal of an integer back, whatever follows it. *)
Lemma parseInt_integer (z : Z) (rest : jsstring) :
  digit_free rest → parseInt (Z_to_string z ++ rest) = number_of_Z z.
Proof.
  intros Hr. unfold parseInt, Z_to_string, number_of_Z.
  pose proof (N_digits_nonempty (Z.to_N (Z.abs z))) as Hne.
  destruct (N_digits (Z.to_N (Z.abs z))) as [|d ds] eqn:E; [done|].
  destruct (z <? 0)%Z.
  - change (lit "-") with [45%N]. cbn [app drop_while].
    change (is_js_whitespace 45) with false. cbv iota.
    change (45 =? 45)%N with true. cbv iota.
    rewrite (take_digits_string (d :: ds) rest Hr). reflexivity.
  - cbn [app digits_string map drop_while].
    assert (is_js_whitespace (digit_char d) = false) as -> by (by destruct d).
    assert ((digit_char d =? 45)%N = false) as -> by (by destruct d).
    assert ((digit_char d =? 43)%N = false) as -> by (by destruct d).
    change (digit_char d :: map digit_char ds ++ rest)
      with (digits_string (d :: ds) ++ rest).
    rewrite (take_digits_string (d :: ds) rest Hr). reflexivity.
Qed.

(** X10: the three numeric settings are never NaN, whatever the
    environment holds; and a setting that is no string, or a string in
    which [parseInt] finds no number, gives the default: 50000 characters,
    a page of 20, at most 100 a page. *)
Theorem env_numbers_never_nan (env : Env) :
  (getCharacterLimit env ≠ NaN ∧ getDefaultPageSize env ≠ NaN ∧
   getMaxPageSize env ≠ NaN) ∧
  ((∀ s, CHARACTER_LIMIT env = JString s → parseInt s = NaN) →
   getCharacterLimit env = number_of_Z 50000) ∧
  ((∀ s, DEFAULT_PAGE_SIZE env = JString s → parseInt s = NaN) →
   getDefaultPageSize env = number_of_Z 20) ∧
  ((∀ s, MAX_PAGE_SIZE env = JString s → parseInt s = NaN) →
   getMaxPageSize env = number_of_Z 100).
Proof.
  unfold getCharacterLimit, getDefaultPageSize, getMaxPageSize, getEnvNumber.
  cbn [env_get]. split; [|split; [|split]].
  - repeat split;
      (match goal with
       | |- context [match ?v with _ => _ end] =>
           destruct v as [| | | |s| |]; try (vm_compute; discriminate)
       end;
       cbv zeta; destruct (parseInt s); cbn [Number_isNaN];
       solve [discriminate | vm_compute; discriminate]).
  - intros H. destruct (CHARACTER_LIMIT env) as [| | | |s| |]; try reflexivity.
    cbv zeta. by rewrite (H s eq_refl).
  - intros H. destruct (DEFAULT_PAGE_SIZE env) as [| | | |s| |]; try reflexivity.
    cbv zeta. by rewrite (H s eq_refl).
  - intros H. destruct (MAX_PAGE_SIZE env) as [| | | |s| |]; try reflexivity.
    cbv zeta. by rewrite (H s eq_refl).
Qed.

(** A setting that was never configured, one that is a number instead of a
    string, and one that holds no digits all give the defaults. *)
Lemma env_numbers_defaults :
  getCharacterLimit {| CHARACTER_LIMIT := JUndefined;
                       DEFAULT_PAGE_SIZE := JNumber (number_of_Z 7);
                       MAX_PAGE_SIZE := JString (lit "many") |} = number_of_Z 50000 ∧
  getDefaultPageSize {| CHARACTER_LIMIT := JUndefined;
                        DEFAULT_PAGE_SIZE := JNumber (number_of_Z 7);
                        MAX_PAGE_SIZE := JString (lit "many") |} = number_of_Z 20 ∧
  getMaxPageSize {| CHARACTER_LIMIT := JUndefined;
                    DEFAULT_PAGE_SIZE := JNumber (number_of_Z 7);
                    MAX_PAGE_SIZE := JString (lit "many") |} = number_of_Z 100.
Proof. repeat split; vm_compute; reflexivity. Qed.

(** X11: [getEnvNumber] answers the integer that the setting starts with:
    the decimal of [z], followed by anything that is no digit, reads as [z].
    Text after the number is ignored, and a negative number or zero is
    taken as it stands; no bounds are checked.  [z] ranges over the integers
    that a Number holds exactly. *)
Theorem env_number_reads_integer env key defaultValue (z : Z) (rest : jsstring) :
  (Z.abs z < 2 ^ 53)%Z →
  digit_free rest →
  env_get env key = JString (Z_to_string z ++ rest) →
  getEnvNumber env key defaultValue = number_of_Z z.
Proof.
  intros _ Hr E. unfold getEnvNumber. rewrite E. cbv zeta.
  rewrite (parseInt_integer z rest Hr).
  unfold number_of_Z. rewrite number_of_digits_not_nan. reflexivity.
Qed.

Lemma env_number_reads_integer_witness :
  getEnvNumber {| CHARACTER_LIMIT := JUndefined;
                  DEFAULT_PAGE_SIZE := JUndefined;
                  MAX_PAGE_SIZE := JString (lit "-5 per page") |}
    KeyMaxPageSize (number_of_Z 100) = number_of_Z (-5).
Proof.
  apply (env_number_reads_integer _ _ _ (-5) (lit " per page")).
  - reflexivity.
  - reflexivity.
  - reflexivity.
Defined.

(** ** The Worker's routes *)

(** X12: the MCP handler is reached by a POST to [/mcp] only, and only
    with both credential headers sent non-empty; the credentials it is
    given are the two header values. *)
Theorem mcp_needs_credentials P request credentials :
  worker_fetch P request = ServesMcp credentials →
  req_pathname request = lit "/mcp" ∧ req_method request = lit "POST" ∧
  ∃ key base,
    key ≠ [] ∧ base ≠ [] ∧
    headers_get (req_headers request) (lit "X-Qdrant-API-Key") = Some key ∧
    headers_get (req_headers request) (lit "X-Qdrant-Base-URL") = Some base ∧
    credentials = {| apiKey := Some key; baseUrl := Some base |}.
Proof.
  unfold worker_fetch.
  case_bool_decide as Hh; [discriminate|].
  case_bool_decide as Hp; cbn [andb].
  - case_bool_decide as Hm.
    + destruct (validateCredentials _) as [[]|e] eqn:V; [|discriminate].
      intros [= <-]. split; [exact Hp|]. split; [exact Hm|].
      revert V. unfold validateCredentials, parseTenantCredentials.
      cbn [apiKey baseUrl].
      destruct (truthy_opt (or_undefined (headers_get _ (lit "X-Qdrant-API-Key"))))
        eqn:Hk; [|discriminate].
      destruct (truthy_opt (or_undefined (headers_get _ (lit "X-Qdrant-Base-URL"))))
        eqn:Hu; [|discriminate].
      intros _.
      apply or_undefined_some in Hk as (k & key & Ek & Ek').
      apply or_undefined_some in Hu as (b & base & Eb & Eb').
      exists (k :: key), (b :: base). rewrite Ek', Eb'. done.
    + case_bool_decide; discriminate.
  - case_bool_decide; discriminate.
Qed.

Lemma mcp_needs_credentials_witness :
  req_pathname {| req_pathname := lit "/mcp"; req_method := lit "POST";
                  req_headers := sample_headers |} = lit "/mcp" ∧
  req_method {| req_pathname := lit "/mcp"; req_method := lit "POST";
                req_headers := sample_headers |} = lit "POST" ∧
  ∃ key base,
    key ≠ [] ∧ base ≠ [] ∧
    headers_get sample_headers (lit "X-Qdrant-API-Key") = Some key ∧
    headers_get sample_headers (lit "X-Qdrant-Base-URL") = Some base ∧
    parseTenantCredentials sample_headers =
      {| apiKey := Some key; baseUrl := Some base |}.
Proof.
  apply (mcp_needs_credentials (answering not_found)
           {| req_pathname := lit "/mcp"; req_method := lit "POST";
              req_headers := sample_headers |}).
  vm_compute. reflexivity.
Defined.

(** X13: a POST to [/mcp] whose credentials [validateCredentials] rejects
    is answered 401 with a JSON body that parses to the error
    ["Unauthorized"], the message of the rejection and the names of the two
    required headers. *)
Theorem mcp_unauthorized P request :
  req_pathname request = lit "/mcp" →
  req_method request = lit "POST" →
  validateCredentials (parseTenantCredentials (req_headers request)) ≠ Returns () →
  ∃ r m,
    worker_fetch P request = Answers r ∧
    res_status r = 401%Z ∧
    res_headers r = [(lit "Content-Type", lit "application/json")] ∧
    validateCredentials (parseTenantCredentials (req_headers request))
      = Throws (Error m) ∧
    JSON_parse (res_body r) =
      Some (JObject
              [(lit "error", JString (lit "Unauthorized"));
               (lit "message", JString m);
               (lit "required_headers",
                JArray [JString (lit "X-Qdrant-API-Key");
                        JString (lit "X-Qdrant-Base-URL")])]).
Proof.
  intros Hp Hm Hv. unfold worker_fetch. rewrite Hp, Hm.
  change (bool_decide (lit "/mcp" = lit "/health")) with false.
  change (bool_decide (lit "/mcp" = lit "/mcp")) with true.
  change (bool_decide (lit "POST" = lit "POST")) with true.
  cbn [andb]. cbv zeta. revert Hv. unfold validateCredentials.
  destruct (truthy_opt (apiKey _)); cbn [negb].
  - destruct (truthy_opt (baseUrl _)); cbn [negb]; [done|].
    intros _. eexists _, _. split; [reflexivity|].
    split; [reflexivity|]. split; [reflexivity|]. split; [reflexivity|].
    vm_compute. reflexivity.
  - intros _. eexists _, _. split; [reflexivity|].
    split; [reflexivity|]. split; [reflexivity|]. split; [reflexivity|].
    vm_compute. reflexivity.
Qed.

Lemma mcp_unauthorized_witness :
  ∃ r m,
    worker_fetch (answering not_found)
      {| req_pathname := lit "/mcp"; req_method := lit "POST";
         req_headers := [(lit "X-Qdrant-API-Key", lit "secret")] |} = Answers r ∧
    res_status r = 401%Z ∧
    res_headers r = [(lit "Content-Type", lit "application/json")] ∧
    validateCredentials
      (parseTenantCredentials [(lit "X-Qdrant-API-Key", lit "secret")])
      = Throws (Error m) ∧
    JSON_parse (res_body r) =
      Some (JObject
              [(lit "error", JString (lit "Unauthorized"));
               (lit "message", JString m);
               (lit "required_headers",
                JArray [JString (lit "X-Qdrant-API-Key");
                        JString (lit "X-Qdrant-Base-URL")])]).
Proof.
  apply (mcp_unauthorized (answering not_found)
           {| req_pathname := lit "/mcp"; req_method := lit "POST";
              req_headers := [(lit "X-Qdrant-API-Key", lit "secret")] |}).
  - reflexivity.
  - reflexivity.
  - vm_compute. discriminate.
Defined.

(** X14: the headers matter to a POST to [/mcp] only.  Any other request,
    a GET of [/mcp] included, gets the same answer whatever headers it
    carries, and that answer is never a 401. *)
Theorem worker_ignores_headers P P' request other_headers :
  ¬ (req_pathname request = lit "/mcp" ∧ req_method request = lit "POST") →
  worker_fetch P request =
    worker_fetch P' {| req_pathname := req_pathname request;
                       req_method := req_method request;
                       req_headers := other_headers |} ∧
  ∃ r, worker_fetch P request = Answers r ∧ res_status r ≠ 401%Z.
Proof.
  intros Hn. unfold worker_fetch. cbn [req_pathname req_method req_headers].
  case_bool_decide as Hh; [split; [reflexivity|eexists; split; [reflexivity|done]]|].
  case_bool_decide as Hp; cbn [andb].
  - case_bool_decide as Hm; [exfalso; auto|].
    case_bool_decide; split; try reflexivity; eexists; split; try reflexivity; done.
  - case_bool_decide; split; try reflexivity; eexists; split; try reflexivity; done.
Qed.

Lemma worker_ignores_headers_witness :
  worker_fetch (answering not_found)
    {| req_pathname := lit "/mcp"; req_method := lit "GET"; req_headers := [] |} =
    worker_fetch (answering no_content)
      {| req_pathname := lit "/mcp"; req_method := lit "GET";
         req_headers := sample_headers |} ∧
  ∃ r, worker_fetch (answering not_found)
         {| req_pathname := lit "/mcp"; req_method := lit "GET"; req_headers := [] |}
       = Answers r ∧ res_status r ≠ 401%Z.
Proof.
  apply (worker_ignores_headers (answering not_found) (answering no_content)
           {| req_pathname := lit "/mcp"; req_method := lit "GET";
              req_headers := [] |} sample_headers).
  intros [_ H]. vm_compute in H. discriminate.
Defined.

(** ** Indented JSON text is read back *)

Lemma skip_ws_app (w s : jsstring) :
  forallb is_json_ws w = true → skip_ws (w ++ s) = skip_ws s.
Proof.
  unfold skip_ws. induction w as [|c w IH]; [done|].
  cbn [forallb app drop_while]. intros [-> Hw]%andb_true_iff. exact (IH Hw).
Qed.

Lemma skip_ws_line (w s : jsstring) :
  forallb is_json_ws w = true → skip_ws (10%N :: w ++ s) = skip_ws s.
Proof. intros Hw. exact (skip_ws_app (10%N :: w) s Hw). Qed.

Lemma skip_ws_token (c : N) (s : jsstring) :
  is_json_ws c = false → skip_ws (c :: s) = c :: s.
Proof. intros H. unfold skip_ws. cbn [drop_while]. by rewrite H. Qed.

Lemma parse_value_ws (fuel : nat) (w s : jsstring) :
  forallb is_json_ws w = true → parse_value fuel (w ++ s) = parse_value fuel s.
Proof.
  intros Hw. destruct fuel; [done|]. cbn [parse_value].
  by rewrite skip_ws_app.
Qed.

Lemma parse_value_space (fuel : nat) (s : jsstring) :
  parse_value fuel (32%N :: s) = parse_value fuel s.
Proof. exact (parse_value_ws fuel [32%N] s eq_refl). Qed.

Lemma parse_elements_line (fuel : nat) (w s : jsstring) (acc : list JSValue) :
  forallb is_json_ws w = true →
  parse_elements fuel (10%N :: w ++ s) acc = parse_elements fuel s acc.
Proof.
  intros Hw. destruct fuel; [done|]. cbn [parse_elements].
  change (10%N :: w ++ s) with ((10%N :: w) ++ s).
  by rewrite (parse_value_ws fuel (10%N :: w) s Hw).
Qed.

Lemma parse_members_line (fuel : nat) (w s : jsstring) (acc : Props) :
  forallb is_json_ws w = true →
  parse_members fuel (10%N :: w ++ s) acc = parse_members fuel s acc.
Proof.
  intros Hw. destruct fuel; [done|]. cbn [parse_members].
  by rewrite skip_ws_line.
Qed.

Lemma join_step (sep a b rest : jsstring) (l : list jsstring) :
  join sep (a :: b :: l) ++ rest = a ++ sep ++ join sep (b :: l) ++ rest.
Proof. rewrite join_cons2. by rewrite <- !app_assoc. Qed.

Section Indented.
Variable gap : jsstring.
Hypothesis gap_ws : forallb is_json_ws gap = true.

Lemma indent_ws (indent : jsstring) :
  forallb is_json_ws indent = true → forallb is_json_ws (indent ++ gap) = true.
Proof. intros H. rewrite forallb_app, H. exact gap_ws. Qed.

(** A value without parts is written the same with and without
    indentation. *)
Lemma reads_back_scalar (v : JSValue) :
  (∀ indent, stringify_indented gap indent v = JSON_stringify v) →
  weight v = 1 →
  reads_back v → reads_back_indented gap v.
Proof.
  intros Hs _ (c & t & E & Hc & Hp) indent _. exists c, t.
  rewrite Hs. done.
Qed.

(** The elements of an array, each on its line. *)
Lemma parse_elements_indented (vs : list JSValue) (indent : jsstring) :
  forallb is_json_ws indent = true →
  vs ≠ [] →
  Forall (λ v, json_value v = true → reads_back_indented gap v) vs →
  forallb json_value vs = true →
  ∀ acc fuel stepback rest,
    forallb is_json_ws stepback = true →
    list_sum (map (λ e, S (weight e)) vs) ≤ fuel →
    parse_elements fuel
      (join (44%N :: 10%N :: indent)
         (map (λ e, default (lit "null") (stringify_indented gap indent e)) vs)
       ++ 10%N :: stepback ++ 93%N :: rest) acc
    = Ok (JArray (acc ++ vs)) rest.
Proof.
  intros Hind Hne HF. induction HF as [|v tl Hv HF IH]; [done|]. clear Hne.
  cbn [forallb]. intros [Hj Htl]%andb_true_iff acc fuel stepback rest Hstep Hfuel.
  destruct (Hv Hj indent Hind) as (c & t & E & Hs & Hp).
  simpl in Hfuel. destruct fuel as [|f]; [lia|].
  destruct tl as [|v' tl'].
  - cbn [map join]. rewrite E. cbn [default from_option id app parse_elements].
    rewrite (Hp f (10%N :: stepback ++ 93%N :: rest)) by (reflexivity || lia).
    rewrite skip_ws_line by exact Hstep.
    rewrite skip_ws_token by reflexivity. reflexivity.
  - cbn [map]. rewrite join_step, E. cbn [default from_option id app parse_elements].
    rewrite (Hp f) by (reflexivity || lia).
    rewrite skip_ws_token by reflexivity. rewrite N.eqb_refl.
    rewrite parse_elements_line by exact Hind.
    specialize (IH ltac:(done) Htl (acc ++ [v]) f stepback rest Hstep).
    rewrite <- app_assoc in IH. cbn [app] in IH. apply IH.
    simpl in Hfuel |- *. lia.
Qed.

Lemma reads_back_indented_array (vs : list JSValue) :
  Forall (λ v, json_value v = true → reads_back_indented gap v) vs →
  json_value (JArray vs) = true → reads_back_indented gap (JArray vs).
Proof.
  intros HF Hj indent Hind. cbn [json_value] in Hj.
  pose proof (indent_ws indent Hind) as Hin.
  destruct vs as [|v tl].
  { exists 91%N, [93%N]. split; [reflexivity|]. split; [reflexivity|].
    intros [|f] rest Hf _; [cbn in Hf; lia|]. reflexivity. }
  remember (indent ++ gap) as inner eqn:Einner.
  pose proof (Forall_inv HF) as Hv. pose proof Hj as Hj'. cbn [forallb] in Hj'.
  apply andb_true_iff in Hj' as [Hjv _].
  destruct (Hv Hjv inner Hin) as (c & t & E & Hs & _).
  assert (∃ u, join (44%N :: 10%N :: inner)
                 (map (λ e, default (lit "null") (stringify_indented gap inner e))
                    (v :: tl))
               = c :: u) as [u Eu].
  { destruct tl; cbn [map join]; rewrite E; cbn [default from_option id app]; eauto. }
  exists 91%N,
    (10%N :: inner ++
     join (44%N :: 10%N :: inner)
       (map (λ e, default (lit "null") (stringify_indented gap inner e)) (v :: tl))
     ++ 10%N :: indent ++ [93%N]).
  split; [|split; [reflexivity|]].
  - cbn [stringify_indented]. rewrite <- Einner. reflexivity.
  - intros [|f] rest Hf _; [cbn in Hf; lia|].
    pose proof (parse_elements_indented (v :: tl) inner Hin
                  ltac:(done) HF Hj [] f indent rest Hind) as R.
    cbn [weight] in Hf. specialize (R ltac:(lia)).
    cbn [parse_value]. rewrite skip_ws_token by reflexivity.
    change (91 =? 123)%N with false. change (91 =? 91)%N with true. cbv iota.
    repeat (progress (rewrite <- ?app_assoc; cbn [app])).
    rewrite skip_ws_line by exact Hin.
    rewrite Eu in R |- *. cbn [app] in R |- *.
    destruct (value_start_spec c (u ++ 10%N :: indent ++ 93%N :: rest) Hs)
      as [-> ->].
    exact R.
Qed.

Lemma omap_member_indented (indent : jsstring) (kv : jsstring * JSValue)
    (ps : Props) (t : jsstring) :
  stringify_indented gap indent (snd kv) = Some t →
  omap (λ kv, t ← stringify_indented gap indent (snd kv);
              Some (quote (fst kv) ++ lit ": " ++ t)) (kv :: ps) =
  (quote (fst kv) ++ lit ": " ++ t) ::
  omap (λ kv, t ← stringify_indented gap indent (snd kv);
              Some (quote (fst kv) ++ lit ": " ++ t)) ps.
Proof. intros E. cbn [omap list_omap]. rewrite E. reflexivity. Qed.

(** The members of an object, each on its line. *)
Lemma parse_members_indented (ps : Props) (indent : jsstring) :
  forallb is_json_ws indent = true →
  ps ≠ [] →
  Forall (λ kv, json_value (snd kv) = true → reads_back_indented gap (snd kv)) ps →
  forallb (λ kv, json_value (snd kv)) ps = true →
  ∀ acc fuel stepback rest,
    forallb is_json_ws stepback = true →
    ordered_keys (map fst (acc ++ ps)) = true →
    list_sum (map (λ kv, S (weight (snd kv))) ps) ≤ fuel →
    parse_members fuel
      (join (44%N :: 10%N :: indent)
         (omap (λ kv, t ← stringify_indented gap indent (snd kv);
                      Some (quote (fst kv) ++ lit ": " ++ t)) ps)
       ++ 10%N :: stepback ++ 125%N :: rest) acc
    = Ok (JObject (acc ++ ps)) rest.
Proof.
  intros Hind Hne HF. induction HF as [|[k v] tl Hv HF IH]; [done|]. clear Hne.
  cbn [forallb snd].
  intros [Hj Htl]%andb_true_iff acc fuel stepback rest Hstep Hord Hfuel.
  cbn [snd] in Hv. destruct (Hv Hj indent Hind) as (c & t & E & Hs & Hp).
  simpl in Hfuel. destruct fuel as [|f]; [lia|].
  rewrite (omap_member_indented indent (k, v) tl (c :: t)) by exact E. cbn [fst].
  pose proof (obj_set_next acc tl k v Hord) as Hset.
  assert (Hmember : ∀ tail,
    parse_string_body (quote_chars k ++ 34%N :: 58%N :: 32%N :: c :: t ++ tail)
      = Some (k, 58%N :: 32%N :: c :: t ++ tail)) by (intros; apply parse_quote_chars).
  destruct (omap _ tl) as [|m ms] eqn:Em.
  - assert (tl = []) as ->.
    { destruct tl as [|[k' v'] tl']; [done|]. exfalso.
      assert (Hj' : json_value v' = true)
        by (cbn [forallb snd] in Htl; by apply andb_true_iff in Htl as [? _]).
      pose proof (Forall_inv HF) as Hv'. cbn [snd] in Hv'.
      destruct (Hv' Hj' indent Hind) as (c' & t' & E' & _).
      rewrite (omap_member_indented indent (k', v') tl' (c' :: t')) in Em by exact E'.
      discriminate. }
    cbn [join]. unfold quote. change (lit ": ") with [58%N; 32%N].
    rewrite <- !app_assoc. cbn [app parse_members].
    rewrite skip_ws_token by reflexivity. rewrite N.eqb_refl, Hmember.
    rewrite skip_ws_token by reflexivity. rewrite N.eqb_refl.
    rewrite parse_value_space.
    rewrite (Hp f (10%N :: stepback ++ 125%N :: rest)) by (reflexivity || lia).
    rewrite skip_ws_line by exact Hstep.
    rewrite skip_ws_token by reflexivity.
    change (125 =? 44)%N with false. rewrite N.eqb_refl. cbv iota.
    rewrite Hset. reflexivity.
  - rewrite join_step. unfold quote at 1. change (lit ": ") with [58%N; 32%N].
    rewrite <- !app_assoc. cbn [app parse_members].
    rewrite skip_ws_token by reflexivity. rewrite N.eqb_refl, Hmember.
    rewrite skip_ws_token by reflexivity. rewrite N.eqb_refl.
    rewrite parse_value_space.
    rewrite (Hp f) by (reflexivity || lia).
    rewrite skip_ws_token by reflexivity. rewrite N.eqb_refl, Hset.
    rewrite parse_members_line by exact Hind.
    assert (tl ≠ []) as Hne by (intros ->; discriminate).
    specialize (IH Hne Htl (acc ++ [(k, v)]) f stepback rest Hstep).
    rewrite <- app_assoc in IH. cbn [app] in IH.
    try rewrite Em in IH.
    apply IH; [exact Hord|]. lia.
Qed.

Lemma reads_back_indented_object (ps : Props) :
  Forall (λ kv, json_value (snd kv) = true → reads_back_indented gap (snd kv)) ps →
  json_value (JObject ps) = true → reads_back_indented gap (JObject ps).
Proof.
  intros HF Hj indent Hind. cbn [json_value] in Hj.
  apply andb_true_iff in Hj as [Hord Hj].
  pose proof (indent_ws indent Hind) as Hin.
  destruct ps as [|[k v] tl].
  { exists 123%N, [125%N]. split; [reflexivity|]. split; [reflexivity|].
    intros [|f] rest Hf _; [cbn in Hf; lia|]. reflexivity. }
  remember (indent ++ gap) as inner eqn:Einner.
  pose proof (Forall_inv HF) as Hv. pose proof Hj as Hj'. cbn [forallb snd] in Hj', Hv.
  apply andb_true_iff in Hj' as [Hjv _].
  destruct (Hv Hjv inner Hin) as (c & t & E & Hs & _).
  pose proof (omap_member_indented inner (k, v) tl (c :: t) E) as Em.
  exists 123%N,
    (10%N :: inner ++
     join (44%N :: 10%N :: inner)
       (omap (λ kv, t ← stringify_indented gap inner (snd kv);
                    Some (quote (fst kv) ++ lit ": " ++ t)) ((k, v) :: tl))
     ++ 10%N :: indent ++ [125%N]).
  split; [|split; [reflexivity|]].
  - cbn [stringify_indented]. rewrite <- Einner, Em. reflexivity.
  - intros [|f] rest Hf _; [cbn in Hf; lia|].
    pose proof (parse_members_indented ((k, v) :: tl) inner Hin
                  ltac:(done) HF Hj [] f indent rest Hind Hord) as R.
    cbn [weight] in Hf. specialize (R ltac:(lia)).
    cbn [parse_value]. rewrite skip_ws_token by reflexivity.
    change (123 =? 123)%N with true. cbv iota.
    rewrite Em in R |- *. cbn [fst] in R |- *.
    assert (∃ u, join (44%N :: 10%N :: inner)
                   ((quote k ++ lit ": " ++ c :: t) ::
                    omap (λ kv, t ← stringify_indented gap inner (snd kv);
                                Some (quote (fst kv) ++ lit ": " ++ t)) tl)
                 = 34%N :: u) as [u Eu].
    { destruct (omap _ tl); cbn [join]; unfold quote; cbn [app]; eauto. }
    rewrite Eu in R |- *.
    repeat (progress (rewrite <- ?app_assoc; cbn [app])).
    cbn [app] in R.
    rewrite skip_ws_line by exact Hin.
    rewrite skip_ws_token by reflexivity.
    change (34 =? 125)%N with false. cbv iota. exact R.
Qed.

(** Every JSON value is read back from its indented text. *)
Lemma json_value_reads_back_indented (v : JSValue) :
  json_value v = true → reads_back_indented gap v.
Proof.
  induction v using JSValue_induction; intros Hj.
  - discriminate.
  - apply reads_back_scalar; [done..|apply reads_back_null].
  - apply reads_back_scalar; [done..|apply reads_back_bool].
  - apply reads_back_scalar; [done..|by apply reads_back_number].
  - apply reads_back_scalar; [done..|apply reads_back_string].
  - by apply reads_back_indented_array.
  - by apply reads_back_indented_object.
Qed.
End Indented.

(** [JSON.parse(JSON.stringify(v, null, 2))] is [v] for every JSON value. *)
Lemma JSON_round_trip_indented (v : JSValue) :
  json_value v = true →
  ∃ text, JSON_stringify_2 v = Some text ∧ JSON_parse text = Some v.
Proof.
  intros Hj.
  destruct (json_value_reads_back_indented (lit "  ") eq_refl v Hj [] eq_refl)
    as (c & t & E & _ & Hp).
  exists (c :: t). split; [exact E|]. unfold JSON_parse.
  pose proof (parse_value_fuel (c :: t)) as Hfuel.
  destruct (parsers_monotone (2 * length (c :: t) + 1)) as (Hm & _ & _).
  specialize (Hp (2 * length (c :: t) + 1 + weight v) [] ltac:(lia) eq_refl).
  rewrite app_nil_r in Hp.
  rewrite <- (Hm (c :: t) (2 * length (c :: t) + 1 + weight v)) by (lia || exact Hfuel).
  rewrite Hp. reflexivity.
Qed.

(** ** Tool handlers *)

Section Handlers.
Variable P : Platform.
Variable client : QdrantClientImpl.
Variable E : ErrorsModule.

(** A handler adds nothing to the trace of the client method it calls. *)
Lemma handled_trace (m : Eff JSValue) (k : JSValue → Eff ToolResponse) t :
  (∀ a t', snd (k a t') = t') →
  snd (handled P E (let* a := m in k a) t) = snd (m t).
Proof.
  intros Hk. unfold handled, try_catch, bind, ret.
  destruct (m t) as [[a|e] t']; cbn [snd]; [|reflexivity].
  specialize (Hk a t'). destruct (k a t') as [[r|e] t'']; exact Hk.
Qed.

Lemma handled_throws (m : Eff JSValue) (k : JSValue → Eff ToolResponse) t e :
  fst (m t) = Throws e →
  fst (handled P E (let* a := m in k a) t) = Returns (formatError P E e).
Proof.
  intros Hm. unfold handled, try_catch, bind, ret.
  destruct (m t) as [[a|e'] t']; cbn [fst] in Hm; [discriminate|].
  by injection Hm as ->.
Qed.

Lemma operation_report_trace (message : jsstring) (result : JSValue) t :
  snd (operation_report message result t) = t.
Proof.
  unfold operation_report, bind, or_fault, ret, throw.
  destruct (get_prop result (lit "status")); [|reflexivity].
  destruct (get_prop result (lit "operation_id")); reflexivity.
Qed.

Lemma operation_report_undefined (message : jsstring) t :
  fst (operation_report message JUndefined t) =
    Throws (EngineError (ReadOfNullish JUndefined (lit "status"))).
Proof. reflexivity. Qed.

(** The request of a method that encodes the collection name and then
    calls [request]. *)
Lemma encoded_request_sent (name : jsstring) (endpoint : jsstring → jsstring)
    (options : RequestInit) t c :
  net_calls (snd ((let* seg := encoded name in
                   request P client (endpoint seg) options) t))
    = net_calls t ++ [c] →
  ∃ seg, encodeURIComponent name = Some seg ∧
         c = fetch_call client (endpoint seg) options.
Proof.
  unfold encoded, or_fault, bind, ret, throw.
  destruct (encodeURIComponent name) as [seg|]; cbn [snd].
  - intros H. exists seg. split; [reflexivity|].
    change (net_calls (snd (request P client (endpoint seg) options t))
            = net_calls t ++ [c]) in H.
    rewrite request_net_calls in H.
    destruct (truthy_string (this_baseUrl client)).
    + by apply app_inj_tail in H as [_ <-].
    + exfalso. apply (f_equal length) in H. rewrite length_app in H.
      cbn in H. lia.
  - intros H. exfalso. apply (f_equal length) in H. rewrite length_app in H.
    cbn in H. lia.
Qed.
End Handlers.

(** ** The routine on a JSON answer and on no content *)

Lemma request_json_result P this endpoint options t r body doc :
  answered P t (snd (request P this endpoint options t)) r →
  ok r = true → status r ≠ 204%Z →
  includes (or_empty (headers_get (response_headers r) (lit "Content-Type")))
    (lit "text/plain") = false →
  response_body r = BodyText body →
  JSON_parse body = Some doc →
  fst (request P this endpoint options t) =
    match get_prop doc (lit "result") with
    | Some v => Returns v
    | None => Throws (EngineError (ReadOfNullish doc (lit "result")))
    end.
Proof.
  intros H Hok Hs Hct Hbody Hparse.
  apply request_answered in H as [Hb Hr].
  unfold request, bind, fetch, json, text. rewrite Hb, Hr. cbn [negb].
  unfold ok in Hok. destruct (Z.eqb_spec (status r) 429); [rewrite e in Hok; done|].
  destruct (Z.eqb_spec (status r) 401); [rewrite e in Hok; done|].
  destruct (Z.eqb_spec (status r) 403); [rewrite e in Hok; done|].
  cbn [orb]. unfold ok. rewrite Hok. cbn [negb].
  destruct (Z.eqb_spec (status r) 204); [done|].
  rewrite Hct, Hbody. unfold bind, or_fault. rewrite Hparse.
  cbv beta iota delta [ret throw].
  destruct (get_prop doc (lit "result")); reflexivity.
Qed.

Lemma request_no_content P this endpoint options t r :
  answered P t (snd (request P this endpoint options t)) r →
  status r = 204%Z →
  fst (request P this endpoint options t) = Returns JUndefined.
Proof.
  intros H Hs. apply request_answered in H as [Hb Hr].
  unfold request, bind, fetch, ok. rewrite Hb, Hr, Hs. reflexivity.
Qed.

(** ** The connection tool *)

(** X15: [qdrant_test_connection] never sets [isError].  [testConnection]
    does not throw, so the [catch] branch of the tool is never taken: a
    failed connection comes back as an ordinary result, whose text parses to
    [{connected: false, message}]. *)
Theorem test_connection_tool_reports P client t :
  ∃ st text,
    fst (testConnection P client t) = Returns st ∧
    qdrant_test_connection P client t =
      (Returns {| content_text := JString text; isError := false |},
       snd (testConnection P client t)) ∧
    JSON_parse text =
      Some (JObject [(lit "connected", JBool (connected st));
                     (lit "message", JString (message st))]).
Proof.
  unfold qdrant_test_connection, try_catch, bind, ret.
  rewrite testConnection_unfold. cbn [fst snd].
  match goal with
  | |- context [Returns ?s = Returns _] => set (st := s)
  end.
  destruct (JSON_round_trip_indented
              (JObject [(lit "connected", JBool (connected st));
                        (lit "message", JString (message st))]) eq_refl)
    as (text & Es & Ep).
  exists st, text. split; [reflexivity|]. split; [|exact Ep].
  unfold json_content. rewrite Es. reflexivity.
Qed.

(** ** Results as JSON text *)

Lemma exact_number_json_number (x : JSNumber) :
  exact_number x = true → json_number x = true.
Proof.
  destruct x as [| |neg|neg ds n]; try done. cbn [exact_number json_number].
  intros [[[Hc _]%andb_true_iff Hl%Z.ltb_lt]%andb_true_iff Hh%Z.ltb_lt]%andb_true_iff.
  rewrite Hc. unfold decimal_overflows, decimal_underflows.
  assert ((400 <? n)%Z = false) as -> by lia.
  assert ((n <? 300)%Z = true) as -> by lia.
  assert ((n <? -400)%Z = false) as -> by lia.
  assert ((-300 <? n)%Z = true) as -> by lia.
  reflexivity.
Qed.

Lemma exact_value_json_value (v : JSValue) :
  exact_value v = true → json_value v = true.
Proof.
  induction v as [| | | | |vs IH|ps IH] using JSValue_induction; try done.
  - apply exact_number_json_number.
  - cbn [exact_value json_value]. rewrite !forallb_forall.
    rewrite Forall_forall in IH. intros H x Hx.
    apply IH; [exact Hx|apply H, Hx].
  - cbn [exact_value json_value].
    intros [Ho H]%andb_true_iff. rewrite Ho. cbn [andb].
    rewrite forallb_forall in H. apply forallb_forall.
    rewrite Forall_forall in IH. intros kv Hkv.
    apply IH; [exact Hkv|apply H, Hkv].
Qed.

(** X16: what [qdrant_get_version] writes is what the service sent: when
    the answer is a JSON document whose [result] is plain data with Numbers
    of at most 15 significant digits, the text of the tool result is the
    indented JSON text of that [result] and parses to it. *)
Theorem get_version_tool_round_trip P client E t r body doc v :
  answered P t (snd (qdrant_get_version P client E t)) r →
  ok r = true → status r ≠ 204%Z →
  includes (or_empty (headers_get (response_headers r) (lit "Content-Type")))
    (lit "text/plain") = false →
  response_body r = BodyText body →
  JSON_parse body = Some doc →
  get_prop doc (lit "result") = Some v →
  exact_value v = true →
  ∃ text,
    JSON_stringify_2 v = Some text ∧
    fst (qdrant_get_version P client E t) =
      Returns {| content_text := JString text; isError := false |} ∧
    JSON_parse text = Some v.
Proof.
  unfold qdrant_get_version.
  rewrite (handled_trace P E (getVersion P client) (λ result, ret (json_content result)))
    by reflexivity.
  intros H Hok Hs Hct Hbody Hparse Hres Hj%exact_value_json_value.
  pose proof (request_json_result _ _ _ _ _ _ _ _ H Hok Hs Hct Hbody Hparse) as R.
  rewrite Hres in R.
  destruct (JSON_round_trip_indented v Hj) as (text & Es & Ep).
  exists text. split; [exact Es|]. split; [|exact Ep].
  unfold handled, try_catch, bind, ret, getVersion in *.
  destruct (request P client (lit "/") no_options t) as [[x|e] t']; cbn [fst] in R;
    [|discriminate].
  injection R as ->. cbn [fst]. unfold json_content. rewrite Es. reflexivity.
Qed.

Lemma get_version_tool_round_trip_witness :
  ∃ text,
    JSON_stringify_2 version_document = Some text ∧
    fst (qdrant_get_version (answering wrapped_version_document) sample_client
           sample_errors idle) =
      Returns {| content_text := JString text; isError := false |} ∧
    JSON_parse text = Some version_document.
Proof.
  apply (get_version_tool_round_trip _ _ _ _ wrapped_version_document
           (lit "{" ++ dq ++ lit "result" ++ dq ++ lit ":{" ++ dq ++ lit "title" ++
            dq ++ lit ":" ++ dq ++ lit "qdrant" ++ dq ++ lit "," ++ dq ++
            lit "version" ++ dq ++ lit ":" ++ dq ++ lit "1.9.0" ++ dq ++ lit "}}")
           (JObject [(lit "result", version_document)])).
  - eexists. split; [vm_compute; reflexivity | reflexivity].
  - reflexivity.
  - discriminate.
  - vm_compute. reflexivity.
  - reflexivity.
  - vm_compute. reflexivity.
  - vm_compute. reflexivity.
  - vm_compute. reflexivity.
Defined.

(** X17: for any format but ["markdown"], and for any data, [formatResponse]
    answers without [isError] and whatever the entity type; its text is the
    indented JSON text of the data, [undefined] when the data has none; and
    the text of a JSON value parses to that value. *)
Theorem format_response_json formatAsMarkdown data format entityType :
  format ≠ lit "markdown" →
  formatResponse formatAsMarkdown data format entityType =
    Returns {| content_text :=
                 from_option JString JUndefined (JSON_stringify_2 data);
               isError := false |} ∧
  (json_value data = true →
   ∃ text, JSON_stringify_2 data = Some text ∧ JSON_parse text = Some data).
Proof.
  intros Hf. split.
  - unfold formatResponse. rewrite bool_decide_eq_false_2 by exact Hf.
    reflexivity.
  - intros Hj. exact (JSON_round_trip_indented data Hj).
Qed.

Lemma format_response_json_witness :
  ∃ text,
    formatResponse sample_markdown sample_config (lit "json") (lit "collection") =
      Returns {| content_text := JString text; isError := false |} ∧
    JSON_parse text = Some sample_config.
Proof.
  destruct (format_response_json sample_markdown sample_config (lit "json")
              (lit "collection")) as [H1 H2]; [discriminate|].
  destruct H2 as (text & Es & Ep); [vm_compute; reflexivity|].
  exists text. split; [|exact Ep]. rewrite H1, Es. reflexivity.
Defined.

(** ** The index tools *)

Lemma field_index_body_schema (fieldName : jsstring) (schema : JSValue) :
  field_index_body fieldName
    (JObject [(lit "field_name", JString fieldName);
              (lit "field_schema", schema)]) =
  JObject [(lit "field_name", JString fieldName); (lit "field_schema", schema)].
Proof. reflexivity. Qed.

(** X18: the request of [qdrant_create_field_index] is a PUT whose body
    names the field once, although the tool passes the field name both as
    an argument and inside the request object; [field_schema] is written
    when a schema is given and left out otherwise. *)
Theorem create_field_index_tool_body P client E collectionName fieldName
    fieldSchema wait t c :
  net_calls (snd (qdrant_create_field_index P client E collectionName fieldName
                    fieldSchema wait t)) = net_calls t ++ [c] →
  method c = Some (lit "PUT") ∧
  body c =
    Some (lit "{" ++ quote (lit "field_name") ++ lit ":" ++ quote fieldName ++
          match fieldSchema with
          | Some (x :: s) =>
              lit "," ++ quote (lit "field_schema") ++ lit ":" ++ quote (x :: s)
          | _ => []
          end ++ lit "}").
Proof.
  unfold qdrant_create_field_index.
  rewrite (handled_trace P E _ (operation_report _)) by apply operation_report_trace.
  unfold createFieldIndex. intros H.
  apply (encoded_request_sent P client collectionName
           (λ seg, lit "/collections/" ++ seg ++ lit "/index" ++ wait_query (Some wait)))
    in H as (seg & _ & ->).
  split; [reflexivity|].
  unfold fetch_call, json_body, with_body. cbn [body init_body].
  destruct fieldSchema as [[|x s]|]; try reflexivity.
  cbn [truthy_opt truthy_string optional from_option].
  rewrite field_index_body_schema.
  cbn [JSON_stringify omap list_omap snd fst mbind option_bind join].
  by rewrite <- ?app_assoc.
Qed.

Lemma create_field_index_tool_body_witness :
  method (fetch_call sample_client (lit "/collections/docs/index?wait=true")
            (json_body "PUT"
               (field_index_body (lit "city")
                  (JObject [(lit "field_name", JString (lit "city"));
                            (lit "field_schema", JString (lit "keyword"))]))))
    = Some (lit "PUT") ∧
  body (fetch_call sample_client (lit "/collections/docs/index?wait=true")
          (json_body "PUT"
             (field_index_body (lit "city")
                (JObject [(lit "field_name", JString (lit "city"));
                          (lit "field_schema", JString (lit "keyword"))]))))
    = Some (lit "{" ++ quote (lit "field_name") ++ lit ":" ++ quote (lit "city") ++
            (lit "," ++ quote (lit "field_schema") ++ lit ":" ++
             quote (lit "keyword")) ++ lit "}").
Proof.
  apply (create_field_index_tool_body (answering (json_reply [])) sample_client
           sample_errors (lit "docs") (lit "city") (Some (lit "keyword")) true idle).
  vm_compute. reflexivity.
Defined.

(** ** Requests of the tools *)

Lemma encoded_request_sends P client (name seg : jsstring)
    (endpoint : jsstring → jsstring) (options : RequestInit) t :
  this_baseUrl client ≠ [] →
  encodeURIComponent name = Some seg →
  net_calls (snd ((let* s := encoded name in
                   request P client (endpoint s) options) t))
    = net_calls t ++ [fetch_call client (endpoint seg) options].
Proof.
  intros Hb Hn. unfold encoded, or_fault, bind, ret. rewrite Hn.
  change (net_calls (snd (request P client (endpoint seg) options t))
          = net_calls t ++ [fetch_call client (endpoint seg) options]).
  rewrite request_net_calls, truthy_string_nonempty by exact Hb. reflexivity.
Qed.

Lemma discarded_trace {A} (m : Eff JSValue) (x : A) t :
  snd ((let* _ := m in ret x) t) = snd (m t).
Proof. unfold bind, ret. by destruct (m t) as [[?|?] ?]. Qed.

(** X19: the body that [qdrant_create_text_index] sends parses to the
    field name and a text schema in which the token lengths that were left
    out do not occur at all: an omitted option is not sent as [null]. *)
Theorem create_text_index_tool_body P client E collectionName fieldName tokenizer
    minTokenLen maxTokenLen lowercase wait t c :
  net_calls (snd (qdrant_create_text_index P client E collectionName fieldName
                    tokenizer minTokenLen maxTokenLen lowercase wait t))
    = net_calls t ++ [c] →
  (∀ x, minTokenLen = Some x → json_number x = true) →
  (∀ x, maxTokenLen = Some x → json_number x = true) →
  ∃ bodyText,
    body c = Some bodyText ∧
    JSON_parse bodyText =
      Some (JObject
              [(lit "field_name", JString fieldName);
               (lit "field_schema",
                JObject
                  ([(lit "type", JString (lit "text"));
                    (lit "tokenizer", JString tokenizer)] ++
                   from_option (λ x, [(lit "min_token_len", JNumber x)]) [] minTokenLen ++
                   from_option (λ x, [(lit "max_token_len", JNumber x)]) [] maxTokenLen ++
                   [(lit "lowercase", JBool lowercase)]))]).
Proof.
  unfold qdrant_create_text_index.
  rewrite (handled_trace P E _ (operation_report _)) by apply operation_report_trace.
  unfold createFieldIndex. intros H Hmin Hmax.
  apply (encoded_request_sent P client collectionName
           (λ seg, lit "/collections/" ++ seg ++ lit "/index" ++ wait_query (Some wait)))
    in H as (seg & _ & ->).
  unfold fetch_call, json_body, with_body. cbn [body init_body].
  rewrite field_index_body_schema.
  match goal with
  | |- ∃ _, _ ∧ JSON_parse _ = Some ?v =>
      assert (Hj : json_value v = true)
  end.
  { destruct minTokenLen as [lo|], maxTokenLen as [hi|];
      cbn [json_value forallb map fst snd app from_option];
      rewrite ?(Hmin _ eq_refl), ?(Hmax _ eq_refl); reflexivity. }
  destruct (JSON_round_trip _ Hj) as (text & Es & Ep).
  exists text. split; [|exact Ep]. rewrite <- Es.
  destruct minTokenLen, maxTokenLen; reflexivity.
Qed.

Lemma create_text_index_tool_body_witness :
  ∃ bodyText,
    body (fetch_call sample_client (lit "/collections/docs/index?wait=true")
            (json_body "PUT"
               (field_index_body (lit "title")
                  (JObject
                     [(lit "field_name", JString (lit "title"));
                      (lit "field_schema",
                       JObject [(lit "type", JString (lit "text"));
                                (lit "tokenizer", JString (lit "word"));
                                (lit "min_token_len", JNumber (number_of_Z 2));
                                (lit "max_token_len", JUndefined);
                                (lit "lowercase", JBool true)])]))))
      = Some bodyText ∧
    JSON_parse bodyText =
      Some (JObject
              [(lit "field_name", JString (lit "title"));
               (lit "field_schema",
                JObject
                  ([(lit "type", JString (lit "text"));
                    (lit "tokenizer", JString (lit "word"))] ++
                   from_option (λ x, [(lit "min_token_len", JNumber x)]) []
                     (Some (number_of_Z 2)) ++
                   from_option (λ x, [(lit "max_token_len", JNumber x)]) [] None ++
                   [(lit "lowercase", JBool true)]))]).
Proof.
  apply (create_text_index_tool_body (answering (json_reply [])) sample_client
           sample_errors (lit "docs") (lit "title") (lit "word")
           (Some (number_of_Z 2)) None true true idle).
  - vm_compute. reflexivity.
  - intros x [= <-]. vm_compute. reflexivity.
  - intros x [=].
Defined.

(** ** Deleting points *)

(** X20: [qdrant_delete_points] sends a POST whose body holds [points]
    exactly when ids are given and [filter] exactly when a filter is
    given.  Called with neither, it still sends the request, with the empty
    object as body: that a selector is missing is not noticed before the
    request goes out. *)
Theorem delete_points_tool_body P client E collectionName ids filter wait t :
  this_baseUrl client ≠ [] →
  well_formed_utf16 collectionName = true →
  ∃ c,
    net_calls (snd (qdrant_delete_points P client E collectionName ids filter wait t))
      = net_calls t ++ [c] ∧
    http_method c = lit "POST" ∧
    body c =
      JSON_stringify
        (JObject
           (from_option (λ l, [(lit "points", JArray (map point_id_value l))]) [] ids ++
            from_option (λ o, [(lit "filter", JObject o)]) [] filter)) ∧
    (ids = None → filter = None → body c = Some (lit "{}")).
Proof.
  intros Hb Hn.
  destruct (decode_encode_uri_component collectionName Hn) as (seg & Eenc & _).
  unfold qdrant_delete_points. cbv zeta.
  rewrite (handled_trace P E _ (operation_report _)) by apply operation_report_trace.
  unfold deletePoints.
  rewrite (encoded_request_sends P client collectionName seg
             (λ s, lit "/collections/" ++ s ++ lit "/points/delete" ++
                   wait_query (Some wait)) _ t Hb Eenc).
  eexists. split; [reflexivity|]. split; [reflexivity|].
  unfold fetch_call, json_body, with_body. cbn [body init_body].
  split.
  - destruct ids, filter; reflexivity.
  - intros -> ->. reflexivity.
Qed.

Lemma delete_points_tool_body_witness :
  ∃ c,
    net_calls (snd (qdrant_delete_points (answering (json_reply [])) sample_client
                      sample_errors (lit "docs") None None true idle))
      = net_calls idle ++ [c] ∧
    http_method c = lit "POST" ∧
    body c =
      JSON_stringify
        (JObject
           (from_option (λ l, [(lit "points", JArray (map point_id_value l))]) []
              None ++
            from_option (λ o, [(lit "filter", JObject o)]) [] None)) ∧
    (@None (list PointId) = None → @None Props = None → body c = Some (lit "{}")).
Proof.
  apply delete_points_tool_body.
  - discriminate.
  - vm_compute. reflexivity.
Defined.

(** ** An update answered with 204 *)

Lemma report_on_no_content P client E (call : EndpointCall) (message : jsstring) t r :
  post_of call = Unwrapped →
  answered P t
    (snd (handled P E (let* result := invoke P client call in
                       operation_report message result) t)) r →
  status r = 204%Z →
  fst (handled P E (let* result := invoke P client call in
                    operation_report message result) t) =
    Returns (formatError P E (EngineError (ReadOfNullish JUndefined (lit "status")))).
Proof.
  intros Hpost.
  rewrite (handled_trace P E _ (operation_report _)) by apply operation_report_trace.
  intros H Hs.
  apply invoke_answered in H as (e & o & H & Hi).
  pose proof (request_no_content _ _ _ _ _ _ H Hs) as R.
  unfold handled, try_catch, bind. rewrite Hi, Hpost.
  destruct (request P client e o t) as [[v|err] t']; cbn [fst] in R; [|discriminate].
  injection R as ->. reflexivity.
Qed.

(** X21: when the service answers an update with 204, each of the index
    tools, the payload tools and [qdrant_delete_points] reports an error,
    the TypeError of reading [status] off the absent result, although the
    request went out and was answered with success. *)
Theorem update_tool_on_no_content P client E tool t r :
  answered P t (snd (call_tool P client E tool t)) r →
  status r = 204%Z →
  fst (call_tool P client E tool t) =
    Returns (formatError P E
               (EngineError (ReadOfNullish JUndefined (lit "status")))) ∧
  isError (formatError P E
             (EngineError (ReadOfNullish JUndefined (lit "status")))) = true.
Proof.
  intros H Hs. split; [|reflexivity]. revert H.
  destruct tool as [c f s w|c f k lo hi l w|c f l rg w|c f w|c p i fl w|c p i fl w
                   |c k i fl w|c i fl w|c i fl w]; cbn [call_tool].
  - intros H.
    exact (report_on_no_content P client E (CreateFieldIndex c f _ (Some w)) _ t r
             eq_refl H Hs).
  - intros H.
    exact (report_on_no_content P client E (CreateFieldIndex c f _ (Some w)) _ t r
             eq_refl H Hs).
  - intros H.
    exact (report_on_no_content P client E (CreateFieldIndex c f _ (Some w)) _ t r
             eq_refl H Hs).
  - intros H.
    exact (report_on_no_content P client E (DeleteFieldIndex c f (Some w)) _ t r
             eq_refl H Hs).
  - intros H.
    exact (report_on_no_content P client E (SetPayload c _ (Some w)) _ t r
             eq_refl H Hs).
  - intros H.
    exact (report_on_no_content P client E (OverwritePayload c _ (Some w)) _ t r
             eq_refl H Hs).
  - intros H.
    exact (report_on_no_content P client E (DeletePayload c _ (Some w)) _ t r
             eq_refl H Hs).
  - intros H.
    exact (report_on_no_content P client E (ClearPayload c _ (Some w)) _ t r
             eq_refl H Hs).
  - intros H.
    exact (report_on_no_content P client E (DeletePoints c _ (Some w)) _ t r
             eq_refl H Hs).
Qed.

Lemma update_tool_on_no_content_witness :
  fst (call_tool (answering no_content) sample_client sample_errors
         (DeletePointsTool (lit "docs") (Some [IdNumber (number_of_Z 7)]) None true)
         idle) =
    Returns (formatError (answering no_content) sample_errors
               (EngineError (ReadOfNullish JUndefined (lit "status")))) ∧
  isError (formatError (answering no_content) sample_errors
             (EngineError (ReadOfNullish JUndefined (lit "status")))) = true.
Proof.
  apply (update_tool_on_no_content _ _ _ _ _ no_content).
  - eexists. split; [vm_compute; reflexivity | reflexivity].
  - reflexivity.
Defined.

(** ** Named vectors *)

Lemma vectors_config_fold (vectors : list NamedVector) (name : jsstring) (acc : Props) :
  obj_lookup name
    (fold_left
       (λ vectorsConfig v,
          assign (vector_name v)
            (JObject [(lit "size", JNumber (vector_size v));
                      (lit "distance", JString (vector_distance v))])
            vectorsConfig)
       vectors acc) =
    if bool_decide (name = lit "__proto__") then obj_lookup name acc
    else
      match list.last (filter (λ v, vector_name v = name) vectors) with
      | Some v =>
          Some (JObject [(lit "size", JNumber (vector_size v));
                         (lit "distance", JString (vector_distance v))])
      | None => obj_lookup name acc
      end.
Proof.
  revert acc. induction vectors as [|v vs IH]; intros acc.
  - cbn. by case_bool_decide.
  - cbn [fold_left]. rewrite IH. clear IH.
    rewrite filter_cons. unfold assign, same_key.
    case_bool_decide as Hp.
    + subst name. case_bool_decide as Hv; [reflexivity|].
      rewrite obj_lookup_set. unfold same_key.
      by rewrite bool_decide_eq_false_2.
    + destruct (decide (vector_name v = name)) as [Hn|Hn].
      * rewrite last_cons.
        destruct (list.last (filter _ vs)); [reflexivity|].
        rewrite bool_decide_eq_false_2 by congruence.
        rewrite obj_lookup_set. unfold same_key.
        by rewrite bool_decide_eq_true_2.
      * destruct (list.last (filter _ vs)); [reflexivity|].
        case_bool_decide; [reflexivity|].
        rewrite obj_lookup_set. unfold same_key.
        by rewrite bool_decide_eq_false_2.
Qed.

(** A name that occurs more than once holds the configuration of its last
    occurrence, and the name [__proto__] is not held at all: the assignment
    reaches the prototype accessor and adds no property. *)
Lemma vectors_config_lookup (vectors : list NamedVector) (name : jsstring) :
  obj_lookup name (vectors_config vectors) =
    if bool_decide (name = lit "__proto__") then None
    else
      (λ v, JObject [(lit "size", JNumber (vector_size v));
                     (lit "distance", JString (vector_distance v))])
        <$> list.last (filter (λ v, vector_name v = name) vectors).
Proof.
  unfold vectors_config. rewrite vectors_config_fold.
  case_bool_decide; [reflexivity|].
  by destruct (list.last _).
Qed.

(** ** Switching an alias *)

(** X23: [qdrant_switch_alias] moves an alias with one request: a POST to
    [/collections/aliases] whose body parses to two actions, the deletion
    of the alias first and its creation for the new collection second. *)
Theorem switch_alias_single_request P client E aliasName newCollectionName t :
  this_baseUrl client ≠ [] →
  ∃ c bodyText,
    net_calls (snd (qdrant_switch_alias P client E aliasName newCollectionName t))
      = net_calls t ++ [c] ∧
    url c = this_baseUrl client ++ lit "/collections/aliases" ∧
    method c = Some (lit "POST") ∧
    body c = Some bodyText ∧
    JSON_parse bodyText =
      Some (JObject
              [(lit "actions",
                JArray
                  [JObject [(lit "delete_alias",
                             JObject [(lit "alias_name", JString aliasName)])];
                   JObject [(lit "create_alias",
                             JObject [(lit "collection_name",
                                       JString newCollectionName);
                                      (lit "alias_name", JString aliasName)])]])]).
Proof.
  intros Hb. unfold qdrant_switch_alias.
  rewrite (handled_trace P E _ (λ _, ret _)) by reflexivity.
  unfold updateAliases. rewrite discarded_trace.
  rewrite request_net_calls, truthy_string_nonempty by exact Hb.
  match goal with
  | |- context [json_body "POST" ?v] =>
      destruct (JSON_round_trip v eq_refl) as (text & Es & Ep)
  end.
  eexists _, text. split; [reflexivity|]. split; [reflexivity|].
  split; [reflexivity|]. split; [exact Es | exact Ep].
Qed.

Lemma switch_alias_single_request_witness :
  ∃ c bodyText,
    net_calls (snd (qdrant_switch_alias (answering (json_reply [])) sample_client
                      sample_errors (lit "live") (lit "docs_v2") idle))
      = net_calls idle ++ [c] ∧
    url c = this_baseUrl sample_client ++ lit "/collections/aliases" ∧
    method c = Some (lit "POST") ∧
    body c = Some bodyText ∧
    JSON_parse bodyText =
      Some (JObject
              [(lit "actions",
                JArray
                  [JObject [(lit "delete_alias",
                             JObject [(lit "alias_name", JString (lit "live"))])];
                   JObject [(lit "create_alias",
                             JObject [(lit "collection_name",
                                       JString (lit "docs_v2"));
                                      (lit "alias_name", JString (lit "live"))])]])]).
Proof.
  apply switch_alias_single_request. discriminate.
Defined.

(** ** Creating a collection through the tools *)

(** X24: the body that [qdrant_create_collection] sends parses to the
    vector parameters and those of the three options that were given; an
    option that was left out is not part of the request. *)
Theorem create_collection_tool_body P client E collectionName vectorSize distance
    onDiskPayload shardNumber replicationFactor t c :
  net_calls (snd (qdrant_create_collection P client E collectionName vectorSize
                    distance onDiskPayload shardNumber replicationFactor t))
    = net_calls t ++ [c] →
  json_number vectorSize = true →
  (∀ x, shardNumber = Some x → json_number x = true) →
  (∀ x, replicationFactor = Some x → json_number x = true) →
  ∃ bodyText,
    method c = Some (lit "PUT") ∧
    body c = Some bodyText ∧
    JSON_parse bodyText =
      Some (JObject
              ([(lit "vectors",
                 JObject [(lit "size", JNumber vectorSize);
                          (lit "distance", JString distance)])] ++
               from_option (λ b, [(lit "on_disk_payload", JBool b)]) [] onDiskPayload ++
               from_option (λ x, [(lit "shard_number", JNumber x)]) [] shardNumber ++
               from_option (λ x, [(lit "replication_factor", JNumber x)]) []
                 replicationFactor)).
Proof.
  unfold qdrant_create_collection. cbv zeta.
  rewrite (handled_trace P E _ (λ _, ret _)) by reflexivity.
  unfold createCollection. intros H Hsize Hshard Hrep.
  assert (H' : net_calls
                 (snd ((let* seg := encoded collectionName in
                        request P client (lit "/collections/" ++ seg)
                          (json_body "PUT"
                             (JObject
                                [(lit "vectors",
                                  JObject [(lit "size", JNumber vectorSize);
                                           (lit "distance", JString distance)]);
                                 (lit "on_disk_payload", optional JBool onDiskPayload);
                                 (lit "shard_number", optional JNumber shardNumber);
                                 (lit "replication_factor",
                                  optional JNumber replicationFactor)]))) t))
               = net_calls t ++ [c]).
  { rewrite <- H. unfold bind, encoded, or_fault, ret, throw.
    destruct (encodeURIComponent collectionName); [|reflexivity].
    by destruct (request P client _ _ t) as [[?|?] ?]. }
  apply (encoded_request_sent P client collectionName
           (λ seg, lit "/collections/" ++ seg)) in H' as (seg & _ & ->).
  unfold fetch_call, json_body, with_body. cbn [body init_body method init_method].
  match goal with
  | |- ∃ _, _ ∧ _ ∧ JSON_parse _ = Some ?v =>
      assert (Hj : json_value v = true)
  end.
  { destruct onDiskPayload, shardNumber as [sn|], replicationFactor as [rf|];
      cbn [json_value forallb map fst snd app from_option];
      rewrite ?Hsize, ?(Hshard _ eq_refl), ?(Hrep _ eq_refl); reflexivity. }
  destruct (JSON_round_trip _ Hj) as (text & Es & Ep).
  exists text. split; [reflexivity|]. split; [|exact Ep]. rewrite <- Es.
  destruct onDiskPayload, shardNumber, replicationFactor; reflexivity.
Qed.

Lemma create_collection_tool_body_witness :
  ∃ bodyText,
    method (fetch_call sample_client (lit "/collections/docs")
              (json_body "PUT" handler_config)) = Some (lit "PUT") ∧
    body (fetch_call sample_client (lit "/collections/docs")
            (json_body "PUT" handler_config)) = Some bodyText ∧
    JSON_parse bodyText =
      Some (JObject
              ([(lit "vectors",
                 JObject [(lit "size", JNumber (number_of_Z 4));
                          (lit "distance", JString (lit "Cosine"))])] ++
               from_option (λ b, [(lit "on_disk_payload", JBool b)]) [] None ++
               from_option (λ x, [(lit "shard_number", JNumber x)]) [] None ++
               from_option (λ x, [(lit "replication_factor", JNumber x)]) [] None)).
Proof.
  apply (create_collection_tool_body (answering (json_reply [])) sample_client
           sample_errors (lit "docs") (number_of_Z 4) (lit "Cosine") None None None
           idle).
  - vm_compute. reflexivity.
  - vm_compute. reflexivity.
  - intros x [=].
  - intros x [=].
Defined.

(** What [qdrant_create_collection_multi_vector] sends is the object that
    the loop over the vectors built. *)
Lemma multi_vector_request_body P client E collectionName vectors onDiskPayload t c :
  net_calls (snd (qdrant_create_collection_multi_vector P client E collectionName
                    vectors onDiskPayload t)) = net_calls t ++ [c] →
  body c =
    JSON_stringify
      (JObject [(lit "vectors", JObject (vectors_config vectors));
                (lit "on_disk_payload", optional JBool onDiskPayload)]).
Proof.
  unfold qdrant_create_collection_multi_vector. cbv zeta.
  rewrite (handled_trace P E _ (λ _, ret _)) by reflexivity.
  unfold createCollection. intros H.
  assert (H' : net_calls
                 (snd ((let* seg := encoded collectionName in
                        request P client (lit "/collections/" ++ seg)
                          (json_body "PUT"
                             (JObject
                                [(lit "vectors", JObject (vectors_config vectors));
                                 (lit "on_disk_payload",
                                  optional JBool onDiskPayload)]))) t))
               = net_calls t ++ [c]).
  { rewrite <- H. unfold bind, encoded, or_fault, ret, throw.
    destruct (encodeURIComponent collectionName); [|reflexivity].
    by destruct (request P client _ _ t) as [[?|?] ?]. }
  apply (encoded_request_sent P client collectionName
           (λ seg, lit "/collections/" ++ seg)) in H' as (seg & _ & ->).
  reflexivity.
Qed.

Lemma vectors_config_json (vectors : list NamedVector) :
  Forall (λ v, json_number (vector_size v) = true) vectors →
  json_value (JObject (vectors_config vectors)) = true.
Proof.
  intros Hs. unfold vectors_config.
  assert (∀ acc : Props,
            json_value (JObject acc) = true →
            json_value
              (JObject
                 (fold_left
                    (λ vectorsConfig v,
                       assign (vector_name v)
                         (JObject [(lit "size", JNumber (vector_size v));
                                   (lit "distance", JString (vector_distance v))])
                         vectorsConfig) vectors acc)) = true) as H;
    [|by apply H].
  induction Hs as [|v vs Hv _ IH]; intros acc Hacc; [exact Hacc|].
  cbn [fold_left]. apply IH. unfold assign.
  destruct (same_key (vector_name v) (lit "__proto__")); [exact Hacc|].
  cbn [json_value] in *. apply andb_true_iff in Hacc as [Ho Hj].
  apply andb_true_iff. split; [by apply ordered_keys_set|].
  apply forallb_forall, Forall_forall.
  apply (obj_set_values (λ x, json_value x = true)).
  - by apply Forall_forall, forallb_forall.
  - cbn [json_value map fst snd forallb]. rewrite Hv. reflexivity.
Qed.

(** X22: [qdrant_create_collection_multi_vector] sends a body that parses
    to [{vectors, on_disk_payload}], where [vectors] holds for a name given
    more than once the configuration of its last occurrence, and nothing
    for the name [__proto__]; the answer of the tool, when [createCollection]
    succeeds, still counts and lists every entry it was given. *)
Theorem multi_vector_tool_drops_entries P client E collectionName vectors
    onDiskPayload t c :
  net_calls (snd (qdrant_create_collection_multi_vector P client E collectionName
                    vectors onDiskPayload t)) = net_calls t ++ [c] →
  Forall (λ v, json_number (vector_size v) = true) vectors →
  ∃ bodyText sent text,
    body c = Some bodyText ∧
    JSON_parse bodyText =
      Some (JObject ((lit "vectors", JObject sent) ::
                     match onDiskPayload with
                     | Some b => [(lit "on_disk_payload", JBool b)]
                     | None => []
                     end)) ∧
    (∀ name,
       obj_lookup name sent =
         if bool_decide (name = lit "__proto__") then None
         else
           (λ v, JObject [(lit "size", JNumber (vector_size v));
                          (lit "distance", JString (vector_distance v))])
             <$> list.last (filter (λ v, vector_name v = name) vectors)) ∧
    (∀ created,
       fst (createCollection P client collectionName
              (JObject [(lit "vectors", JObject sent);
                        (lit "on_disk_payload", optional JBool onDiskPayload)])
              t) = Returns created →
       fst (qdrant_create_collection_multi_vector P client E collectionName vectors
              onDiskPayload t) =
         Returns {| content_text := JString text; isError := false |}) ∧
    JSON_parse text =
      Some (JObject
              [(lit "success", JBool true);
               (lit "message",
                JString (lit "Collection '" ++ collectionName ++
                         lit "' created with " ++ to_string (length_value vectors) ++
                         lit " named vectors"));
               (lit "collectionName", JString collectionName);
               (lit "vectors", JArray (map (λ v, JString (vector_name v)) vectors))]).
Proof.
  intros H Hs. apply multi_vector_request_body in H.
  pose proof (vectors_config_json vectors Hs) as Hj.
  set (answer :=
         JObject
           [(lit "success", JBool true);
            (lit "message",
             JString (lit "Collection '" ++ collectionName ++
                      lit "' created with " ++ to_string (length_value vectors) ++
                      lit " named vectors"));
            (lit "collectionName", JString collectionName);
            (lit "vectors", JArray (map (λ v, JString (vector_name v)) vectors))]).
  destruct (JSON_round_trip_indented answer) as (text & Es & Ep).
  { subst answer. cbn [json_value map fst snd forallb].
    assert (ordered_keys [lit "success"; lit "message"; lit "collectionName";
                          lit "vectors"] = true) as -> by (vm_compute; reflexivity).
    assert (forallb json_value (map (λ v, JString (vector_name v)) vectors) = true)
      as ->.
    { clear. induction vectors as [|v vs IH]; [reflexivity|].
      cbn [map forallb json_value andb]. exact IH. }
    reflexivity. }
  destruct (JSON_round_trip
              (JObject ((lit "vectors", JObject (vectors_config vectors)) ::
                        match onDiskPayload with
                        | Some b => [(lit "on_disk_payload", JBool b)]
                        | None => []
                        end))) as (bodyText & Eb & Epb).
  { cbn [json_value] in Hj |- *. destruct onDiskPayload; cbn [map fst snd forallb].
    - assert (ordered_keys [lit "vectors"; lit "on_disk_payload"] = true) as ->
        by (vm_compute; reflexivity).
      cbn [json_value]. rewrite Hj. reflexivity.
    - assert (ordered_keys [lit "vectors"] = true) as -> by (vm_compute; reflexivity).
      cbn [json_value]. rewrite Hj. reflexivity. }
  exists bodyText, (vectors_config vectors), text.
  split; [|split; [exact Epb|split; [apply vectors_config_lookup|split; [|exact Ep]]]].
  - rewrite H, <- Eb. destruct onDiskPayload; [reflexivity|].
    cbn [JSON_stringify optional from_option omap list_omap snd fst mbind option_bind].
    by destruct (JSON_stringify (JObject (vectors_config vectors))).
  - unfold qdrant_create_collection_multi_vector, handled, try_catch, bind, ret.
    cbv zeta. fold answer. unfold json_content. rewrite Es.
    intros x Hx.
    destruct (createCollection P client collectionName _ t) as [[y|e] t'];
      [reflexivity|discriminate].
Qed.

Lemma multi_vector_tool_drops_entries_witness :
  ∃ c bodyText sent text,
    net_calls (snd (qdrant_create_collection_multi_vector (answering no_content)
                      sample_client sample_errors (lit "docs")
                      (sample_vectors ++
                       [{| vector_name := lit "__proto__";
                           vector_size := number_of_Z 4;
                           vector_distance := lit "Dot" |}])
                      None idle)) = net_calls idle ++ [c] ∧
    body c = Some bodyText ∧
    JSON_parse bodyText = Some (JObject [(lit "vectors", JObject sent)]) ∧
    obj_lookup (lit "text") sent =
      Some (JObject [(lit "size", JNumber (number_of_Z 768));
                     (lit "distance", JString (lit "Euclid"))]) ∧
    obj_lookup (lit "__proto__") sent = None ∧
    fst (qdrant_create_collection_multi_vector (answering no_content)
           sample_client sample_errors (lit "docs")
           (sample_vectors ++
            [{| vector_name := lit "__proto__";
                vector_size := number_of_Z 4;
                vector_distance := lit "Dot" |}])
           None idle) =
      Returns {| content_text := JString text; isError := false |} ∧
    JSON_parse text =
      Some (JObject
              [(lit "success", JBool true);
               (lit "message",
                JString (lit "Collection 'docs' created with 4 named vectors"));
               (lit "collectionName", JString (lit "docs"));
               (lit "vectors",
                JArray [JString (lit "text"); JString (lit "image");
                        JString (lit "text"); JString (lit "__proto__")])]).
Proof.
  eexists.
  match goal with
  | |- ∃ bodyText sent text, ?sent_eq ∧ _ =>
      assert sent_eq as Hsent by (vm_compute; reflexivity)
  end.
  destruct (multi_vector_tool_drops_entries _ _ _ _ _ _ _ _ Hsent)
    as (bodyText & sent & text & Hb & Hp & Hl & Ha & Ht).
  { repeat constructor. }
  exists bodyText, sent, text.
  split; [exact Hsent|]. split; [exact Hb|]. split; [exact Hp|].
  split; [rewrite Hl; reflexivity|]. split; [rewrite Hl; reflexivity|].
  split; [|rewrite Ht; vm_compute; reflexivity].
  apply (Ha (JBool true)).
  assert (sent = vectors_config
                   (sample_vectors ++
                    [{| vector_name := lit "__proto__";
                        vector_size := number_of_Z 4;
                        vector_distance := lit "Dot" |}])) as ->.
  { assert (JSON_parse bodyText =
            Some (JObject
                    [(lit "vectors",
                      JObject (vectors_config
                                 (sample_vectors ++
                                  [{| vector_name := lit "__proto__";
                                      vector_size := number_of_Z 4;
                                      vector_distance := lit "Dot" |}])))])) as Hq.
    { injection Hb as <-. vm_compute. reflexivity. }
    rewrite Hp in Hq. by injection Hq. }
  vm_compute. reflexivity.
Defined.

(** ** Rate limiting with a number of seconds *)

(** X25: on a 429 whose [Retry-After] header starts with the decimal of an
    integer, the RateLimitError carries that integer: text after the number
    is ignored (a header sent twice reads as its first value), and a
    negative number is carried as it stands. *)
Theorem retry_after_seconds P this call t r (z : Z) (rest : jsstring) :
  answered P t (snd (invoke P this call t)) r →
  status r = 429%Z →
  (Z.abs z < 2 ^ 53)%Z →
  digit_free rest →
  headers_get (response_headers r) (lit "Retry-After") = Some (Z_to_string z ++ rest) →
  fst (invoke P this call t) =
    Throws (RateLimitError (lit "Rate limit exceeded") (number_of_Z z)).
Proof.
  intros H Hs _ Hr Hh. rewrite (rate_limited P this call t r H Hs), Hh.
  rewrite <- (parseInt_integer z rest Hr).
  destruct (Z_to_string z ++ rest) as [|c v] eqn:Ez; [|reflexivity].
  exfalso. unfold Z_to_string in Ez.
  pose proof (N_digits_nonempty (Z.to_N (Z.abs z))) as Hne.
  destruct (z <? 0)%Z; [discriminate|].
  destruct (N_digits (Z.to_N (Z.abs z))); [done|discriminate].
Qed.

Lemma retry_after_seconds_witness :
  fst (invoke (answering (throttled (lit "120, 60"))) sample_client
         (GetCollection (lit "docs")) idle) =
    Throws (RateLimitError (lit "Rate limit exceeded") (number_of_Z 120)).
Proof.
  apply (retry_after_seconds _ _ _ _ (throttled (lit "120, 60")) 120 (lit ", 60")).
  - eexists. split; [vm_compute; reflexivity | reflexivity].
  - reflexivity.
  - reflexivity.
  - reflexivity.
  - vm_compute. reflexivity.
Defined.

(** ** Metrics *)

Lemma request_plain_text P this endpoint options t r body :
  answered P t (snd (request P this endpoint options t)) r →
  ok r = true → status r ≠ 204%Z →
  includes (or_empty (headers_get (response_headers r) (lit "Content-Type")))
    (lit "text/plain") = true →
  response_body r = BodyText body →
  fst (request P this endpoint options t) = Returns (JString body).
Proof.
  intros H Hok Hs Hct Hbody.
  apply request_answered in H as [Hb Hr].
  unfold request, bind, fetch, text. rewrite Hb, Hr. cbn [negb].
  unfold ok in Hok. destruct (Z.eqb_spec (status r) 429); [rewrite e in Hok; done|].
  destruct (Z.eqb_spec (status r) 401); [rewrite e in Hok; done|].
  destruct (Z.eqb_spec (status r) 403); [rewrite e in Hok; done|].
  cbn [orb]. unfold ok. rewrite Hok. cbn [negb].
  destruct (Z.eqb_spec (status r) 204); [done|].
  rewrite Hct, Hbody. reflexivity.
Qed.

(** X26: [qdrant_get_metrics] passes the metrics on as they came: when the
    service answers 2xx with a [text/plain] body, the text of the tool
    result is that body, character for character, and [isError] is not
    set. *)
Theorem metrics_tool_verbatim P client E t r body :
  answered P t (snd (qdrant_get_metrics P client E t)) r →
  ok r = true → status r ≠ 204%Z →
  includes (or_empty (headers_get (response_headers r) (lit "Content-Type")))
    (lit "text/plain") = true →
  response_body r = BodyText body →
  fst (qdrant_get_metrics P client E t) =
    Returns {| content_text := JString body; isError := false |}.
Proof.
  unfold qdrant_get_metrics.
  rewrite (handled_trace P E (getMetrics P client) (λ result, ret _)) by reflexivity.
  intros H Hok Hs Hct Hbody.
  pose proof (request_plain_text _ _ _ _ _ _ _ H Hok Hs Hct Hbody) as R.
  unfold handled, try_catch, bind, ret, getMetrics in *.
  destruct (request P client (lit "/metrics") no_options t) as [[x|e] t'];
    cbn [fst] in R; [|discriminate].
  injection R as ->. reflexivity.
Qed.

Lemma metrics_tool_verbatim_witness :
  fst (qdrant_get_metrics (answering (plain_text (lit "app_info 1"))) sample_client
         sample_errors idle) =
    Returns {| content_text := JString (lit "app_info 1"); isError := false |}.
Proof.
  apply (metrics_tool_verbatim _ _ _ _ (plain_text (lit "app_info 1"))).
  - eexists. split; [vm_compute; reflexivity | reflexivity].
  - reflexivity.
  - discriminate.
  - vm_compute. reflexivity.
  - reflexivity.
Defined.
